(** * Scheduling core of the announcement service

    A shallow embedding of
    - [src/utils/announcementUtils.ts]  (roles, Visibility Gate, Presentation Ordering)
    - [src/app/api/announcements/route.ts]  (priority clamp, Slot Finder, Priority Reflow)
    followed by the properties the specification states about them.

    Conventions of the embedding.
    - A JavaScript [Date] is its time value: an integer number of
      milliseconds since the epoch, a [Z].  Invalid dates (time value NaN)
      are outside the model, and so are the fractional and NaN [number]s:
      every [number] the modelled code touches is an integer.
    - The local time zone of the server has a fixed offset of whole minutes
      (UTC in production), so [setSeconds(0, 0)] clears the part below the
      minute and [setMinutes(getMinutes() + k)] adds [k] minutes.
    - [new Date()] inside a function is the extra argument [now].
    - [async] functions that query the database are functions in the small
      state-and-exception monad [Route.M] over the stored tables. *)

From Stdlib Require Import ZArith List String Ascii Bool Lia.
From Stdlib Require Import Sorting.Sorted Sorting.Permutation.
Import ListNotations.

Local Open Scope Z_scope.

(* ================================================================== *)
(** * JavaScript values and built-ins used by the sources *)
(* ================================================================== *)

Module Js.

(** An optional numeric argument: [undefined], [null] or a number. *)
Inductive OptNumber : Type :=
| Undefined
| Null
| Num (n : Z).

(** [v ?? d] *)
Definition nullish (v : OptNumber) (d : Z) : Z :=
  match v with
  | Num n => n
  | Undefined | Null => d
  end.

(** Destructuring default [{ x = d }]: only [undefined] takes the default. *)
Definition destructureDefault (v : OptNumber) (d : Z) : OptNumber :=
  match v with
  | Undefined => Num d
  | _ => v
  end.

(** [!v] for an optional number: [undefined], [null] and [0] are falsy. *)
Definition falsy (v : OptNumber) : bool :=
  match v with
  | Undefined | Null => true
  | Num n => n =? 0
  end.

(** [!b] for an optional boolean argument. *)
Definition notFlag (b : option bool) : bool :=
  match b with
  | Some true => false
  | _ => true
  end.

(** [o ?? d] for a nullable field. *)
Definition orElse (o : option Z) (d : Z) : Z :=
  match o with
  | Some n => n
  | None => d
  end.

(** [Array.prototype.includes] on an array of numbers: [undefined] and
    [null] are never found in it. *)
Definition includes (l : list Z) (x : OptNumber) : bool :=
  match x with
  | Num n => existsb (Z.eqb n) l
  | Undefined | Null => false
  end.

(** ** Dates *)

Definition msPerMinute : Z := 60000.

(** [d.setSeconds(0, 0)] *)
Definition setSeconds00 (t : Z) : Z := t - t mod msPerMinute.

(** [d.setMinutes(d.getMinutes() + k)] *)
Definition addMinutes (t k : Z) : Z := t + k * msPerMinute.

(** ** Strings *)

Definition lowerAscii (c : ascii) : ascii :=
  let n := nat_of_ascii c in
  if ((65 <=? n) && (n <=? 90))%nat then ascii_of_nat (n + 32) else c.

(** [s.toLowerCase()], on the ASCII letters. *)
Fixpoint toLowerCase (s : string) : string :=
  match s with
  | EmptyString => EmptyString
  | String c s' => String (lowerAscii c) (toLowerCase s')
  end.

(** A string used as a condition: the empty string is falsy. *)
Definition truthyString (s : string) : bool :=
  match s with
  | EmptyString => false
  | _ => true
  end.

(** ** [Array.prototype.sort]

    ECMAScript requires the sort to be stable and, for a consistent
    comparator, to return the array ordered by it.  The model is the
    stable insertion sort: [insertSorted x l] puts [x], which preceded
    every element of [l] in the input, in front of the first element it
    does not sort after.  Lemma [sort_is_stable_arrangement] and
    [stable_arrangement_unique] below show that for a consistent
    comparator this is the only possible result.  For a comparator
    that is not consistent on the elements the standard leaves the
    order to the implementation: there the model stands for a
    permutation of the input and for nothing more, and the order it
    computes is used only where the comparator is transitive on the
    list. *)
Section Sort.
Context {A : Type}.
Variable compareFn : A -> A -> Z.

Fixpoint insertSorted (x : A) (l : list A) : list A :=
  match l with
  | [] => [x]
  | y :: l' =>
      if compareFn x y <=? 0 then x :: l else y :: insertSorted x l'
  end.

Definition sort (l : list A) : list A := fold_right insertSorted [] l.
End Sort.

End Js.

(* ================================================================== *)
(** * src/utils/announcementUtils.ts *)
(* ================================================================== *)

Module Utils.

Inductive UserRole : Type :=
| student
| student_admin
| admin
| super_admin.

Definition UserRole_eqb (r1 r2 : UserRole) : bool :=
  match r1, r2 with
  | student, student
  | student_admin, student_admin
  | admin, admin
  | super_admin, super_admin => true
  | _, _ => false
  end.

(** The own properties of the [roleMapping] object literal. *)
Definition roleMapping : list (string * UserRole) :=
  [ ("user"%string, student);
    ("student"%string, student);
    ("student_admin"%string, student_admin);
    ("admin"%string, admin);
    ("super_admin"%string, super_admin) ].

(** The lookup among the own properties.  The names the object
    inherits from [Object.prototype] are added by
    [UtilsMore.roleMappingGet]; [normalizeUserRole] below is the
    function on the role strings that name no inherited member. *)
Fixpoint lookupRole (m : list (string * UserRole)) (k : string)
  : option UserRole :=
  match m with
  | [] => None
  | (k', r) :: m' => if String.eqb k' k then Some r else lookupRole m' k
  end.

Definition isTrue (b : option bool) : bool :=
  match b with
  | Some true => true
  | _ => false
  end.

Definition normalizeUserRole (role : option string) (isAdmin : option bool)
  : UserRole :=
  let fallback := if isTrue isAdmin then admin else student in
  match role with
  | None => fallback
  | Some r =>
      if negb (Js.truthyString r) then fallback
      else match lookupRole roleMapping r with
           | Some u => u
           | None => fallback
           end
  end.

Definition hasAdminAccess (userRole : UserRole) : bool :=
  existsb (UserRole_eqb userRole) [admin; student_admin; super_admin].

Definition getAnnouncementPriority (userRole : UserRole) : Z :=
  match userRole with
  | student => 1
  | student_admin => 2
  | admin => 3
  | super_admin => 4
  end.

(** The fields of the [Announcement] type (declared in [@/types], which
    is not among the sources) that the two functions below read.  Dates
    are the time values of the stored timestamps; [None] is an absent or
    [null] field.  [is_emergency] absent counts as [false]. *)
Record Announcement : Type := mkAnnouncement {
  id : option Z;
  status : string;
  category : string;
  scheduled_at : option Z;
  target_years : option (list Z);
  is_emergency : bool;
  priority_level : option Z;
  created_at : option Z;
  priority_until : option Z
}.

(** [isVisibleToUser].  [userRole] defaults to ['student'] at the call
    site; [isAdmin] and [userId] are accepted and never read. *)
Definition isVisibleToUser (now : Z) (announcement : Announcement)
    (userRole : UserRole) (isAdmin : option bool) (userId : option Z)
    (isSuperAdmin : option bool) (studentIntakeCode : Js.OptNumber) : bool :=
  let hasAdminLevel := hasAdminAccess userRole in
  if negb hasAdminLevel && Js.notFlag isSuperAdmin then
    if String.eqb (status announcement) "scheduled" then false
    else if Js.truthyString (category announcement)
            && String.eqb (Js.toLowerCase (category announcement)) "scheduled"
    then false
    else if match scheduled_at announcement with
            | Some scheduledDate => now <? scheduledDate
            | None => false
            end
    then false
    else
      match target_years announcement with
      | Some ((_ :: _) as targetYears) =>
          if Js.falsy studentIntakeCode
             || negb (Js.includes targetYears studentIntakeCode)
          then false
          else true
      | _ => true
      end
  else true.

Definition SAME_TIME_THRESHOLD : Z := 1000.

(** [aPriorityUntil && aPriorityUntil > now && a.status === 'urgent'] *)
Definition hasPriority (now : Z) (a : Announcement) : bool :=
  match priority_until a with
  | Some aPriorityUntil =>
      (now <? aPriorityUntil) && String.eqb (status a) "urgent"
  | None => false
  end.

(** The comparator passed to [sort] in [sortAnnouncementsByPriority]. *)
Definition compareAnnouncements (now : Z) (a b : Announcement) : Z :=
  if is_emergency a && negb (is_emergency b) then -1
  else if negb (is_emergency a) && is_emergency b then 1
  else
    let aPriorityNum := Js.orElse (priority_level a) 3 in
    let bPriorityNum := Js.orElse (priority_level b) 3 in
    let aDate := Js.orElse (created_at a) 0 in
    let bDate := Js.orElse (created_at b) 0 in
    let timeDiff := Z.abs (aDate - bDate) in
    if timeDiff <=? SAME_TIME_THRESHOLD then
      if negb (aPriorityNum =? bPriorityNum) then aPriorityNum - bPriorityNum
      else Js.orElse (id b) 0 - Js.orElse (id a) 0
    else if negb (aPriorityNum =? bPriorityNum) then
      aPriorityNum - bPriorityNum
    else
      let aHasPriority := hasPriority now a in
      let bHasPriority := hasPriority now b in
      if aHasPriority && negb bHasPriority then -1
      else if negb aHasPriority && bHasPriority then 1
      else bDate - aDate.

(** [sortAnnouncementsByPriority]: sorts a copy; [userRole] is not read.
    The clock is read once per comparison in the source; the model
    takes one reading [now] for the whole sort. *)
Definition sortAnnouncementsByPriority (now : Z)
    (announcements : list Announcement) (userRole : UserRole)
  : list Announcement :=
  Js.sort (compareAnnouncements now) announcements.

End Utils.

(* ================================================================== *)
(** * src/app/api/announcements/route.ts *)
(* ================================================================== *)

Module Route.

Import Utils.

(** ** The stored tables and the effects of the handlers *)

(** The columns of [announcements] and [users] that the scheduling
    queries read or write. *)
Record AnnouncementRow : Type := mkAnnouncementRow {
  row_id : Z;
  row_title : option string;
  row_priority_level : option Z;
  row_scheduled_at : option Z;
  row_author_id : option Z;
  row_status : string;
  row_updated_at : option Z
}.

Record UserRow : Type := mkUserRow {
  user_id : Z;
  user_role : option string
}.

Record Store : Type := mkStore {
  announcements : list AnnouncementRow;
  users : list UserRow
}.

Inductive Error : Type :=
| BadRequestError (message : string).

Inductive Outcome (A : Type) : Type :=
| Returned (a : A)
| Thrown (e : Error).
Arguments Returned {A} a.
Arguments Thrown {A} e.

(** A handler step: reads and writes the store, returns or throws. *)
Definition M (A : Type) : Type := Store -> Outcome A * Store.

Definition ret {A : Type} (a : A) : M A := fun s => (Returned a, s).

Definition throw {A : Type} (e : Error) : M A := fun s => (Thrown e, s).

Definition bind {A B : Type} (m : M A) (k : A -> M B) : M B :=
  fun s =>
    match m s with
    | (Returned a, s') => k a s'
    | (Thrown e, s') => (Thrown e, s')
    end.

Notation "x <- m ;; k" := (bind m (fun x => k))
  (at level 61, m at next level, right associativity).

(** ** Types of the scheduling functions *)

Definition SLOT_INTERVAL_MINUTES : Z := 5.

Record ScheduleResolutionResult : Type := mkResolution {
  scheduledAt : Z;
  autoAdjusted : bool
}.

Record ScheduleAdjustment : Type := mkAdjustment {
  adj_id : Z;
  newTime : Z
}.

Record DetailedConflictRecord : Type := mkConflict {
  conflict_id : Z;
  conflict_title : option string;
  conflict_scheduled_at : option Z;
  conflict_priority_level : option Z;
  conflict_author_role : option string
}.

Record ReflowResult : Type := mkReflowResult {
  reflow_scheduledAt : Z;
  reflow_autoAdjusted : bool;
  reflow_adjustments : list ScheduleAdjustment
}.

(** ** [validPriorityLevel] (POST, lines 83 and 102)

    [priority_level = 3] in the destructuring of the body, then
    [Math.max(0, Math.min(3, priority_level ?? 3))]. *)
Definition validPriorityLevel (priority_level : Js.OptNumber) : Z :=
  let priority_level := Js.destructureDefault priority_level 3 in
  Z.max 0 (Z.min 3 (Js.nullish priority_level 3)).

(** ** [fetchConflictsForRange]

    The WHERE clause of the query, and its LEFT JOIN with [users].  The
    query has no ORDER BY: rows come back in the order of the table. *)
Definition inConflictStatus (st : string) : bool :=
  existsb (String.eqb st)
    ["scheduled"%string; "under_review"%string; "active"%string].

Definition conflictsWith (start end_ : Z) (a : AnnouncementRow) : bool :=
  match row_scheduled_at a with
  | Some t => (start <=? t) && (t <? end_) && inConflictStatus (row_status a)
  | None => false
  end.

Definition authorOf (a : AnnouncementRow) (u : UserRow) : bool :=
  match row_author_id a with
  | Some i => i =? user_id u
  | None => false
  end.

Definition selectConflict (a : AnnouncementRow) (author_role : option string)
  : DetailedConflictRecord :=
  {| conflict_id := row_id a;
     conflict_title := row_title a;
     conflict_scheduled_at := row_scheduled_at a;
     conflict_priority_level := row_priority_level a;
     conflict_author_role := author_role |}.

Definition leftJoinUsers (us : list UserRow) (a : AnnouncementRow)
  : list DetailedConflictRecord :=
  match filter (authorOf a) us with
  | [] => [selectConflict a None]
  | matches => map (fun u => selectConflict a (user_role u)) matches
  end.

Definition queryConflicts (s : Store) (start end_ : Z)
  : list DetailedConflictRecord :=
  flat_map (leftJoinUsers (users s))
           (filter (conflictsWith start end_) (announcements s)).

Definition fetchConflictsForRange (start end_ : Z)
  : M (list DetailedConflictRecord) :=
  fun s => (Returned (queryConflicts s start end_), s).

(** ** [findNextAvailableScheduleSlot] *)

Definition exhaustedMessage : string :=
  "Unable to automatically find an available time slot within the next 3 hours. Please choose a different scheduled time.".

(** The [for] loop with [remaining] iterations left: [Some r] when an
    iteration returns [r], [None] when the loop runs out. *)
Fixpoint slotSearch (remaining : nat) (normalizedDesired candidate : Z)
  : M (option ScheduleResolutionResult) :=
  match remaining with
  | O => ret None
  | S remaining' =>
      let minuteStart := candidate in
      let minuteEnd := Js.addMinutes minuteStart SLOT_INTERVAL_MINUTES in
      conflicts <- fetchConflictsForRange minuteStart minuteEnd ;;
      if (List.length conflicts =? 0)%nat then
        ret (Some {| scheduledAt := minuteStart;
                     autoAdjusted := negb (minuteStart =? normalizedDesired) |})
      else
        slotSearch remaining' normalizedDesired minuteEnd
  end.

Definition maxIterations : nat := 180.

Definition findNextAvailableScheduleSlot (desiredDate : Z)
  : M ScheduleResolutionResult :=
  let normalizedDesired := Js.setSeconds00 desiredDate in
  found <- slotSearch maxIterations normalizedDesired normalizedDesired ;;
  match found with
  | Some result => ret result
  | None => throw (BadRequestError exhaustedMessage)
  end.

(** ** [reflowSchedulesForSuperAdmin] *)

(** An element of the [records] array; [rec_id] is [null] for the new
    announcement. *)
Record ReflowRecord : Type := mkReflowRecord {
  rec_id : option Z;
  priorityLevel : Z;
  rolePriority : Z;
  rec_scheduledAt : option Z
}.

(** The comparator of [records.sort]. *)
Definition compareRecords (a b : ReflowRecord) : Z :=
  if negb (priorityLevel a =? priorityLevel b)
  then priorityLevel a - priorityLevel b
  else rolePriority b - rolePriority a.

(** The variables the [for ... of] loop updates. *)
Record ReflowState : Type := mkReflowState {
  cursor : Z;
  assignedNewAnnouncementTime : Z;
  adjustments : list ScheduleAdjustment
}.

(** One iteration of the loop; [push] appends. *)
Definition reflowStep (st : ReflowState) (record : ReflowRecord)
  : ReflowState :=
  let st' :=
    match rec_id record with
    | None =>
        {| cursor := cursor st;
           assignedNewAnnouncementTime := cursor st;
           adjustments := adjustments st |}
    | Some i =>
        if match rec_scheduledAt record with
           | None => true
           | Some t => negb (t =? cursor st)
           end
        then {| cursor := cursor st;
                assignedNewAnnouncementTime := assignedNewAnnouncementTime st;
                adjustments :=
                  adjustments st ++ [{| adj_id := i; newTime := cursor st |}] |}
        else st
    end in
  {| cursor := Js.addMinutes (cursor st') SLOT_INTERVAL_MINUTES;
     assignedNewAnnouncementTime := assignedNewAnnouncementTime st';
     adjustments := adjustments st' |}.

(** The window each record is given: the value of [cursor] when the loop
    reaches it. *)
Fixpoint assignedWindows (st : ReflowState) (records : list ReflowRecord)
  : list (ReflowRecord * Z) :=
  match records with
  | [] => []
  | record :: rest =>
      (record, cursor st) :: assignedWindows (reflowStep st record) rest
  end.

Section WithRoleUtils.

(** [normalizeUserRole] of [@/lib/utils/roleUtils], which is not among
    the sources. *)
Variable normalizeUserRole : option string -> option bool -> UserRole.

Definition conflictRecord (conflict : DetailedConflictRecord)
  : ReflowRecord :=
  {| rec_id := Some (conflict_id conflict);
     priorityLevel := Js.orElse (conflict_priority_level conflict) 3;
     rolePriority :=
       getAnnouncementPriority
         (normalizeUserRole (conflict_author_role conflict) None);
     rec_scheduledAt := conflict_scheduled_at conflict |}.

(** The [records] array before it is sorted. *)
Definition buildRecords (conflicts : list DetailedConflictRecord)
    (normalizedDesired newAnnouncementPriority : Z) (userRole : UserRole)
  : list ReflowRecord :=
  let rolePriority := getAnnouncementPriority userRole in
  map conflictRecord conflicts
  ++ [ {| rec_id := None;
          priorityLevel := newAnnouncementPriority;
          rolePriority := rolePriority;
          rec_scheduledAt := Some normalizedDesired |} ].

Definition initialState (normalizedDesired : Z) : ReflowState :=
  let cursor := Js.setSeconds00 normalizedDesired in
  {| cursor := cursor;
     assignedNewAnnouncementTime := cursor;
     adjustments := [] |}.

Definition reflowSchedulesForSuperAdmin (desiredDate : Z)
    (newAnnouncementPriority : Z) (userRole : UserRole) : M ReflowResult :=
  let normalizedDesired := Js.setSeconds00 desiredDate in
  let windowEnd := Js.addMinutes normalizedDesired SLOT_INTERVAL_MINUTES in
  conflicts <- fetchConflictsForRange normalizedDesired windowEnd ;;
  if (List.length conflicts =? 0)%nat then
    ret {| reflow_scheduledAt := normalizedDesired;
           reflow_autoAdjusted :=
             negb (normalizedDesired =? Js.setSeconds00 desiredDate);
           reflow_adjustments := [] |}
  else
    let records :=
      Js.sort compareRecords
        (buildRecords conflicts normalizedDesired
                      newAnnouncementPriority userRole) in
    let final := fold_left reflowStep records (initialState normalizedDesired) in
    let autoAdjusted :=
      negb (assignedNewAnnouncementTime final =? normalizedDesired)
      || (0 <? List.length (adjustments final))%nat in
    ret {| reflow_scheduledAt := assignedNewAnnouncementTime final;
           reflow_autoAdjusted := autoAdjusted;
           reflow_adjustments := adjustments final |}.

(** ** The scheduling step of [POST] (lines 105-121): which of the two
    paths resolves the requested time, and the adjustments left to
    apply. *)
Record Resolution : Type := mkPostResolution {
  resolvedScheduledDate : option Z;
  autoRescheduled : bool;
  pendingScheduleAdjustments : list ScheduleAdjustment
}.

Definition resolveSchedule (scheduledDate : option Z)
    (validPriorityLevel : Z) (userRole : UserRole) : M Resolution :=
  match scheduledDate with
  | Some desired =>
      if UserRole_eqb userRole super_admin then
        reflowResult <-
          reflowSchedulesForSuperAdmin desired validPriorityLevel userRole ;;
        ret {| resolvedScheduledDate := Some (reflow_scheduledAt reflowResult);
               autoRescheduled := reflow_autoAdjusted reflowResult;
               pendingScheduleAdjustments := reflow_adjustments reflowResult |}
      else
        scheduleResult <- findNextAvailableScheduleSlot desired ;;
        ret {| resolvedScheduledDate := Some (scheduledAt scheduleResult);
               autoRescheduled := autoAdjusted scheduleResult;
               pendingScheduleAdjustments := [] |}
  | None =>
      ret {| resolvedScheduledDate := None;
             autoRescheduled := false;
             pendingScheduleAdjustments := [] |}
  end.

End WithRoleUtils.

(** ** [applyScheduleAdjustments]: the only writes to existing rows.

    Every awaited update is taken to resolve; a rejected one would end
    the loop with the earlier updates written.  The place of a row in
    the list stands for nothing after a write: what is said of the
    table then is said by membership. *)
Definition updateScheduledAt (now : Z) (adjustment : ScheduleAdjustment)
    (a : AnnouncementRow) : AnnouncementRow :=
  if row_id a =? adj_id adjustment then
    {| row_id := row_id a;
       row_title := row_title a;
       row_priority_level := row_priority_level a;
       row_scheduled_at := Some (newTime adjustment);
       row_author_id := row_author_id a;
       row_status := row_status a;
       row_updated_at := Some now |}
  else a.

Definition writeAdjustment (now : Z) (adjustment : ScheduleAdjustment)
  : M unit :=
  fun s =>
    (Returned tt,
     {| announcements := map (updateScheduledAt now adjustment) (announcements s);
        users := users s |}).

Fixpoint applyScheduleAdjustments (now : Z)
    (adjustments : list ScheduleAdjustment) : M unit :=
  match adjustments with
  | [] => ret tt
  | adjustment :: rest =>
      _ <- writeAdjustment now adjustment ;;
      applyScheduleAdjustments now rest
  end.

End Route.

(* ================================================================== *)
(** * What a stable sort has to return *)
(* ================================================================== *)

Module StableSort.

Section Arrangement.
Context {A : Type}.
Variable compareFn : A -> A -> Z.

(** The elements of a list with their positions, counted from [k]. *)
Fixpoint indexedFrom (k : nat) (l : list A) : list (nat * A) :=
  match l with
  | [] => []
  | x :: l' => (k, x) :: indexedFrom (S k) l'
  end.

Definition indexed (l : list A) : list (nat * A) := indexedFrom 0 l.

(** [x] has to come before [y]: the comparator says so, or it ties
    them and [x] came first in the input. *)
Definition before (x y : nat * A) : Prop :=
  compareFn (snd x) (snd y) < 0
  \/ (compareFn (snd x) (snd y) = 0 /\ (fst x < fst y)%nat).

(** [l'] arranges the elements of [l] so that every pair of it is in
    comparator order, ties in input order. *)
Definition StableArrangement (l l' : list A) : Prop :=
  exists la : list (nat * A),
    Permutation la (indexed l)
    /\ StronglySorted before la
    /\ map snd la = l'.

(** Swapping the arguments swaps the sign. *)
Definition SignAntisymmetric : Prop :=
  forall x y, compareFn x y > 0 <-> compareFn y x < 0.

Definition TransitiveOn (l : list A) : Prop :=
  forall x y z, In x l -> In y l -> In z l ->
    compareFn x y <= 0 -> compareFn y z <= 0 -> compareFn x z <= 0.

(** The comparator lifted to positioned elements. *)
Definition compareIndexed (x y : nat * A) : Z := compareFn (snd x) (snd y).


End Arrangement.

End StableSort.

(* ================================================================== *)
(** * Vocabulary of the scheduling properties *)
(* ================================================================== *)

Module Window.

Import Route.

(** The width of a schedule window, in milliseconds. *)
Definition windowWidth : Z := 300000.

(** The start of the [k]-th window from [start]. *)
Definition windowOf (start : Z) (k : nat) : Z :=
  start + Z.of_nat k * windowWidth.

(** The window that starts at [start] has a conflicting item. *)
Definition occupiedWindow (s : Store) (start : Z) : bool :=
  negb (List.length
          (queryConflicts s start (Js.addMinutes start SLOT_INTERVAL_MINUTES))
        =? 0)%nat.

End Window.

Module ReflowSpec.

Import Utils Route.
Export Window.


(** The record of the new announcement in the combined list. *)
Definition newRecord (normalizedDesired newAnnouncementPriority : Z)
    (userRole : UserRole) : ReflowRecord :=
  {| rec_id := None;
     priorityLevel := newAnnouncementPriority;
     rolePriority := getAnnouncementPriority userRole;
     rec_scheduledAt := Some normalizedDesired |}.

Section WithRoleUtils.
Variable normalizeUserRole : option string -> option bool -> UserRole.

(** The conflict set of a privileged call. *)
Definition conflictSet (s : Store) (desiredDate : Z)
  : list DetailedConflictRecord :=
  let normalizedDesired := Js.setSeconds00 desiredDate in
  queryConflicts s normalizedDesired
    (Js.addMinutes normalizedDesired SLOT_INTERVAL_MINUTES).

(** The combined list of a privileged call, before sorting. *)
Definition combinedList (s : Store) (desiredDate : Z)
    (newAnnouncementPriority : Z) (userRole : UserRole)
  : list ReflowRecord :=
  buildRecords normalizeUserRole (conflictSet s desiredDate)
    (Js.setSeconds00 desiredDate) newAnnouncementPriority userRole.

(** The windows the loop of [reflowSchedulesForSuperAdmin] hands out,
    in the order it walks the sorted records. *)
Definition reflowPlan (s : Store) (desiredDate : Z)
    (newAnnouncementPriority : Z) (userRole : UserRole)
  : list (ReflowRecord * Z) :=
  assignedWindows (initialState (Js.setSeconds00 desiredDate))
    (Js.sort compareRecords
       (combinedList s desiredDate newAnnouncementPriority userRole)).
End WithRoleUtils.

(** Whether the loop pushes an adjustment for a record given a window. *)
Definition moved (record : ReflowRecord) (window : Z) : bool :=
  match rec_scheduledAt record with
  | None => true
  | Some t => negb (t =? window)
  end.

Definition adjustmentFor (e : ReflowRecord * Z) : list ScheduleAdjustment :=
  match rec_id (fst e) with
  | Some i =>
      if moved (fst e) (snd e)
      then [ {| adj_id := i; newTime := snd e |} ]
      else []
  | None => []
  end.

End ReflowSpec.

(* ================================================================== *)
(** * Vocabulary of the visibility gate *)
(* ================================================================== *)

Module GateSpec.

Import Utils.

(** The viewer passes as admin-level: by role, or by the flag. *)
Definition adminLevel (userRole : UserRole) (isSuperAdmin : option bool)
  : bool :=
  hasAdminAccess userRole || negb (Js.notFlag isSuperAdmin).







End GateSpec.

(* ================================================================== *)
(** * Vocabulary of the presentation ordering *)
(* ================================================================== *)

Module OrderSpec.

Import Utils.


Definition priorityOf (a : Announcement) : Z :=
  Js.orElse (priority_level a) 3.




End OrderSpec.

(* ================================================================== *)
(** * Concrete stores and items of the specification's scenarios *)
(* ================================================================== *)

Module Scenarios.

Import Utils Route.

(** Times of day on the first day of the epoch, in milliseconds. *)
Definition clock (hours minutes seconds : Z) : Z :=
  ((hours * 60 + minutes) * 60 + seconds) * 1000.

Definition tenOClock : Z := clock 10 0 0.

Definition scheduledRow (i : Z) (t : Z) (priority : option Z)
    (author : option Z) : AnnouncementRow :=
  {| row_id := i;
     row_title := None;
     row_priority_level := priority;
     row_scheduled_at := Some t;
     row_author_id := author;
     row_status := "scheduled";
     row_updated_at := None |}.

Definition staff : list UserRow :=
  [ {| user_id := 1; user_role := Some "super_admin"%string |};
    {| user_id := 2; user_role := Some "admin"%string |};
    {| user_id := 3; user_role := Some "student_admin"%string |} ].

(** Scenario B: item X (id 7) at 10:00, priority 3, written by a
    super admin (role rank 4). *)
Definition storeB : Store :=
  {| announcements := [scheduledRow 7 tenOClock (Some 3) (Some 1)];
     users := staff |}.


Definition emptyStore : Store := {| announcements := []; users := staff |}.

(** [n] consecutive occupied windows from [start]. *)
Definition occupied (start : Z) (n : nat) : list AnnouncementRow :=
  map (fun k => scheduledRow (Z.of_nat k)
                  (start + Z.of_nat k * 300000) (Some 3) (Some 2))
      (seq 0 n).

(** Every window of the three hours from 10:00 is taken. *)
Definition storeThreeHoursFull : Store :=
  {| announcements := occupied tenOClock 36; users := staff |}.

(** Every window of the fifteen hours from 08:00 is taken. *)
Definition storeFifteenHoursFull : Store :=
  {| announcements := occupied (clock 8 0 0) 180; users := staff |}.

(** A plain active item for the presentation ordering. *)
Definition item (i created priority : Z) : Announcement :=
  {| id := Some i;
     status := "active";
     category := "general";
     scheduled_at := None;
     target_years := None;
     is_emergency := false;
     priority_level := Some priority;
     created_at := Some created;
     priority_until := None |}.



(** Scenario D: an active item for the intakes 23 and 25. *)
Definition targeted : Announcement :=
  {| id := Some 5;
     status := "active";
     category := "general";
     scheduled_at := None;
     target_years := Some [23; 25];
     is_emergency := false;
     priority_level := Some 3;
     created_at := Some 0;
     priority_until := None |}.




End Scenarios.

(* ================================================================== *)
(** * More JavaScript built-ins *)
(* ================================================================== *)

Module JsMore.

(** A value of a parsed JSON body, as far as [normalizeTargetYears] tells
    values apart: an array or not, and for an entry of the array its
    [typeof].  A number is either an integer or not ([ENonInteger]:
    fractional, NaN or infinite). *)
Inductive JsEntry : Type :=
| EString (s : string)
| EInteger (n : Z)
| ENonInteger
| EOther.

Inductive JsValue : Type :=
| VArray (entries : list JsEntry)
| VOther.

(** ** [parseInt(s, 10)], on ASCII strings: leading white space, an
    optional sign, then the longest run of decimal digits; [None] is NaN. *)
Definition isWhiteSpace (c : ascii) : bool :=
  let n := nat_of_ascii c in
  ((9 <=? n) && (n <=? 13) || (n =? 32))%nat.

Fixpoint skipWhiteSpace (s : string) : string :=
  match s with
  | String c rest => if isWhiteSpace c then skipWhiteSpace rest else s
  | EmptyString => EmptyString
  end.

Definition digitValue (c : ascii) : option Z :=
  let n := nat_of_ascii c in
  if ((48 <=? n) && (n <=? 57))%nat then Some (Z.of_nat n - 48) else None.

Fixpoint parseDigits (acc : Z) (seen : bool) (s : string) : option Z :=
  match s with
  | String c rest =>
      match digitValue c with
      | Some d => parseDigits (10 * acc + d) true rest
      | None => if seen then Some acc else None
      end
  | EmptyString => if seen then Some acc else None
  end.

Definition parseInt10 (s : string) : option Z :=
  match skipWhiteSpace s with
  | String "-"%char rest => option_map Z.opp (parseDigits 0 false rest)
  | String "+"%char rest => parseDigits 0 false rest
  | s' => parseDigits 0 false s'
  end.

(** ** [Array.from(new Set(l))]: the elements of [l] without repetition,
    each at its first occurrence. *)
Section SetFrom.
Context {A : Type}.
Variable eqb : A -> A -> bool.

Fixpoint setFrom (l : list A) : list A :=
  match l with
  | [] => []
  | x :: rest => x :: filter (fun y => negb (eqb y x)) (setFrom rest)
  end.
End SetFrom.

(** The comparator of [sort((a, b) => a - b)]. *)
Definition ascending (a b : Z) : Z := a - b.

(** The order of [sort()] without a comparator, on strings: by code
    units. *)
Definition stringOrder (a b : string) : Z :=
  match String.compare a b with
  | Lt => -1
  | Eq => 0
  | Gt => 1
  end.

(** [Math.min(Math.max(value, min), max)] *)
Definition clamp (value min max : Z) : Z := Z.min (Z.max value min) max.

(** An optional number that is [null] when absent. *)
Definition nullable (o : option Z) : Js.OptNumber :=
  match o with
  | Some n => Js.Num n
  | None => Js.Null
  end.

End JsMore.

(* ================================================================== *)
(** * src/unnamed/part_000 (student year helpers) *)
(* ================================================================== *)

Module StudentYear.

Definition MAX_YEAR_LEVEL : Z := 6.

Definition isDigit (c : ascii) : bool :=
  let n := nat_of_ascii c in ((48 <=? n) && (n <=? 57))%nat.

(** [[a-z]] under the [i] flag. *)
Definition isLetter (c : ascii) : bool :=
  let n := nat_of_ascii c in
  ((97 <=? n) && (n <=? 122) || (65 <=? n) && (n <=? 90))%nat.

(** [EMAIL_BATCH_REGEX] tried at the start of [s]: a dot, two digits, a
    letter; the two digits are the captured group. *)
Definition batchAt (s : string) : option (ascii * ascii) :=
  match s with
  | String "."%char (String d1 (String d2 (String l _))) =>
      if isDigit d1 && isDigit d2 && isLetter l then Some (d1, d2) else None
  | _ => None
  end.

(** [email.match(EMAIL_BATCH_REGEX)]: the leftmost match. *)
Fixpoint matchBatch (s : string) : option (ascii * ascii) :=
  match batchAt s with
  | Some g => Some g
  | None =>
      match s with
      | String _ rest => matchBatch rest
      | EmptyString => None
      end
  end.

Definition extractIntakeCodeFromEmail (email : option string) : option Z :=
  match email with
  | None => None
  | Some e =>
      if negb (Js.truthyString e) then None
      else
        match matchBatch e with
        | None => None
        | Some (d1, d2) =>
            JsMore.parseInt10 (String d1 (String d2 EmptyString))
        end
  end.

Definition getIntakeYearFromEmail (email : option string) : option Z :=
  match extractIntakeCodeFromEmail email with
  | None => None
  | Some intakeCode =>
      let pivot := 50 in
      Some ((if intakeCode <? pivot then 2000 else 1900) + intakeCode)
  end.

(** [referenceYear] is [referenceDate.getFullYear()]. *)
Definition getYearLevelFromIntakeYear (intakeYear referenceYear : Z) : Z :=
  let diff := referenceYear - intakeYear in
  JsMore.clamp (diff + 1) 1 MAX_YEAR_LEVEL.

Record YearMetadata : Type := mkYearMetadata {
  intakeYear : Z;
  yearLevel : Z
}.

Definition getYearMetadataFromEmail (email : option string)
    (referenceYear : Z) : option YearMetadata :=
  match getIntakeYearFromEmail email with
  | None => None
  | Some intakeYear =>
      if intakeYear =? 0 then None
      else Some {| intakeYear := intakeYear;
                   yearLevel :=
                     getYearLevelFromIntakeYear intakeYear referenceYear |}
  end.

End StudentYear.

(* ================================================================== *)
(** * src/utils/announcementUtils.ts, the remaining helpers *)
(* ================================================================== *)

Module UtilsMore.

Import Utils.

(** A [UserRole] is one of four string literals. *)
Definition roleString (r : UserRole) : string :=
  match r with
  | student => "student"
  | student_admin => "student_admin"
  | admin => "admin"
  | super_admin => "super_admin"
  end.

(** ** [roleMapping[role]] with the inherited members

    [roleMapping] is an object literal, so it inherits from
    [Object.prototype]: looking up a name that is none of its own
    properties finds the member of that name of the prototype, when
    there is one.  These are the members the standard gives the
    prototype; each is a function, and [__proto__] reads as the
    prototype object, so every one of them is truthy. *)
Definition objectPrototypeNames : list string :=
  [ "constructor"%string; "hasOwnProperty"%string; "isPrototypeOf"%string;
    "propertyIsEnumerable"%string; "toLocaleString"%string;
    "toString"%string; "valueOf"%string; "__proto__"%string;
    "__defineGetter__"%string; "__defineSetter__"%string;
    "__lookupGetter__"%string; "__lookupSetter__"%string ].

(** What [normalizeUserRole] returns at run time: one of the four role
    names, or the member of [Object.prototype] of the given name. *)
Inductive RoleValue : Type :=
| RoleName (r : UserRole)
| PrototypeMember (name : string).

Definition roleMappingGet (role : string) : option RoleValue :=
  match lookupRole roleMapping role with
  | Some r => Some (RoleName r)
  | None =>
      if existsb (String.eqb role) objectPrototypeNames
      then Some (PrototypeMember role)
      else None
  end.

(** [normalizeUserRole] on every role string.  [Utils.normalizeUserRole]
    is this function on the strings that name no member of
    [Object.prototype]. *)
Definition normalizeUserRoleValue (role : option string)
    (isAdmin : option bool) : RoleValue :=
  let fallback := RoleName (if isTrue isAdmin then admin else student) in
  match role with
  | None => fallback
  | Some r =>
      if negb (Js.truthyString r) then fallback
      else match roleMappingGet r with
           | Some v => v
           | None => fallback
           end
  end.

(** The names of the own properties of [roleMapping]. *)
Definition roleMappingNames : list string := map fst roleMapping.

Definition getAccessLevel (userRole : UserRole) : Z :=
  match userRole with
  | student => 1
  | student_admin => 2
  | admin => 2
  | super_admin => 3
  end.

Definition canPerformAdminActions (userRole : UserRole) : bool :=
  hasAdminAccess userRole.

Definition canManageUsers (userRole : UserRole) : bool :=
  UserRole_eqb userRole super_admin.

Definition filterByCategory (announcements : list Announcement)
    (category : string) : list Announcement :=
  if String.eqb category "all" then announcements
  else filter (fun a => String.eqb (Js.toLowerCase (Utils.category a))
                                   (Js.toLowerCase category))
              announcements.

(** [getUniqueCategories]: the call [isVisibleToUser(announcement,
    userRole)] leaves the other four arguments undefined. *)
Definition getUniqueCategories (now : Z) (announcements : list Announcement)
    (userRole : UserRole) : list string :=
  Js.sort JsMore.stringOrder
    (JsMore.setFrom String.eqb
       (map category
          (filter (fun announcement =>
                     isVisibleToUser now announcement userRole None None None
                                     Js.Undefined)
                  announcements))).

End UtilsMore.

(* ================================================================== *)
(** * src/app/api/announcements/route.ts, further parts *)
(* ================================================================== *)

Module RouteMore.

Import Utils Route JsMore.

(** ** The audience filter of [GET] (lines 37-48) *)

Definition audienceFilter (userIntakeCode : option Z)
    (announcement : Announcement) : bool :=
  match target_years announcement with
  | Some ((_ :: _) as targets) =>
      if Js.falsy (nullable userIntakeCode) then false
      else Js.includes targets (nullable userIntakeCode)
  | _ => true
  end.

Definition filteredData (canViewAll : bool) (data : list Announcement)
    (userIntakeCode : option Z) : list Announcement :=
  if canViewAll then data else filter (audienceFilter userIntakeCode) data.

(** ** [normalizeTargetYears] *)

(** A number: an integer, or not. *)
Inductive JsNumber : Type :=
| Integer (n : Z)
| NonInteger.

(** The result of the [map] step for one entry: [None] is [null]. *)
Definition entryNumber (entry : JsEntry) : option JsNumber :=
  match entry with
  | EString s =>
      match parseInt10 s with
      | None => None
      | Some parsed => Some (Integer parsed)
      end
  | EInteger n => Some (Integer n)
  | ENonInteger => Some NonInteger
  | EOther => None
  end.

(** [entry !== null] as a filter. *)
Definition notNull (entry : option JsNumber) : list JsNumber :=
  match entry with
  | Some v => [v]
  | None => []
  end.

(** [Number.isInteger(year) && year >= 1 && year <= 99] as a filter. *)
Definition intakeYearCode (year : JsNumber) : list Z :=
  match year with
  | Integer n => if (1 <=? n) && (n <=? 99) then [n] else []
  | NonInteger => []
  end.

(** Both early returns give [null]; an array is never falsy. *)
Definition normalizeTargetYears (value : JsValue) : option (list Z) :=
  match value with
  | VArray entries =>
      let normalized :=
        Js.sort ascending
          (setFrom Z.eqb
             (flat_map intakeYearCode
                (flat_map notNull (map entryNumber entries)))) in
      if (0 <? List.length normalized)%nat then Some normalized else None
  | VOther => None
  end.

(** ** Status and active flag handed to the insert ([POST], lines
    123-127); [hasPriorityWindow] and [isScheduled] are the two
    comparisons with the clock of lines 99 and 123. *)

Definition finalStatus (hasPriorityWindow isScheduled : bool)
    (status : string) : string :=
  if hasPriorityWindow then "urgent"%string
  else if isScheduled then "scheduled"%string
  else status.

Definition finalIsActive (hasPriorityWindow isScheduled is_active : bool)
  : bool :=
  if isScheduled then false
  else if hasPriorityWindow then true
  else is_active.

(** ** [resolveRecipientEmails]; [rows] is the [email] column of [users] *)
Definition resolveRecipientEmails (rows : list (option string))
    (targetYears : option (list Z)) : list string :=
  let normalizedTargets :=
    match targetYears with
    | Some ((_ :: _) as l) => Some l
    | _ => None
    end in
  filter (fun email =>
            match normalizedTargets with
            | None => true
            | Some targets =>
                let intakeCode :=
                  StudentYear.extractIntakeCodeFromEmail (Some email) in
                if Js.falsy (nullable intakeCode) then false
                else Js.includes targets (nullable intakeCode)
            end)
         (filter Js.truthyString
            (flat_map (fun row => match row with
                                  | Some e => [e]
                                  | None => []
                                  end) rows)).

(** ** [ensurePriorityColumn] and [ensureTargetYearsColumn]

    The module-level flag is threaded through; the three extra arguments
    are what the database answers to the check, to the ALTER TABLE and to
    the second check, asked in that order as far as the function gets. *)
Inductive ColumnState : Type :=
| unknown
| supported
| unsupported.

(** The answer to a SELECT: an exception, or a result whose
    [rows?.length] is [n] (0 when there is no [rows]). *)
Inductive DbAnswer : Type :=
| DbError
| DbRows (n : nat).

Definition hasRows (a : DbAnswer) : bool :=
  match a with
  | DbRows n => (0 <? n)%nat
  | DbError => false
  end.

Definition ensureColumn (state : ColumnState)
    (checkResult : DbAnswer) (alterFails : bool) (verifyResult : DbAnswer)
  : bool * ColumnState :=
  match state with
  | supported => (true, supported)
  | unsupported => (false, unsupported)
  | unknown =>
      match checkResult with
      | DbError => (false, unsupported)
      | DbRows _ =>
          if hasRows checkResult then (true, supported)
          else if alterFails then (false, unsupported)
          else
            match verifyResult with
            | DbError => (false, unsupported)
            | DbRows _ =>
                if hasRows verifyResult then (true, supported)
                else (false, unsupported)
            end
      end
  end.

Definition ensurePriorityColumn (priorityColumnState : ColumnState) :=
  ensureColumn priorityColumnState.

Definition ensureTargetYearsColumn (targetYearsColumnState : ColumnState) :=
  ensureColumn targetYearsColumnState.

(** ** The writes to the two flags

    [priorityColumnState] has two writers: [ensurePriorityColumn], and
    the [catch] of the first insert of [insertAnnouncementWithFallback]
    (line 557), which marks the column unsupported when the insert
    failed on a missing column.  [targetYearsColumnState] is written by
    [ensureTargetYearsColumn] alone.  Each write is one step: a call
    that finds its flag decided returns before any [await], and [POST]
    awaits [initializeSchema], where the calls on an unknown flag are
    made, before it does anything else (line 67). *)
Inductive FlagWrite : Type :=
| EnsureCall (checkResult : DbAnswer) (alterFails : bool)
             (verifyResult : DbAnswer)
| InsertMissedColumn.

Definition priorityFlagAfter (priorityColumnState : ColumnState)
    (write : FlagWrite) : ColumnState :=
  match write with
  | EnsureCall checkResult alterFails verifyResult =>
      snd (ensurePriorityColumn priorityColumnState
             checkResult alterFails verifyResult)
  | InsertMissedColumn => unsupported
  end.

Definition targetYearsFlagAfter (targetYearsColumnState : ColumnState)
    (call : DbAnswer * bool * DbAnswer) : ColumnState :=
  let '(checkResult, alterFails, verifyResult) := call in
  snd (ensureTargetYearsColumn targetYearsColumnState
         checkResult alterFails verifyResult).

(** The flags after a sequence of writes. *)
Definition priorityFlagAfterAll (writes : list FlagWrite)
    (priorityColumnState : ColumnState) : ColumnState :=
  fold_left priorityFlagAfter writes priorityColumnState.

Definition targetYearsFlagAfterAll (calls : list (DbAnswer * bool * DbAnswer))
    (targetYearsColumnState : ColumnState) : ColumnState :=
  fold_left targetYearsFlagAfter calls targetYearsColumnState.

End RouteMore.

(* ================================================================== *)
(** * Vocabulary of the adjustment writes *)
(* ================================================================== *)

Module ApplySpec.

Import Route.

(** What the adjustment writes, one after the other, make of one row. *)
Definition adjustedRow (now : Z) (adjustments : list ScheduleAdjustment)
    (a : AnnouncementRow) : AnnouncementRow :=
  fold_left (fun row adjustment => updateScheduledAt now adjustment row)
            adjustments a.

(** The store after [applyScheduleAdjustments]. *)
Definition storeAfter (now : Z) (adjustments : list ScheduleAdjustment)
    (s : Store) : Store :=
  snd (applyScheduleAdjustments now adjustments s).

(** The ids of the existing items among reflow records. *)
Definition existingIds (records : list ReflowRecord) : list Z :=
  flat_map (fun r => match rec_id r with
                     | Some i => [i]
                     | None => []
                     end) records.

End ApplySpec.

(* ================================================================== *)
(** * Further concrete stores and inputs *)
(* ================================================================== *)

Module ScenariosMore.

Import Utils Route Scenarios.

(** Item 7 at 10:00 and item 8 at 10:05. *)
Definition storeQueue : Store :=
  {| announcements :=
       [ scheduledRow 7 (clock 10 0 0) (Some 3) (Some 1);
         scheduledRow 8 (clock 10 5 0) (Some 3) (Some 2) ];
     users := staff |}.

(** What the privileged call for 10:00 with priority 0 returns on
    [storeB] and on [storeQueue]. *)
Definition movedSeven : ReflowResult :=
  {| reflow_scheduledAt := clock 10 0 0;
     reflow_autoAdjusted := true;
     reflow_adjustments := [ {| adj_id := 7; newTime := clock 10 5 0 |} ] |}.

(** Three items for the display: a routine one, a pressing one created
    five seconds later, and an emergency of the lowest priority. *)
Definition routine : Announcement := item 1 0 2.

Definition pressing : Announcement := item 2 5000 0.

Definition alarm : Announcement :=
  {| id := Some 3;
     status := "active";
     category := "general";
     scheduled_at := None;
     target_years := None;
     is_emergency := true;
     priority_level := Some 3;
     created_at := Some 10000;
     priority_until := None |}.

End ScenariosMore.

(* ================================================================== *)
(** * Vocabulary of the further display properties *)
(* ================================================================== *)

Module DisplaySpec.

Import Utils OrderSpec.

(** [a] may be shown before [b] as far as the emergency flag and the
    priority level go: an emergency before a non-emergency, and within
    the same emergency class the smaller priority level first. *)
Definition rankLe (a b : Announcement) : Prop :=
  (is_emergency a = true /\ is_emergency b = false)
  \/ (is_emergency a = is_emergency b /\ priorityOf a <= priorityOf b).

(** The value of the two-digit group of an email. *)
Definition digitOf (c : ascii) : Z := Z.of_nat (nat_of_ascii c) - 48.

End DisplaySpec.

(* ================================================================== *)
(** * Properties of the sort model *)
(* ================================================================== *)

Section SortPermutation.
Context {A : Type}.
Variable compareFn : A -> A -> Z.

Lemma insertSorted_perm (x : A) (l : list A) :
  Permutation (Js.insertSorted compareFn x l) (x :: l).
Proof.
  induction l as [|y l IH]; simpl.
  - apply Permutation_refl.
  - destruct (compareFn x y <=? 0).
    + apply Permutation_refl.
    + eapply perm_trans; [apply perm_skip, IH | apply perm_swap].
Qed.

Lemma sort_perm (l : list A) : Permutation (Js.sort compareFn l) l.
Proof.
  induction l as [|x l IH]; simpl.
  - constructor.
  - eapply perm_trans; [apply insertSorted_perm | now apply perm_skip].
Qed.

Lemma sort_length (l : list A) :
  List.length (Js.sort compareFn l) = List.length l.
Proof. apply Permutation_length, sort_perm. Qed.
End SortPermutation.

Section SortTheory.
Import StableSort.
Context {A : Type}.
Variable compareFn : A -> A -> Z.

Lemma insertSorted_map_snd (x : nat * A) (l : list (nat * A)) :
  map snd (Js.insertSorted (compareIndexed compareFn) x l)
  = Js.insertSorted compareFn (snd x) (map snd l).
Proof.
  induction l as [|y l IH]; simpl; [reflexivity|].
  unfold compareIndexed at 1.
  destruct (compareFn (snd x) (snd y) <=? 0); simpl; [reflexivity|].
  now rewrite IH.
Qed.

Lemma sort_map_snd (l : list (nat * A)) :
  map snd (Js.sort (compareIndexed compareFn) l)
  = Js.sort compareFn (map snd l).
Proof.
  induction l as [|x l IH]; simpl; [reflexivity|].
  now rewrite insertSorted_map_snd, IH.
Qed.

Lemma indexedFrom_snd (k : nat) (l : list A) :
  map snd (indexedFrom k l) = l.
Proof.
  revert k; induction l as [|x l IH]; intros k; simpl; [reflexivity|].
  now rewrite IH.
Qed.

Lemma indexedFrom_length (k : nat) (l : list A) :
  List.length (indexedFrom k l) = List.length l.
Proof.
  revert k; induction l as [|x l IH]; intros k; simpl; [reflexivity|].
  now rewrite IH.
Qed.

Lemma indexedFrom_In (k : nat) (l : list A) (p : nat * A) :
  In p (indexedFrom k l) -> (k <= fst p)%nat /\ In (snd p) l.
Proof.
  revert k; induction l as [|x l IH]; intros k; simpl; [tauto|].
  intros [<- | H]; simpl.
  - split; [lia | now left].
  - apply IH in H. split; [lia | tauto].
Qed.





Lemma insertSorted_sorted (dom : list A) (x : nat * A) (s : list (nat * A)) :
  SignAntisymmetric compareFn ->
  TransitiveOn compareFn dom ->
  In (snd x) dom ->
  (forall y, In y s -> In (snd y) dom /\ (fst x < fst y)%nat) ->
  StronglySorted (before compareFn) s ->
  StronglySorted (before compareFn)
                 (Js.insertSorted (compareIndexed compareFn) x s).
Proof.
  intros Hanti Htrans Hx.
  induction s as [|y s IH]; intros Hdom Hs; simpl.
  - constructor; constructor.
  - apply StronglySorted_inv in Hs as [Hs Fy].
    unfold compareIndexed at 1.
    destruct (Z.leb_spec (compareFn (snd x) (snd y)) 0) as [Hle | Hgt].
    + constructor; [constructor; assumption|].
      rewrite Forall_forall in *. intros z Hz.
      assert (Hcz : compareFn (snd x) (snd z) <= 0).
      { destruct Hz as [<- | Hz]; [assumption|].
        apply (Htrans (snd x) (snd y) (snd z)); try assumption.
        - apply Hdom; now left.
        - apply Hdom; now right.
        - destruct (Fy z Hz) as [? | [? _]]; lia. }
      destruct (Hdom z Hz) as [_ Hlt].
      unfold before. lia.
    + constructor.
      * apply IH; [|assumption].
        intros z Hz; apply Hdom; now right.
      * rewrite Forall_forall in *. intros z Hz.
        apply (Permutation_in _ (insertSorted_perm _ x s)) in Hz.
        destruct Hz as [<- | Hz]; [|now apply Fy].
        left. apply Hanti. lia.
Qed.

Lemma sort_indexed_sorted (dom : list A) (k : nat) (l : list A) :
  SignAntisymmetric compareFn ->
  TransitiveOn compareFn dom ->
  incl l dom ->
  StronglySorted (before compareFn)
                 (Js.sort (compareIndexed compareFn) (indexedFrom k l)).
Proof.
  intros Hanti Htrans.
  revert k; induction l as [|x l IH]; intros k Hincl; simpl.
  - constructor.
  - apply (insertSorted_sorted dom); try assumption.
    + apply Hincl; now left.
    + intros y Hy.
      apply (Permutation_in _ (sort_perm _ _)) in Hy.
      apply indexedFrom_In in Hy as [Hk Hin]. simpl.
      split; [apply Hincl; now right | lia].
    + apply IH. intros z Hz; apply Hincl; now right.
Qed.

(** For a comparator that is consistent on the elements of the list,
    the model of [Array.prototype.sort] returns the stable arrangement. *)
Lemma sort_is_stable_arrangement (l : list A) :
  SignAntisymmetric compareFn ->
  TransitiveOn compareFn l ->
  StableArrangement compareFn l (Js.sort compareFn l).
Proof.
  intros Hanti Htrans.
  exists (Js.sort (compareIndexed compareFn) (indexed l)).
  split; [apply sort_perm|].
  split.
  - apply (sort_indexed_sorted l); try assumption. apply incl_refl.
  - unfold indexed. now rewrite sort_map_snd, indexedFrom_snd.
Qed.

End SortTheory.

(** The second stable sort returns the stable arrangement too. *)
Section LeftToRight.
Import StableSort.



Context {A : Type}.
Variable compareFn : A -> A -> Z.








End LeftToRight.

(* ================================================================== *)
(** * The priority reflow *)
(* ================================================================== *)

Section ReflowTheory.
Import Utils Route ReflowSpec StableSort.

Lemma compareRecords_le (a b : ReflowRecord) :
  compareRecords a b <= 0 <->
  priorityLevel a < priorityLevel b
  \/ (priorityLevel a = priorityLevel b /\ rolePriority b <= rolePriority a).
Proof.
  unfold compareRecords.
  destruct (Z.eqb_spec (priorityLevel a) (priorityLevel b)); simpl; lia.
Qed.






Lemma StronglySorted_impl {B : Type} (R1 R2 : B -> B -> Prop) (l : list B) :
  (forall x y, R1 x y -> R2 x y) ->
  StronglySorted R1 l -> StronglySorted R2 l.
Proof.
  intros HR; induction 1 as [|x l Hs IH Hf]; constructor; [assumption|].
  eapply Forall_impl; [|exact Hf]. intros y; apply HR.
Qed.

(** *** The loop *)

Lemma reflowStep_cursor (st : ReflowState) (r : ReflowRecord) :
  cursor (reflowStep st r) = cursor st + windowWidth.
Proof.
  unfold reflowStep, Js.addMinutes, SLOT_INTERVAL_MINUTES, Js.msPerMinute,
    windowWidth.
  destruct (rec_id r); [|reflexivity].
  destruct (match rec_scheduledAt r with
            | Some t => negb (t =? cursor st) | None => true end);
    reflexivity.
Qed.

Lemma reflowStep_adjustments (st : ReflowState) (r : ReflowRecord) :
  adjustments (reflowStep st r)
  = adjustments st ++ adjustmentFor (r, cursor st).
Proof.
  unfold reflowStep, adjustmentFor, moved; simpl.
  destruct (rec_id r); simpl; [|now rewrite app_nil_r].
  destruct (match rec_scheduledAt r with
            | Some t => negb (t =? cursor st) | None => true end);
    simpl; [reflexivity | now rewrite app_nil_r].
Qed.

Lemma reflowStep_assigned (st : ReflowState) (r : ReflowRecord) :
  assignedNewAnnouncementTime (reflowStep st r)
  = match rec_id r with
    | None => cursor st
    | Some _ => assignedNewAnnouncementTime st
    end.
Proof.
  unfold reflowStep.
  destruct (rec_id r); [|reflexivity].
  destruct (match rec_scheduledAt r with
            | Some t => negb (t =? cursor st) | None => true end);
    reflexivity.
Qed.

Lemma fold_reflow_cursor (l : list ReflowRecord) (st : ReflowState) :
  cursor (fold_left reflowStep l st) = windowOf (cursor st) (List.length l).
Proof.
  unfold windowOf, windowWidth.
  revert st; induction l as [|r l IH]; intros st.
  - simpl. lia.
  - cbn [fold_left List.length]. rewrite IH, reflowStep_cursor.
    unfold windowWidth. lia.
Qed.

Lemma fold_reflow_adjustments (l : list ReflowRecord) (st : ReflowState) :
  adjustments (fold_left reflowStep l st)
  = adjustments st ++ flat_map adjustmentFor (assignedWindows st l).
Proof.
  revert st; induction l as [|r l IH]; intros st.
  - simpl. now rewrite app_nil_r.
  - cbn [fold_left assignedWindows flat_map].
    now rewrite IH, reflowStep_adjustments, app_assoc.
Qed.

Lemma fold_reflow_assigned_existing (l : list ReflowRecord) (st : ReflowState) :
  Forall (fun r => rec_id r <> None) l ->
  assignedNewAnnouncementTime (fold_left reflowStep l st)
  = assignedNewAnnouncementTime st.
Proof.
  intros Hl; revert st; induction Hl as [|r l Hr Hl IH]; intros st.
  - reflexivity.
  - cbn [fold_left]. rewrite IH, reflowStep_assigned.
    destruct (rec_id r); [reflexivity | contradiction].
Qed.

Lemma assignedWindows_fst (l : list ReflowRecord) (st : ReflowState) :
  map fst (assignedWindows st l) = l.
Proof.
  revert st; induction l as [|r l IH]; intros st; simpl; [reflexivity|].
  now rewrite IH.
Qed.

Lemma assignedWindows_snd (l : list ReflowRecord) (st : ReflowState) :
  map snd (assignedWindows st l)
  = map (windowOf (cursor st)) (seq 0 (List.length l)).
Proof.
  revert st; induction l as [|r l IH]; intros st.
  - reflexivity.
  - cbn [assignedWindows map List.length seq].
    rewrite IH, reflowStep_cursor, <- seq_shift, map_map.
    f_equal.
    + unfold windowOf, windowWidth. simpl. lia.
    + apply map_ext. intros k. unfold windowOf, windowWidth. lia.
Qed.

Lemma assignedWindows_app (l1 l2 : list ReflowRecord) (st : ReflowState) :
  assignedWindows st (l1 ++ l2)
  = assignedWindows st l1 ++ assignedWindows (fold_left reflowStep l1 st) l2.
Proof.
  revert st; induction l1 as [|r l1 IH]; intros st; simpl; [reflexivity|].
  now rewrite IH.
Qed.

Lemma windows_increasing (start : Z) (k n : nat) :
  StronglySorted Z.lt (map (windowOf start) (seq k n)).
Proof.
  revert k; induction n as [|n IH]; intros k; simpl; constructor.
  - apply IH.
  - rewrite Forall_forall. intros w Hw.
    apply in_map_iff in Hw as (j & <- & Hj).
    apply in_seq in Hj. unfold windowOf, windowWidth. lia.
Qed.

Lemma StronglySorted_lt_NoDup (l : list Z) :
  StronglySorted Z.lt l -> NoDup l.
Proof.
  induction 1 as [|x l Hs IH Hf]; constructor; [|assumption].
  intros Hin. rewrite Forall_forall in Hf. specialize (Hf _ Hin). lia.
Qed.

Lemma NoDup_snd_functional {B : Type} (l : list (B * Z)) (a b : B) (w : Z) :
  NoDup (map snd l) -> In (a, w) l -> In (b, w) l -> a = b.
Proof.
  induction l as [|[c v] l IH]; simpl; [tauto|].
  intros Hnd Ha Hb. inversion Hnd as [|? ? Hnotin Hnd']; subst.
  destruct Ha as [Ha | Ha], Hb as [Hb | Hb].
  - congruence.
  - inversion Ha; subst. exfalso. apply Hnotin.
    change w with (snd (b, w)). now apply in_map.
  - inversion Hb; subst. exfalso. apply Hnotin.
    change w with (snd (a, w)). now apply in_map.
  - now apply IH.
Qed.

End ReflowTheory.

Section ReflowCall.
Import Utils Route ReflowSpec StableSort.
Variable normalizeUserRole : option string -> option bool -> UserRole.

Lemma setSeconds00_aligned (t : Z) :
  Js.setSeconds00 t mod Js.msPerMinute = 0.
Proof.
  unfold Js.setSeconds00, Js.msPerMinute.
  rewrite Zminus_mod_idemp_r, Z.sub_diag. reflexivity.
Qed.

Lemma setSeconds00_idem (t : Z) :
  Js.setSeconds00 (Js.setSeconds00 t) = Js.setSeconds00 t.
Proof.
  unfold Js.setSeconds00 at 1. rewrite setSeconds00_aligned. lia.
Qed.

Lemma setSeconds00_bounds (t : Z) :
  Js.setSeconds00 t <= t < Js.setSeconds00 t + Js.msPerMinute.
Proof.
  unfold Js.setSeconds00, Js.msPerMinute.
  pose proof (Z.mod_pos_bound t 60000). lia.
Qed.

Lemma initialState_cursor (t : Z) :
  cursor (initialState (Js.setSeconds00 t)) = Js.setSeconds00 t.
Proof. unfold initialState; simpl. apply setSeconds00_idem. Qed.

Lemma conflictRecord_existing (cs : list DetailedConflictRecord) :
  Forall (fun r => rec_id r <> None) (map (conflictRecord normalizeUserRole) cs).
Proof.
  rewrite Forall_forall. intros r Hr.
  apply in_map_iff in Hr as (c & <- & _). discriminate.
Qed.

Lemma combinedList_eq (s : Store) (d p : Z) (role : UserRole) :
  combinedList normalizeUserRole s d p role
  = map (conflictRecord normalizeUserRole) (conflictSet s d)
    ++ [newRecord (Js.setSeconds00 d) p role].
Proof. reflexivity. Qed.

(** What the call returns when the window has conflicts. *)
Lemma reflow_run (s : Store) (d p : Z) (role : UserRole) :
  conflictSet s d <> [] ->
  let start := Js.setSeconds00 d in
  let final :=
    fold_left reflowStep
      (Js.sort compareRecords (combinedList normalizeUserRole s d p role))
      (initialState start) in
  reflowSchedulesForSuperAdmin normalizeUserRole d p role s
  = (Returned
       {| reflow_scheduledAt := assignedNewAnnouncementTime final;
          reflow_autoAdjusted :=
            negb (assignedNewAnnouncementTime final =? start)
            || (0 <? List.length (adjustments final))%nat;
          reflow_adjustments := adjustments final |}, s).
Proof.
  intros Hne start final.
  unfold reflowSchedulesForSuperAdmin, bind, fetchConflictsForRange, ret.
  fold start. unfold conflictSet in Hne. fold start in Hne.
  destruct (queryConflicts s start (Js.addMinutes start SLOT_INTERVAL_MINUTES))
    as [|c cs] eqn:Hq; [contradiction|].
  cbn [List.length Nat.eqb].
  subst final. unfold combinedList, conflictSet. fold start. rewrite Hq.
  reflexivity.
Qed.

(** The sorted combined list is the new record somewhere among the
    records of the conflicts. *)
Lemma sorted_split (s : Store) (d p : Z) (role : UserRole) :
  exists l1 l2,
    Js.sort compareRecords (combinedList normalizeUserRole s d p role)
    = l1 ++ newRecord (Js.setSeconds00 d) p role :: l2
    /\ Forall (fun r => rec_id r <> None) (l1 ++ l2).
Proof.
  set (new := newRecord (Js.setSeconds00 d) p role).
  set (sorted := Js.sort compareRecords _).
  assert (Hp : Permutation sorted
                 (map (conflictRecord normalizeUserRole) (conflictSet s d)
                  ++ [new]))
    by (subst sorted new; rewrite <- combinedList_eq; apply sort_perm).
  assert (Hin : In new sorted).
  { eapply Permutation_in; [apply Permutation_sym; exact Hp|].
    apply in_or_app; right; now left. }
  apply in_split in Hin as (l1 & l2 & Heq).
  exists l1, l2. split; [exact Heq|].
  rewrite Heq in Hp.
  apply Permutation_sym in Hp.
  rewrite <- (app_nil_r (map _ _ ++ [new])), <- app_assoc in Hp.
  apply Permutation_app_inv in Hp. rewrite app_nil_r in Hp.
  eapply Permutation_Forall; [exact Hp|].
  apply conflictRecord_existing.
Qed.

Lemma fold_reflow_new (l1 l2 : list ReflowRecord) (new : ReflowRecord)
    (st : ReflowState) :
  rec_id new = None ->
  Forall (fun r => rec_id r <> None) (l1 ++ l2) ->
  assignedNewAnnouncementTime (fold_left reflowStep (l1 ++ new :: l2) st)
  = windowOf (cursor st) (List.length l1)
  /\ In (new, windowOf (cursor st) (List.length l1))
        (assignedWindows st (l1 ++ new :: l2))
  /\ forall r w, In (r, w) (assignedWindows st (l1 ++ new :: l2)) ->
                 rec_id r = None ->
                 w = windowOf (cursor st) (List.length l1).
Proof.
  intros Hnew Hall. apply Forall_app in Hall as [H1 H2].
  split; [|split].
  - rewrite fold_left_app. cbn [fold_left].
    rewrite fold_reflow_assigned_existing by assumption.
    rewrite reflowStep_assigned, Hnew. apply fold_reflow_cursor.
  - rewrite assignedWindows_app. apply in_or_app; right.
    cbn [assignedWindows]. left. now rewrite fold_reflow_cursor.
  - intros r w Hin Hr.
    rewrite assignedWindows_app in Hin. cbn [assignedWindows] in Hin.
    apply in_app_or in Hin as [Hin | [Hin | Hin]].
    + exfalso. rewrite Forall_forall in H1. apply (H1 r); [|exact Hr].
      rewrite <- (assignedWindows_fst l1 st).
      change r with (fst (r, w)). now apply in_map.
    + inversion Hin. now rewrite fold_reflow_cursor.
    + exfalso. rewrite Forall_forall in H2. apply (H2 r); [|exact Hr].
      rewrite <- (assignedWindows_fst l2
                    (reflowStep (fold_left reflowStep l1 st) new)).
      change r with (fst (r, w)). now apply in_map.
Qed.

Lemma reflowPlan_windows (s : Store) (d p : Z) (role : UserRole) :
  map snd (reflowPlan normalizeUserRole s d p role)
  = map (windowOf (Js.setSeconds00 d))
        (seq 0 (S (List.length (conflictSet s d)))).
Proof.
  unfold reflowPlan.
  rewrite assignedWindows_snd, initialState_cursor, sort_length.
  rewrite combinedList_eq, length_app, length_map. simpl.
  now rewrite Nat.add_1_r.
Qed.

Lemma reflowPlan_nth (s : Store) (d p : Z) (role : UserRole)
    (i : nat) (r : ReflowRecord) (w : Z) :
  nth_error (reflowPlan normalizeUserRole s d p role) i = Some (r, w) ->
  w = windowOf (Js.setSeconds00 d) i.
Proof.
  intros Hi.
  assert (Hw : nth_error (map snd (reflowPlan normalizeUserRole s d p role)) i
               = Some w)
    by (rewrite nth_error_map, Hi; reflexivity).
  rewrite reflowPlan_windows, nth_error_map in Hw.
  destruct (nth_error (seq 0 _) i) as [k|] eqn:Hk; [|discriminate].
  assert (Hlt : (i < List.length (seq 0 (S (List.length (conflictSet s d)))))%nat)
    by (apply nth_error_Some; congruence).
  rewrite length_seq in Hlt.
  rewrite (nth_error_nth' _ 0%nat) in Hk by (now rewrite length_seq).
  rewrite seq_nth in Hk by assumption.
  simpl in Hk, Hw. congruence.
Qed.

Lemma reflowPlan_NoDup (s : Store) (d p : Z) (role : UserRole) :
  NoDup (map snd (reflowPlan normalizeUserRole s d p role)).
Proof.
  rewrite reflowPlan_windows.
  apply StronglySorted_lt_NoDup, windows_increasing.
Qed.

End ReflowCall.

Section ReflowProperties.
Import Utils Route ReflowSpec StableSort Scenarios.
Variable normalizeUserRole : option string -> option bool -> UserRole.


(** C4.  In a privileged reflow whose window has conflicts, an adjustment
    (itemId, newTime) is emitted for an existing item exactly when the
    window it is given differs from its stored scheduled time; the window
    given to the new item is the returned scheduled time; and
    autoAdjusted is true exactly when that window is not the requested
    one or some adjustment was produced.  With one existing item X at
    10:00 (priority 3, role rank 4) and a super-admin submission for
    10:00 with priority 0, the new item gets 10:00, X is adjusted to
    10:05, that is the only adjustment, and autoAdjusted is true. *)
Theorem reflow_adjustments_and_flag
    (s : Store) (desiredDate newAnnouncementPriority : Z) (userRole : UserRole) :
  conflictSet s desiredDate <> [] ->
  let start := Js.setSeconds00 desiredDate in
  let plan :=
    reflowPlan normalizeUserRole s desiredDate newAnnouncementPriority userRole in
  exists res,
    reflowSchedulesForSuperAdmin normalizeUserRole desiredDate
      newAnnouncementPriority userRole s = (Returned res, s)
    /\ (forall r w i,
          In (r, w) plan -> rec_id r = Some i ->
          (In {| adj_id := i; newTime := w |} (reflow_adjustments res)
           <-> rec_scheduledAt r <> Some w))
    /\ (forall adj, In adj (reflow_adjustments res) ->
          exists r, In (r, newTime adj) plan /\ rec_id r = Some (adj_id adj))
    /\ (forall r w, In (r, w) plan -> rec_id r = None ->
          r = newRecord start newAnnouncementPriority userRole
          /\ reflow_scheduledAt res = w)
    /\ In (newRecord start newAnnouncementPriority userRole,
           reflow_scheduledAt res) plan
    /\ (reflow_autoAdjusted res = true
        <-> reflow_scheduledAt res <> start \/ reflow_adjustments res <> [])
    /\ map (conflictRecord Utils.normalizeUserRole)
           (conflictSet storeB tenOClock)
       = [ {| rec_id := Some 7;
              priorityLevel := 3;
              rolePriority := 4;
              rec_scheduledAt := Some tenOClock |} ]
    /\ reflowSchedulesForSuperAdmin Utils.normalizeUserRole tenOClock 0
         super_admin storeB
       = (Returned
            {| reflow_scheduledAt := tenOClock;
               reflow_autoAdjusted := true;
               reflow_adjustments :=
                 [ {| adj_id := 7; newTime := clock 10 5 0 |} ] |},
          storeB).
Proof.
  intros Hne start plan.
  pose proof (reflow_run normalizeUserRole s desiredDate
                newAnnouncementPriority userRole Hne) as Hrun.
  cbv zeta in Hrun. eexists. split; [exact Hrun|].
  cbn [reflow_scheduledAt reflow_adjustments reflow_autoAdjusted].
  pose proof (reflowPlan_NoDup normalizeUserRole s desiredDate
                newAnnouncementPriority userRole) as Hnd.
  destruct (sorted_split normalizeUserRole s desiredDate
              newAnnouncementPriority userRole) as (l1 & l2 & Heq & Hall).
  destruct (fold_reflow_new l1 l2
              (newRecord (Js.setSeconds00 desiredDate)
                 newAnnouncementPriority userRole)
              (initialState (Js.setSeconds00 desiredDate))
              eq_refl Hall) as (Ha & Hin & Huniq).
  rewrite <- Heq in Ha, Hin, Huniq.
  fold (reflowPlan normalizeUserRole s desiredDate
          newAnnouncementPriority userRole) in Hin, Huniq.
  fold plan in Hin, Huniq, Hnd. subst start.
  assert (Hadj : forall adj,
             In adj (adjustments
                       (fold_left reflowStep
                          (Js.sort compareRecords
                             (combinedList normalizeUserRole s desiredDate
                                newAnnouncementPriority userRole))
                          (initialState (Js.setSeconds00 desiredDate))))
             <-> exists e, In e plan /\ In adj (adjustmentFor e)).
  { intros adj. rewrite fold_reflow_adjustments. simpl.
    apply in_flat_map. }
  split; [|split; [|split; [|split; [|split; [|split]]]]];
    [| | | | | reflexivity | reflexivity].
  - intros r w i Hrw Hr. rewrite Hadj. split.
    + intros ([r' w'] & Hin' & Hadj').
      unfold adjustmentFor in Hadj'. cbn [fst snd] in Hadj'.
      destruct (rec_id r') as [i'|]; [|contradiction].
      destruct (moved r' w') eqn:Hm; [|contradiction].
      destruct Hadj' as [Hadj' | []]. inversion Hadj'; subst i' w'.
      assert (r' = r) by (eapply NoDup_snd_functional; eassumption).
      subst r'. unfold moved in Hm.
      destruct (rec_scheduledAt r) as [t|]; [|discriminate].
      apply negb_true_iff, Z.eqb_neq in Hm. congruence.
    + intros Hmoved. exists (r, w). split; [assumption|].
      unfold adjustmentFor. cbn [fst snd]. rewrite Hr.
      replace (moved r w) with true; [now left|].
      unfold moved. destruct (rec_scheduledAt r) as [t|]; [|reflexivity].
      symmetry. apply negb_true_iff, Z.eqb_neq. congruence.
  - intros adj Hin'. apply Hadj in Hin' as ([r w] & Hrw & Hin').
    unfold adjustmentFor in Hin'. cbn [fst snd] in Hin'.
    destruct (rec_id r) as [i|] eqn:Hr; [|contradiction].
    destruct (moved r w); [|contradiction].
    destruct Hin' as [<- | []]. exists r. now split.
  - intros r w Hrw Hr.
    pose proof (Huniq r w Hrw Hr) as Hw. subst w.
    split; [|rewrite Ha, initialState_cursor; reflexivity].
    rewrite initialState_cursor in Hrw, Hin.
    eapply NoDup_snd_functional; eassumption.
  - rewrite Ha. exact Hin.
  - rewrite orb_true_iff, negb_true_iff, Z.eqb_neq, Nat.ltb_lt.
    destruct (adjustments _); simpl.
    + split; intros [H | H]; try (now left); try lia; congruence.
    + split; intros _; right; [discriminate | lia].
Qed.

End ReflowProperties.

Section ReflowWitnesses.
Import Utils Route ReflowSpec StableSort Scenarios.


Lemma storeB_has_conflicts : conflictSet storeB tenOClock <> [].
Proof. vm_compute. discriminate. Defined.


Lemma reflow_adjustments_and_flag_witness :
  conflictSet storeB tenOClock <> []
  /\ exists res,
       reflowSchedulesForSuperAdmin Utils.normalizeUserRole tenOClock 0
         super_admin storeB = (Returned res, storeB)
       /\ (reflow_autoAdjusted res = true
           <-> reflow_scheduledAt res <> Js.setSeconds00 tenOClock
               \/ reflow_adjustments res <> []).
Proof.
  split; [exact storeB_has_conflicts|].
  destruct (reflow_adjustments_and_flag Utils.normalizeUserRole
              storeB tenOClock 0 super_admin storeB_has_conflicts)
    as (res & Hrun & _ & _ & _ & _ & Hflag & _).
  exists res. split; [exact Hrun | exact Hflag].
Defined.

End ReflowWitnesses.

(* ================================================================== *)
(** * The slot finder *)
(* ================================================================== *)

Section SlotFinder.
Import Utils Route Window.

Lemma windowOf_next (c : Z) (k : nat) :
  windowOf (Js.addMinutes c SLOT_INTERVAL_MINUTES) k = windowOf c (S k).
Proof.
  unfold windowOf, windowWidth, Js.addMinutes, SLOT_INTERVAL_MINUTES,
    Js.msPerMinute. lia.
Qed.

Lemma windowOf_0 (c : Z) : windowOf c 0 = c.
Proof. unfold windowOf. simpl. lia. Qed.

(** The loop reads the store and leaves it as it is; it returns the
    first free window among the [n] it may probe, if there is one. *)
Lemma slotSearch_spec (n : nat) (nd c : Z) (s : Store) :
  exists found,
    slotSearch n nd c s = (Returned found, s)
    /\ match found with
       | Some res =>
           exists k, (k < n)%nat
             /\ (forall j, (j < k)%nat -> occupiedWindow s (windowOf c j) = true)
             /\ occupiedWindow s (windowOf c k) = false
             /\ scheduledAt res = windowOf c k
             /\ autoAdjusted res = negb (windowOf c k =? nd)
       | None =>
           forall j, (j < n)%nat -> occupiedWindow s (windowOf c j) = true
       end.
Proof.
  revert c; induction n as [|n IH]; intros c.
  - exists None. split; [reflexivity|]. intros j Hj; lia.
  - cbn [slotSearch]. unfold bind, fetchConflictsForRange.
    destruct (List.length
                (queryConflicts s c (Js.addMinutes c SLOT_INTERVAL_MINUTES))
              =? 0)%nat eqn:Hfree.
    + eexists. split; [reflexivity|]. exists 0%nat.
      rewrite windowOf_0. unfold occupiedWindow. rewrite Hfree.
      repeat split; try reflexivity; try lia.
    + destruct (IH (Js.addMinutes c SLOT_INTERVAL_MINUTES))
        as (found & Hrun & Hfound).
      exists found. split; [exact Hrun|].
      assert (Hc : occupiedWindow s (windowOf c 0) = true)
        by (rewrite windowOf_0; unfold occupiedWindow; now rewrite Hfree).
      destruct found as [res|].
      * destruct Hfound as (k & Hk & Hocc & Hfr & Hat & Hadj).
        exists (S k). rewrite <- !windowOf_next.
        repeat split; try assumption; try lia.
        intros [|j] Hj; [exact Hc|].
        rewrite <- windowOf_next. apply Hocc. lia.
      * intros [|j] Hj; [exact Hc|].
        rewrite <- windowOf_next. apply Hfound. lia.
Qed.

(** The call either returns the first free window of the
    [maxIterations] windows from the truncated time, or throws because
    all of them are occupied; the store is the same afterwards. *)
Lemma findNext_spec (d : Z) (s : Store) :
  let nd := Js.setSeconds00 d in
  (exists res k,
      findNextAvailableScheduleSlot d s = (Returned res, s)
      /\ (k < maxIterations)%nat
      /\ (forall j, (j < k)%nat -> occupiedWindow s (windowOf nd j) = true)
      /\ occupiedWindow s (windowOf nd k) = false
      /\ scheduledAt res = windowOf nd k
      /\ autoAdjusted res = negb (windowOf nd k =? nd))
  \/ (findNextAvailableScheduleSlot d s
      = (Thrown (BadRequestError exhaustedMessage), s)
      /\ forall j, (j < maxIterations)%nat ->
           occupiedWindow s (windowOf nd j) = true).
Proof.
  intros nd. unfold findNextAvailableScheduleSlot. fold nd.
  destruct (slotSearch_spec maxIterations nd nd s) as (found & Hrun & Hfound).
  unfold bind. rewrite Hrun.
  destruct found as [res|].
  - left. destruct Hfound as (k & Hfound). exists res, k.
    split; [reflexivity | exact Hfound].
  - right. split; [reflexivity | exact Hfound].
Qed.

Lemma findNext_frame (d : Z) (s : Store) :
  snd (findNextAvailableScheduleSlot d s) = s.
Proof.
  destruct (findNext_spec d s) as [(res & k & -> & _) | [-> _]]; reflexivity.
Qed.

(** The call fails exactly when all [maxIterations] = 180 windows are
    occupied. *)
Lemma findNext_throws_iff (d : Z) (s : Store) :
  (exists e, fst (findNextAvailableScheduleSlot d s) = Thrown e)
  <-> forall j, (j < maxIterations)%nat ->
        occupiedWindow s (windowOf (Js.setSeconds00 d) j) = true.
Proof.
  destruct (findNext_spec d s)
    as [(res & k & Hrun & Hk & _ & Hfree & _) | [Hrun Hall]];
    rewrite Hrun; simpl.
  - split.
    + intros [e He]; discriminate.
    + intros Hall. rewrite (Hall k Hk) in Hfree. discriminate.
  - split; [intros _; exact Hall | intros _; eexists; reflexivity].
Qed.

End SlotFinder.

Section SlotFinderProperties.
Import Utils Route Window Scenarios.

(** C2.  The loop bound of the code is 180 windows of five minutes, not
    the 36 windows (three hours) its comment and its error message
    announce.  With the 36 windows from 10:00 to 13:00 all occupied the
    call does not fail: it probes a 37th window and returns 13:00,
    autoAdjusted.  It throws the BadRequestError only when 180 windows in
    a row, fifteen hours, are occupied. *)
Theorem slot_finder_searches_180_windows :
  forallb (fun k => occupiedWindow storeThreeHoursFull (windowOf tenOClock k))
          (seq 0 36) = true
  /\ findNextAvailableScheduleSlot tenOClock storeThreeHoursFull
     = (Returned {| scheduledAt := clock 13 0 0; autoAdjusted := true |},
        storeThreeHoursFull)
  /\ findNextAvailableScheduleSlot (clock 8 0 0) storeFifteenHoursFull
     = (Thrown (BadRequestError exhaustedMessage), storeFifteenHoursFull)
  /\ maxIterations = 180%nat.
Proof.
  repeat split; vm_compute; reflexivity.
Qed.

(** C3, as stated, fails: requested 10:02:30 with nothing scheduled, the
    call assigns 10:02:00, which is not the raw requested time, and
    reports autoAdjusted = false. *)
Lemma autoAdjusted_raw_time_counterexample :
  findNextAvailableScheduleSlot (clock 10 2 30) emptyStore
  = (Returned {| scheduledAt := clock 10 2 0; autoAdjusted := false |},
     emptyStore)
  /\ clock 10 2 0 <> clock 10 2 30
  /\ ~ (forall (s : Store) (d : Z) (res : ScheduleResolutionResult),
          fst (findNextAvailableScheduleSlot d s) = Returned res ->
          (autoAdjusted res = true <-> scheduledAt res <> d)).
Proof.
  assert (Hne : clock 10 2 0 <> clock 10 2 30) by (vm_compute; discriminate).
  split; [vm_compute; reflexivity|]. split; [exact Hne|].
  intros H.
  destruct (H emptyStore (clock 10 2 30)
              {| scheduledAt := clock 10 2 0; autoAdjusted := false |}
              eq_refl) as [_ H'].
  specialize (H' Hne). discriminate H'.
Qed.

(** C3, amended.  When the slot finder succeeds, autoAdjusted is true
    exactly when the assigned window start differs from the
    minute-truncated desiredTime.  With no conflict in the window of the
    truncated desiredTime it returns exactly that time with
    autoAdjusted = false. *)
Theorem autoAdjusted_iff_moved_from_truncated (s : Store) (desiredDate : Z) :
  (forall res,
      fst (findNextAvailableScheduleSlot desiredDate s) = Returned res ->
      (autoAdjusted res = true
       <-> scheduledAt res <> Js.setSeconds00 desiredDate))
  /\ (occupiedWindow s (Js.setSeconds00 desiredDate) = false ->
      findNextAvailableScheduleSlot desiredDate s
      = (Returned {| scheduledAt := Js.setSeconds00 desiredDate;
                     autoAdjusted := false |}, s)).
Proof.
  destruct (findNext_spec desiredDate s)
    as [(res & k & Hrun & Hk & Hocc & Hfree & Hat & Hadj) | [Hrun Hall]].
  - split.
    + intros res' Hres. rewrite Hrun in Hres. simpl in Hres.
      inversion Hres; subst res'.
      rewrite Hadj, Hat, negb_true_iff, Z.eqb_neq. reflexivity.
    + intros Hfree0. rewrite Hrun. f_equal.
      destruct k as [|k].
      * rewrite windowOf_0 in Hat, Hadj. rewrite Z.eqb_refl in Hadj.
        destruct res; simpl in *; congruence.
      * specialize (Hocc 0%nat (Nat.lt_0_succ k)).
        rewrite windowOf_0 in Hocc. congruence.
  - split.
    + intros res' Hres. rewrite Hrun in Hres. discriminate.
    + intros Hfree0.
      assert (H0 : (0 < maxIterations)%nat) by (unfold maxIterations; lia).
      specialize (Hall 0%nat H0). rewrite windowOf_0 in Hall. congruence.
Qed.

Lemma autoAdjusted_iff_moved_from_truncated_witness :
  let res := {| scheduledAt := clock 10 2 0; autoAdjusted := false |} in
  fst (findNextAvailableScheduleSlot (clock 10 2 30) emptyStore) = Returned res
  /\ occupiedWindow emptyStore (Js.setSeconds00 (clock 10 2 30)) = false
  /\ (autoAdjusted res = true
      <-> scheduledAt res <> Js.setSeconds00 (clock 10 2 30))
  /\ findNextAvailableScheduleSlot (clock 10 2 30) emptyStore
     = (Returned {| scheduledAt := Js.setSeconds00 (clock 10 2 30);
                    autoAdjusted := false |}, emptyStore).
Proof.
  intros res.
  destruct (autoAdjusted_iff_moved_from_truncated emptyStore (clock 10 2 30))
    as [H1 H2].
  split; [reflexivity|]. split; [reflexivity|].
  split; [apply (H1 res); reflexivity | apply H2; reflexivity].
Defined.

End SlotFinderProperties.

Section SlotFinderFrameCounterexample.
Import Utils Route Window Scenarios.

(** C5, as stated, fails: requested 10:02:30 with nothing scheduled, the
    assigned time 10:02:00 is earlier than the requested time. *)
Lemma slot_before_requested_counterexample :
  fst (findNextAvailableScheduleSlot (clock 10 2 30) emptyStore)
  = Returned {| scheduledAt := clock 10 2 0; autoAdjusted := false |}
  /\ clock 10 2 0 < clock 10 2 30
  /\ ~ (forall (s : Store) (d : Z) (res : ScheduleResolutionResult),
          fst (findNextAvailableScheduleSlot d s) = Returned res ->
          d <= scheduledAt res).
Proof.
  split; [vm_compute; reflexivity|]. split; [reflexivity|].
  intros H.
  specialize (H emptyStore (clock 10 2 30)
                {| scheduledAt := clock 10 2 0; autoAdjusted := false |}
                eq_refl).
  vm_compute in H. apply H. reflexivity.
Qed.

End SlotFinderFrameCounterexample.

Section SlotFinderFrame.
Import Utils Route Window Scenarios.
Variable normalizeUserRole : option string -> option bool -> UserRole.

(** C5, amended.  The slot finder leaves the store as it found it, and
    the non-privileged path of the handler has no adjustment to apply.
    The assigned time is never earlier than the minute-truncated
    desiredTime: it is that time plus a whole number of window widths.
    So it is less than a minute before the raw desiredTime, and not
    before it at all when the request is minute-aligned. *)
Theorem slot_finder_reads_only_and_moves_forward
    (s : Store) (desiredDate : Z) :
  snd (findNextAvailableScheduleSlot desiredDate s) = s
  /\ (forall p role,
        role <> super_admin ->
        snd (resolveSchedule normalizeUserRole (Some desiredDate) p role s) = s
        /\ forall r,
             fst (resolveSchedule normalizeUserRole (Some desiredDate) p role s)
             = Returned r ->
             pendingScheduleAdjustments r = [])
  /\ (forall res,
        fst (findNextAvailableScheduleSlot desiredDate s) = Returned res ->
        Js.setSeconds00 desiredDate <= scheduledAt res
        /\ (exists k, (k < maxIterations)%nat
              /\ scheduledAt res = windowOf (Js.setSeconds00 desiredDate) k)
        /\ desiredDate - Js.msPerMinute < scheduledAt res
        /\ (desiredDate mod Js.msPerMinute = 0 ->
            desiredDate <= scheduledAt res)).
Proof.
  split; [apply findNext_frame|]. split.
  - intros p role Hrole. unfold resolveSchedule.
    replace (UserRole_eqb role super_admin) with false
      by (destruct role; try reflexivity; contradiction).
    unfold bind.
    destruct (findNext_spec desiredDate s)
      as [(res & k & -> & _) | [-> _]]; simpl.
    + split; [reflexivity|]. intros r Hr. inversion Hr. reflexivity.
    + split; [reflexivity|]. intros r Hr. discriminate.
  - intros res Hres.
    destruct (findNext_spec desiredDate s)
      as [(res' & k & Hrun & Hk & _ & _ & Hat & _) | [Hrun _]];
      rewrite Hrun in Hres; simpl in Hres; [|discriminate].
    inversion Hres; subst res'.
    pose proof (setSeconds00_bounds desiredDate) as Hb.
    assert (Hge : Js.setSeconds00 desiredDate <= scheduledAt res)
      by (rewrite Hat; unfold windowOf, windowWidth; lia).
    split; [exact Hge|]. split; [now exists k|]. split; [lia|].
    intros Hal. unfold Js.setSeconds00 in Hge. lia.
Qed.

End SlotFinderFrame.

Section SlotFinderFrameWitness.
Import Utils Route Window Scenarios.

Lemma slot_finder_reads_only_and_moves_forward_witness :
  admin <> super_admin
  /\ fst (findNextAvailableScheduleSlot (clock 10 0 0) storeB)
     = Returned {| scheduledAt := clock 10 5 0; autoAdjusted := true |}
  /\ clock 10 0 0 mod Js.msPerMinute = 0
  /\ snd (resolveSchedule Utils.normalizeUserRole (Some (clock 10 0 0)) 3 admin storeB)
     = storeB
  /\ clock 10 0 0 <= clock 10 5 0.
Proof.
  destruct (slot_finder_reads_only_and_moves_forward Utils.normalizeUserRole
              storeB (clock 10 0 0))
    as (_ & H2 & H3).
  assert (Hrole : admin <> super_admin) by discriminate.
  split; [exact Hrole|]. split; [reflexivity|]. split; [reflexivity|].
  split.
  - exact (proj1 (H2 3 admin Hrole)).
  - exact (proj2 (proj2 (proj2
             (H3 {| scheduledAt := clock 10 5 0; autoAdjusted := true |}
                 eq_refl))) eq_refl).
Defined.

End SlotFinderFrameWitness.

(* ================================================================== *)
(** * The priority clamp *)
(* ================================================================== *)

Section PriorityClamp.
Import Route.

(** C9.  The priority level the scheduling core uses lies in [0,3]: a
    submitted value below 0 becomes 0, one above 3 becomes 3, one in
    [0,3] is kept, and an absent value ([undefined] or [null]) is 3. *)
Theorem validPriorityLevel_clamps :
  (forall v, 0 <= validPriorityLevel v <= 3)
  /\ (forall n, n < 0 -> validPriorityLevel (Js.Num n) = 0)
  /\ (forall n, 3 < n -> validPriorityLevel (Js.Num n) = 3)
  /\ (forall n, 0 <= n <= 3 -> validPriorityLevel (Js.Num n) = n)
  /\ validPriorityLevel Js.Undefined = 3
  /\ validPriorityLevel Js.Null = 3.
Proof.
  unfold validPriorityLevel.
  split; [intros [| |n]; simpl; lia|].
  split; [intros n Hn; simpl; lia|].
  split; [intros n Hn; simpl; lia|].
  split; [intros n Hn; simpl; lia|].
  split; reflexivity.
Qed.

Lemma validPriorityLevel_clamps_witness :
  (-2 < 0 /\ validPriorityLevel (Js.Num (-2)) = 0)
  /\ (3 < 7 /\ validPriorityLevel (Js.Num 7) = 3)
  /\ (0 <= 2 <= 3 /\ validPriorityLevel (Js.Num 2) = 2).
Proof.
  destruct validPriorityLevel_clamps as (_ & Hlow & Hhigh & Hin & _).
  split; [|split].
  - split; [lia | apply Hlow; lia].
  - split; [lia | apply Hhigh; lia].
  - split; [lia | apply Hin; lia].
Defined.

End PriorityClamp.

(* ================================================================== *)
(** * The visibility gate *)
(* ================================================================== *)

Section VisibilityGate.
Import Utils GateSpec Scenarios.

Lemma includes_In (l : list Z) (n : Z) :
  Js.includes l (Js.Num n) = true <-> In n l.
Proof.
  simpl. rewrite existsb_exists. split.
  - intros (x & Hx & Heq). apply Z.eqb_eq in Heq. now subst.
  - intros Hin. exists n. split; [assumption | apply Z.eqb_refl].
Qed.

Lemma toLowerCase_truthy (s : string) :
  Js.toLowerCase s = "scheduled"%string -> Js.truthyString s = true.
Proof. destruct s; [discriminate | reflexivity]. Qed.

(** What the gate answers to a viewer who is not admin-level. *)
Lemma gate_non_admin (now : Z) (a : Announcement) (role : UserRole)
    (isAdmin : option bool) (userId : option Z) (isSuperAdmin : option bool)
    (code : Js.OptNumber) :
  adminLevel role isSuperAdmin = false ->
  isVisibleToUser now a role isAdmin userId isSuperAdmin code = false
  <-> status a = "scheduled"%string
      \/ Js.toLowerCase (category a) = "scheduled"%string
      \/ (exists t, scheduled_at a = Some t /\ now < t)
      \/ (exists l, target_years a = Some l /\ l <> []
            /\ (Js.falsy code = true \/ Js.includes l code = false)).
Proof.
  unfold adminLevel, isVisibleToUser. intros Hna.
  apply orb_false_iff in Hna as [Hrole Hflag].
  apply negb_false_iff in Hflag. rewrite Hrole, Hflag. simpl.
  destruct (String.eqb_spec (status a) "scheduled") as [Hst | Hst];
    [tauto|].
  destruct (String.eqb_spec (Js.toLowerCase (category a)) "scheduled")
    as [Hcat | Hcat].
  { rewrite (toLowerCase_truthy _ Hcat). simpl. tauto. }
  rewrite andb_false_r.
  destruct (scheduled_at a) as [t|] eqn:Hsched.
  - destruct (Z.ltb_spec now t) as [Hlt | Hge].
    + split; [intros _|reflexivity]. right; right; left. now exists t.
    + destruct (target_years a) as [[|y l]|] eqn:Hty.
      * split; [discriminate|].
        intros [? | [? | [(t' & Heq & Hlt) | (l' & Heq & Hne & _)]]];
          try contradiction; [inversion Heq; lia | inversion Heq; congruence].
      * destruct (Js.falsy code || negb (Js.includes (y :: l) code)) eqn:Hc.
        -- split; [intros _|reflexivity]. right; right; right.
           exists (y :: l). split; [reflexivity|]. split; [discriminate|].
           apply orb_true_iff in Hc as [Hc | Hc]; [now left|].
           right. now apply negb_true_iff.
        -- split; [discriminate|].
           apply orb_false_iff in Hc as [Hf Hi].
           apply negb_false_iff in Hi.
           intros [? | [? | [(t' & Heq & Hlt) | (l' & Heq & Hne & Hc)]]];
             try contradiction; [inversion Heq; lia|].
           inversion Heq; subst l'. destruct Hc; congruence.
      * split; [discriminate|].
        intros [? | [? | [(t' & Heq & Hlt) | (l' & Heq & _)]]];
          try contradiction; [inversion Heq; lia | discriminate].
  - destruct (target_years a) as [[|y l]|] eqn:Hty.
    + split; [discriminate|].
      intros [? | [? | [(t' & Heq & Hlt) | (l' & Heq & Hne & _)]]];
        try contradiction; [discriminate | inversion Heq; congruence].
    + destruct (Js.falsy code || negb (Js.includes (y :: l) code)) eqn:Hc.
      * split; [intros _|reflexivity]. right; right; right.
        exists (y :: l). split; [reflexivity|]. split; [discriminate|].
        apply orb_true_iff in Hc as [Hc | Hc]; [now left|].
        right. now apply negb_true_iff.
      * split; [discriminate|].
        apply orb_false_iff in Hc as [Hf Hi].
        apply negb_false_iff in Hi.
        intros [? | [? | [(t' & Heq & Hlt) | (l' & Heq & Hne & Hc)]]];
          try contradiction; [discriminate|].
        inversion Heq; subst l'. destruct Hc; congruence.
    + split; [discriminate|].
      intros [? | [? | [(t' & Heq & Hlt) | (l' & Heq & _)]]];
        try contradiction; discriminate.
Qed.








(** C10.  The gate treats the intake code 0 as it treats no code: its
    answer for 0, [null] and [undefined] is the same on every item, and
    a viewer who is not admin-level is denied every item with a
    non-empty targetYears list under each of the three. *)
Theorem intake_code_zero_counts_as_none (now : Z) (a : Announcement)
    (role : UserRole) (isAdmin : option bool) (userId : option Z)
    (isSuperAdmin : option bool) :
  isVisibleToUser now a role isAdmin userId isSuperAdmin (Js.Num 0)
  = isVisibleToUser now a role isAdmin userId isSuperAdmin Js.Undefined
  /\ isVisibleToUser now a role isAdmin userId isSuperAdmin (Js.Num 0)
     = isVisibleToUser now a role isAdmin userId isSuperAdmin Js.Null
  /\ (adminLevel role isSuperAdmin = false ->
      forall l, target_years a = Some l -> l <> [] ->
      forall code, code = Js.Num 0 \/ code = Js.Null \/ code = Js.Undefined ->
      isVisibleToUser now a role isAdmin userId isSuperAdmin code = false).
Proof.
  split; [|split].
  - unfold isVisibleToUser.
    destruct (target_years a) as [[|y l]|]; reflexivity.
  - unfold isVisibleToUser.
    destruct (target_years a) as [[|y l]|]; reflexivity.
  - intros Hna l Hl Hne code Hcode.
    apply (gate_non_admin now a role isAdmin userId isSuperAdmin code Hna).
    right; right; right. exists l. split; [exact Hl|]. split; [exact Hne|].
    left. destruct Hcode as [-> | [-> | ->]]; reflexivity.
Qed.

End VisibilityGate.

Section VisibilityGateWitnesses.
Import Utils GateSpec Scenarios.


Lemma intake_code_zero_counts_as_none_witness :
  adminLevel student None = false
  /\ target_years targeted = Some [23; 25]
  /\ [23; 25] <> []
  /\ isVisibleToUser 0 targeted student None None None (Js.Num 0) = false.
Proof.
  assert (Hne : [23; 25] <> []) by discriminate.
  split; [reflexivity|]. split; [reflexivity|]. split; [exact Hne|].
  exact (proj2 (proj2 (intake_code_zero_counts_as_none 0 targeted student
                         None None None))
           eq_refl [23; 25] eq_refl Hne (Js.Num 0) (or_introl eq_refl)).
Defined.

End VisibilityGateWitnesses.

(* ================================================================== *)
(** * The presentation ordering *)
(* ================================================================== *)

Section PresentationOrdering.
Import Utils OrderSpec StableSort Scenarios.


Ltac comparator_cases :=
  unfold compareAnnouncements, SAME_TIME_THRESHOLD;
  repeat match goal with
    | |- context [is_emergency ?a] => destruct (is_emergency a); simpl
    end;
  repeat match goal with
    | |- context [Z.leb ?x ?y] => destruct (Z.leb_spec x y); simpl
    | |- context [Z.eqb ?x ?y] => destruct (Z.eqb_spec x y); simpl
    | |- context [hasPriority ?n ?a] => destruct (hasPriority n a); simpl
    end.

Lemma compareAnnouncements_antisymmetric (now : Z) :
  SignAntisymmetric (compareAnnouncements now).
Proof.
  intros a b. comparator_cases; lia.
Qed.





End PresentationOrdering.

Section PresentationProperties.
Import Utils OrderSpec StableSort Scenarios.





End PresentationProperties.

Section PresentationWitnesses.
Import Utils OrderSpec StableSort Scenarios.




End PresentationWitnesses.

(* ================================================================== *)
(** * More facts about the built-ins *)
(* ================================================================== *)

Section MoreSortFacts.
Context {A : Type}.
Variable compareFn : A -> A -> Z.

Lemma sort_In (l : list A) (x : A) : In x (Js.sort compareFn l) <-> In x l.
Proof.
  split; apply Permutation_in;
    [apply sort_perm | apply Permutation_sym, sort_perm].
Qed.

(** Whatever the comparator does inside the classes of an order it
    respects, the sorted array is in that order. *)
Lemma sort_sorted_by (R : A -> A -> Prop) :
  (forall x y z, R x y -> R y z -> R x z) ->
  (forall x y, compareFn x y <= 0 -> R x y) ->
  (forall x y, compareFn x y > 0 -> R y x) ->
  forall l, StronglySorted R (Js.sort compareFn l).
Proof.
  intros Htrans Hle Hgt.
  assert (Hins : forall x s, StronglySorted R s ->
                             StronglySorted R (Js.insertSorted compareFn x s)).
  { intros x s; induction 1 as [|y s Hs IH Hf]; simpl.
    - repeat constructor.
    - destruct (Z.leb_spec (compareFn x y) 0) as [H | H].
      + constructor; [now constructor|].
        constructor; [now apply Hle|].
        eapply Forall_impl; [|exact Hf].
        intros z Hz. eapply Htrans; [apply Hle; exact H | exact Hz].
      + constructor; [exact IH|].
        rewrite Forall_forall in *. intros z Hz.
        apply (Permutation_in _ (insertSorted_perm _ x s)) in Hz.
        destruct Hz as [<- | Hz]; [apply Hgt; lia | now apply Hf]. }
  induction l as [|x l IH]; simpl; [constructor | now apply Hins].
Qed.

(** An array already in comparator order is returned as it is. *)
Lemma sort_fixed (l : list A) :
  StronglySorted (fun x y => compareFn x y <= 0) l ->
  Js.sort compareFn l = l.
Proof.
  induction 1 as [|x l Hs IH Hf]; simpl; [reflexivity|].
  rewrite IH. destruct l as [|y l]; [reflexivity|]. simpl.
  inversion Hf as [|? ? Hxy _]; subst.
  destruct (Z.leb_spec (compareFn x y) 0); [reflexivity | lia].
Qed.

Lemma StronglySorted_app_right (R : A -> A -> Prop) (l1 l2 : list A) :
  StronglySorted R (l1 ++ l2) -> StronglySorted R l2.
Proof.
  induction l1 as [|x l1 IH]; simpl; [trivial|].
  intros H. apply StronglySorted_inv in H as [H _]. now apply IH.
Qed.

End MoreSortFacts.

Section SetFromFacts.
Import JsMore.
Context {A : Type}.
Variable eqb : A -> A -> bool.
Hypothesis eqb_eq : forall x y, eqb x y = true <-> x = y.

Lemma setFrom_In (l : list A) (y : A) : In y (setFrom eqb l) <-> In y l.
Proof.
  induction l as [|x l IH]; simpl; [tauto|].
  rewrite filter_In, IH, negb_true_iff.
  destruct (eqb y x) eqn:E.
  - apply eqb_eq in E. subst. intuition discriminate.
  - assert (x <> y) by (intros ->; rewrite (proj2 (eqb_eq y y) eq_refl) in E;
                        discriminate).
    intuition.
Qed.

Lemma setFrom_NoDup (l : list A) : NoDup (setFrom eqb l).
Proof.
  induction l as [|x l IH]; simpl; constructor.
  - rewrite filter_In, negb_true_iff.
    intros [_ E]. rewrite (proj2 (eqb_eq x x) eq_refl) in E. discriminate.
  - now apply NoDup_filter.
Qed.

Lemma setFrom_fixed (l : list A) : NoDup l -> setFrom eqb l = l.
Proof.
  induction 1 as [|x l Hx Hnd IH]; simpl; [reflexivity|].
  rewrite IH. f_equal.
  apply forallb_filter_id. apply forallb_forall.
  intros y Hy. apply negb_true_iff.
  destruct (eqb y x) eqn:E; [|reflexivity].
  apply eqb_eq in E. subst. contradiction.
Qed.

End SetFromFacts.

Section StringOrder.
Import JsMore.

Lemma ascii_compare_trans (a b c : ascii) :
  Ascii.compare a b <> Gt -> Ascii.compare b c <> Gt ->
  Ascii.compare a c <> Gt.
Proof.
  unfold Ascii.compare. rewrite !N.compare_gt_iff. lia.
Qed.

Lemma ascii_compare_eq (a b : ascii) : Ascii.compare a b = Eq <-> a = b.
Proof.
  split; [apply Ascii.compare_eq_iff|].
  intros ->. unfold Ascii.compare. apply N.compare_refl.
Qed.

Lemma string_compare_trans (s t u : string) :
  String.compare s t <> Gt -> String.compare t u <> Gt ->
  String.compare s u <> Gt.
Proof.
  revert t u; induction s as [|a s IH]; intros [|b t] [|c u]; simpl;
    try congruence.
  destruct (Ascii.compare a b) eqn:Hab; try congruence;
    destruct (Ascii.compare b c) eqn:Hbc; try congruence.
  - apply ascii_compare_eq in Hab, Hbc. subst.
    rewrite (proj2 (ascii_compare_eq c c) eq_refl). apply IH.
  - apply ascii_compare_eq in Hab. subst. now rewrite Hbc.
  - apply ascii_compare_eq in Hbc. subst. now rewrite Hab.
  - intros _ _.
    assert (H : Ascii.compare a c <> Gt)
      by (apply (ascii_compare_trans a b c); congruence).
    destruct (Ascii.compare a c) eqn:Hac; try congruence.
    apply ascii_compare_eq in Hac. subst.
    rewrite Ascii.compare_antisym, Hab in Hbc. discriminate.
Qed.

Lemma stringOrder_le (s t : string) :
  stringOrder s t <= 0 <-> String.compare s t <> Gt.
Proof.
  unfold stringOrder. destruct (String.compare s t); split; intros;
    try lia; congruence.
Qed.

Lemma stringOrder_gt (s t : string) :
  stringOrder s t > 0 -> String.compare t s <> Gt.
Proof.
  unfold stringOrder. rewrite (String.compare_antisym t s).
  destruct (String.compare s t); simpl; intros; try lia; congruence.
Qed.

End StringOrder.

(* ================================================================== *)
(** * The conflict query and the slot finder, further *)
(* ================================================================== *)

Section ConflictQuery.
Import Utils Route Window.

Lemma inConflictStatus_In (st : string) :
  inConflictStatus st = true
  <-> In st ["scheduled"%string; "under_review"%string; "active"%string].
Proof.
  unfold inConflictStatus. rewrite existsb_exists. split.
  - intros (x & Hx & E). apply String.eqb_eq in E. now subst.
  - intros H. exists st. split; [assumption | apply String.eqb_refl].
Qed.

Lemma conflictsWith_spec (a b : Z) (row : AnnouncementRow) :
  conflictsWith a b row = true
  <-> exists t, row_scheduled_at row = Some t /\ a <= t < b
                /\ inConflictStatus (row_status row) = true.
Proof.
  unfold conflictsWith. destruct (row_scheduled_at row) as [t|].
  - rewrite !andb_true_iff, Z.leb_le, Z.ltb_lt. split.
    + intros [[H1 H2] H3]. exists t. repeat split; assumption.
    + intros (t' & E & [H1 H2] & H3). inversion E; subst. tauto.
  - split; [discriminate | intros (t & E & _); discriminate].
Qed.

Lemma leftJoinUsers_In (us : list UserRow) (row : AnnouncementRow)
    (c : DetailedConflictRecord) :
  In c (leftJoinUsers us row) ->
  exists role, c = selectConflict row role.
Proof.
  unfold leftJoinUsers. destruct (filter (authorOf row) us) as [|u m].
  - intros [<- | []]. now exists None.
  - intros H. apply in_map_iff in H as (u' & <- & _). now eexists.
Qed.

Lemma leftJoinUsers_nonempty (us : list UserRow) (row : AnnouncementRow) :
  exists role, In (selectConflict row role) (leftJoinUsers us row).
Proof.
  unfold leftJoinUsers. destruct (filter (authorOf row) us) as [|u m].
  - exists None. now left.
  - exists (user_role u). now left.
Qed.

Lemma queryConflicts_rows (s : Store) (start end_ : Z) :
  (forall c, In c (queryConflicts s start end_) ->
     exists row t,
       In row (announcements s)
       /\ conflict_id c = row_id row
       /\ conflict_priority_level c = row_priority_level row
       /\ conflict_scheduled_at c = Some t
       /\ row_scheduled_at row = Some t
       /\ start <= t < end_
       /\ In (row_status row)
             ["scheduled"%string; "under_review"%string; "active"%string])
  /\ (forall row t,
        In row (announcements s) ->
        row_scheduled_at row = Some t ->
        start <= t < end_ ->
        In (row_status row)
           ["scheduled"%string; "under_review"%string; "active"%string] ->
        exists c, In c (queryConflicts s start end_)
                  /\ conflict_id c = row_id row
                  /\ conflict_scheduled_at c = Some t).
Proof.
  unfold queryConflicts. split.
  - intros c Hc. apply in_flat_map in Hc as (row & Hrow & Hc).
    apply filter_In in Hrow as [Hin Hcw].
    apply conflictsWith_spec in Hcw as (t & Ht & Hrange & Hst).
    apply leftJoinUsers_In in Hc as (role & ->).
    exists row, t. simpl. repeat split; try assumption; try lia.
    now apply inConflictStatus_In.
  - intros row t Hin Ht Hrange Hst.
    destruct (leftJoinUsers_nonempty (users s) row) as (role & Hrole).
    exists (selectConflict row role). split; [|split; [reflexivity | exact Ht]].
    apply in_flat_map. exists row. split; [|exact Hrole].
    apply filter_In. split; [exact Hin|].
    apply conflictsWith_spec. exists t. repeat split; try assumption; try lia.
    now apply inConflictStatus_In.
Qed.

(** X1.  The conflict query returns exactly the stored items whose
    scheduled time lies in [start, end) and whose status is scheduled,
    under_review or active: every record it returns copies the id, time
    and priority of such a row, and every such row is returned at least
    once, whether or not its author is found in [users]. *)
Theorem conflict_query_exact (s : Store) (start end_ : Z) :
  (forall c, In c (queryConflicts s start end_) ->
     exists row t,
       In row (announcements s)
       /\ conflict_id c = row_id row
       /\ conflict_priority_level c = row_priority_level row
       /\ conflict_scheduled_at c = Some t
       /\ row_scheduled_at row = Some t
       /\ start <= t < end_
       /\ In (row_status row)
             ["scheduled"%string; "under_review"%string; "active"%string])
  /\ (forall row t,
        In row (announcements s) ->
        row_scheduled_at row = Some t ->
        start <= t < end_ ->
        In (row_status row)
           ["scheduled"%string; "under_review"%string; "active"%string] ->
        exists c, In c (queryConflicts s start end_)
                  /\ conflict_id c = row_id row
                  /\ conflict_scheduled_at c = Some t).
Proof.
  exact (queryConflicts_rows s start end_).
Qed.

Lemma conflict_query_exact_witness :
  let x := Scenarios.scheduledRow 7 Scenarios.tenOClock (Some 3) (Some 1) in
  In x (announcements Scenarios.storeB)
  /\ row_scheduled_at x = Some Scenarios.tenOClock
  /\ Scenarios.clock 9 58 0 <= Scenarios.tenOClock < Scenarios.clock 10 3 0
  /\ exists c,
       In c (queryConflicts Scenarios.storeB (Scenarios.clock 9 58 0)
               (Scenarios.clock 10 3 0))
       /\ conflict_id c = row_id x
       /\ conflict_scheduled_at c = Some Scenarios.tenOClock.
Proof.
  intros x.
  assert (Hin : In x (announcements Scenarios.storeB)) by now left.
  assert (Hr : Scenarios.clock 9 58 0 <= Scenarios.tenOClock
               < Scenarios.clock 10 3 0)
    by (split; [discriminate | reflexivity]).
  split; [exact Hin|]. split; [reflexivity|]. split; [exact Hr|].
  exact (proj2 (conflict_query_exact Scenarios.storeB
                  (Scenarios.clock 9 58 0) (Scenarios.clock 10 3 0))
           x Scenarios.tenOClock Hin eq_refl Hr (or_introl eq_refl)).
Defined.

(** A window is occupied exactly when a stored item with a conflicting
    status is scheduled in it. *)
Lemma occupiedWindow_iff (s : Store) (w : Z) :
  occupiedWindow s w = true
  <-> exists row t,
        In row (announcements s)
        /\ row_scheduled_at row = Some t
        /\ w <= t < w + windowWidth
        /\ In (row_status row)
              ["scheduled"%string; "under_review"%string; "active"%string].
Proof.
  unfold occupiedWindow.
  change (Js.addMinutes w SLOT_INTERVAL_MINUTES) with (w + 5 * 60000).
  change windowWidth with 300000.
  replace (w + 5 * 60000) with (w + 300000) by lia.
  destruct (queryConflicts_rows s w (w + 300000)) as [H1 H2].
  destruct (queryConflicts s w (w + 300000)) as [|c cs] eqn:E; simpl.
  - split; [discriminate|].
    intros (row & t & Hin & Ht & Hr & Hst).
    destruct (H2 row t Hin Ht Hr Hst) as (c & [] & _).
  - split; [intros _ | reflexivity].
    destruct (H1 c (or_introl eq_refl))
      as (row & t & Hin & _ & _ & _ & Ht & Hr & Hst).
    exists row, t. repeat split; try assumption; lia.
Qed.

Lemma occupiedWindow_mono (s s' : Store) (w : Z) :
  incl (announcements s) (announcements s') ->
  occupiedWindow s w = true -> occupiedWindow s' w = true.
Proof.
  intros Hincl. rewrite !occupiedWindow_iff.
  intros (row & t & Hin & H). exists row, t. split; [now apply Hincl | exact H].
Qed.

End ConflictQuery.

Section SlotFinderMore.
Import Utils Route Window.

(** X2.  When the slot finder succeeds, the window it returns is the
    first free one from the truncated desiredTime: every window before it
    is occupied, and no stored item with a conflicting status is
    scheduled within the five minutes from the returned time.  It
    succeeds as soon as one of the 180 windows is free. *)
Theorem slot_finder_returns_first_free_window (s : Store) (desiredDate : Z) :
  (forall res,
      fst (findNextAvailableScheduleSlot desiredDate s) = Returned res ->
      (forall row t,
          In row (announcements s) ->
          row_scheduled_at row = Some t ->
          In (row_status row)
             ["scheduled"%string; "under_review"%string; "active"%string] ->
          ~ (scheduledAt res <= t < scheduledAt res + windowWidth))
      /\ exists k,
           scheduledAt res = windowOf (Js.setSeconds00 desiredDate) k
           /\ forall j, (j < k)%nat ->
                occupiedWindow s (windowOf (Js.setSeconds00 desiredDate) j)
                = true)
  /\ (forall k,
        (k < maxIterations)%nat ->
        occupiedWindow s (windowOf (Js.setSeconds00 desiredDate) k) = false ->
        exists res,
          fst (findNextAvailableScheduleSlot desiredDate s) = Returned res).
Proof.
  destruct (findNext_spec desiredDate s)
    as [(res & k & Hrun & Hk & Hocc & Hfree & Hat & _) | [Hrun Hall]];
    rewrite Hrun; simpl.
  - split.
    + intros res' E. inversion E; subst res'. split.
      * intros row t Hin Ht Hst Hr.
        assert (Ho : occupiedWindow s (scheduledAt res) = true)
          by (apply occupiedWindow_iff; exists row, t;
              split; [exact Hin|]; split; [exact Ht|];
              split; [exact Hr | exact Hst]).
        rewrite Hat in Ho. congruence.
      * exists k. split; assumption.
    + intros _ _ _. now exists res.
  - split; [intros res E; discriminate|].
    intros k Hk Hfree. rewrite (Hall k Hk) in Hfree. discriminate.
Qed.

Lemma slot_finder_returns_first_free_window_witness :
  fst (findNextAvailableScheduleSlot (Scenarios.clock 10 0 0) Scenarios.storeB)
  = Returned {| scheduledAt := Scenarios.clock 10 5 0; autoAdjusted := true |}
  /\ exists k,
       Scenarios.clock 10 5 0
       = windowOf (Js.setSeconds00 (Scenarios.clock 10 0 0)) k
       /\ forall j, (j < k)%nat ->
            occupiedWindow Scenarios.storeB
              (windowOf (Js.setSeconds00 (Scenarios.clock 10 0 0)) j) = true.
Proof.
  split; [reflexivity|].
  exact (proj2 (proj1 (slot_finder_returns_first_free_window
                         Scenarios.storeB (Scenarios.clock 10 0 0))
                  {| scheduledAt := Scenarios.clock 10 5 0;
                     autoAdjusted := true |} eq_refl)).
Defined.

(** X3.  Once an item with a conflicting status is stored in the window
    the slot finder assigned, and nothing is removed, a second search
    from the same desiredTime ends on a strictly later window, a whole
    number of window widths after the first, and reports autoAdjusted. *)
Theorem slot_finder_next_submission_moves_on
    (s s' : Store) (desiredDate : Z) (res res' : ScheduleResolutionResult)
    (row : AnnouncementRow) (t : Z) :
  fst (findNextAvailableScheduleSlot desiredDate s) = Returned res ->
  incl (announcements s) (announcements s') ->
  In row (announcements s') ->
  row_scheduled_at row = Some t ->
  scheduledAt res <= t < scheduledAt res + windowWidth ->
  In (row_status row)
     ["scheduled"%string; "under_review"%string; "active"%string] ->
  fst (findNextAvailableScheduleSlot desiredDate s') = Returned res' ->
  scheduledAt res < scheduledAt res'
  /\ (exists m, (0 < m)%nat
        /\ scheduledAt res' = scheduledAt res + Z.of_nat m * windowWidth)
  /\ autoAdjusted res' = true.
Proof.
  intros Hres Hincl Hrow Ht Hrange Hst Hres'.
  destruct (findNext_spec desiredDate s)
    as [(r & k & Hrun & Hk & Hocc & Hfree & Hat & _) | [Hrun _]];
    rewrite Hrun in Hres; simpl in Hres; [|discriminate].
  inversion Hres; subst r. clear Hres.
  destruct (findNext_spec desiredDate s')
    as [(r & k' & Hrun' & Hk' & Hocc' & Hfree' & Hat' & Hadj') | [Hrun' _]];
    rewrite Hrun' in Hres'; simpl in Hres'; [|discriminate].
  inversion Hres'; subst r. clear Hres'.
  assert (Hlt : (k < k')%nat).
  { destruct (Nat.lt_trichotomy k' k) as [H | [H | H]]; [| |exact H].
    - rewrite (occupiedWindow_mono s s' _ Hincl (Hocc k' H)) in Hfree'.
      discriminate.
    - subst k'. exfalso.
      assert (Ho : occupiedWindow s' (scheduledAt res) = true)
        by (apply occupiedWindow_iff; exists row, t;
            split; [exact Hrow|]; split; [exact Ht|];
            split; [exact Hrange | exact Hst]).
      rewrite Hat in Ho. congruence. }
  rewrite Hat, Hat'. unfold windowOf, windowWidth. split; [lia|]. split.
  - exists (k' - k)%nat. split; lia.
  - rewrite Hadj'. apply negb_true_iff, Z.eqb_neq.
    unfold windowOf, windowWidth. lia.
Qed.

Lemma slot_finder_next_submission_moves_on_witness :
  let s' := {| announcements :=
                 announcements Scenarios.storeB
                 ++ [Scenarios.scheduledRow 8 (Scenarios.clock 10 5 0)
                       (Some 3) (Some 2)];
               users := users Scenarios.storeB |} in
  fst (findNextAvailableScheduleSlot (Scenarios.clock 10 0 0) Scenarios.storeB)
  = Returned {| scheduledAt := Scenarios.clock 10 5 0; autoAdjusted := true |}
  /\ fst (findNextAvailableScheduleSlot (Scenarios.clock 10 0 0) s')
     = Returned {| scheduledAt := Scenarios.clock 10 10 0;
                   autoAdjusted := true |}
  /\ Scenarios.clock 10 5 0 < Scenarios.clock 10 10 0.
Proof.
  intros s'. split; [reflexivity|]. split; [reflexivity|].
  refine (proj1 (slot_finder_next_submission_moves_on
                   Scenarios.storeB s' (Scenarios.clock 10 0 0)
                   {| scheduledAt := Scenarios.clock 10 5 0;
                      autoAdjusted := true |}
                   {| scheduledAt := Scenarios.clock 10 10 0;
                      autoAdjusted := true |}
                   (Scenarios.scheduledRow 8 (Scenarios.clock 10 5 0)
                      (Some 3) (Some 2))
                   (Scenarios.clock 10 5 0)
                   eq_refl _ _ eq_refl _ _ eq_refl)).
  - intros a Ha. apply in_or_app. now left.
  - apply in_or_app. right. now left.
  - vm_compute. split; [discriminate | reflexivity].
  - simpl. now left.
Defined.

End SlotFinderMore.

(* ================================================================== *)
(** * The priority reflow, further *)
(* ================================================================== *)

Section ReflowMore.
Import Utils Route ReflowSpec StableSort.
Variable normalizeUserRole : option string -> option bool -> UserRole.

Lemma reflow_no_conflicts (s : Store) (d p : Z) (role : UserRole) :
  conflictSet s d = [] ->
  reflowSchedulesForSuperAdmin normalizeUserRole d p role s
  = (Returned {| reflow_scheduledAt := Js.setSeconds00 d;
                 reflow_autoAdjusted := false;
                 reflow_adjustments := [] |}, s).
Proof.
  unfold conflictSet, reflowSchedulesForSuperAdmin, bind,
    fetchConflictsForRange, ret.
  intros ->. simpl. now rewrite Z.eqb_refl.
Qed.

Lemma sorted_length (s : Store) (d p : Z) (role : UserRole) :
  List.length (Js.sort compareRecords
                 (combinedList normalizeUserRole s d p role))
  = S (List.length (conflictSet s d)).
Proof.
  rewrite sort_length, combinedList_eq, length_app, length_map. simpl. lia.
Qed.

Lemma adjustments_length (st : ReflowState) (l : list ReflowRecord) :
  (List.length (flat_map adjustmentFor (assignedWindows st l))
   + List.length (filter (fun r => match rec_id r with
                                   | None => true
                                   | Some _ => false
                                   end) l)
   <= List.length l)%nat.
Proof.
  revert st; induction l as [|r l IH]; intros st; simpl; [lia|].
  specialize (IH (reflowStep st r)). rewrite length_app.
  unfold adjustmentFor at 1. cbn [fst snd].
  destruct (rec_id r); simpl; [destruct (moved r (cursor st)); simpl|]; lia.
Qed.

(** The stored time of a conflict lies in the requested window, so any
    later window moves it. *)
Lemma conflict_moved (s : Store) (d : Z) (r : ReflowRecord) (w : Z) :
  In r (map (conflictRecord normalizeUserRole) (conflictSet s d)) ->
  Js.setSeconds00 d + windowWidth <= w ->
  moved r w = true.
Proof.
  intros Hr Hw. apply in_map_iff in Hr as (c & <- & Hc).
  unfold conflictSet in Hc.
  destruct (proj1 (queryConflicts_rows s _ _) c Hc)
    as (row & t & _ & _ & _ & Ht & _ & Hrange & _).
  unfold moved. simpl. rewrite Ht.
  apply negb_true_iff, Z.eqb_neq.
  unfold Js.addMinutes, SLOT_INTERVAL_MINUTES, Js.msPerMinute in Hrange.
  unfold windowWidth in Hw. lia.
Qed.

Lemma plan_entry (s : Store) (d p : Z) (role : UserRole)
    (r : ReflowRecord) (w : Z) :
  In (r, w) (reflowPlan normalizeUserRole s d p role) ->
  (exists k, w = windowOf (Js.setSeconds00 d) k)
  /\ In r (combinedList normalizeUserRole s d p role).
Proof.
  intros Hin. split.
  - apply In_nth_error in Hin as (k & Hk). exists k.
    eapply reflowPlan_nth; exact Hk.
  - apply (sort_In compareRecords). unfold reflowPlan in Hin.
    rewrite <- (assignedWindows_fst _ (initialState (Js.setSeconds00 d))).
    change r with (fst (r, w)). now apply in_map.
Qed.

Lemma reflow_adjustments_eq (s : Store) (d p : Z) (role : UserRole) res :
  conflictSet s d <> [] ->
  reflowSchedulesForSuperAdmin normalizeUserRole d p role s
  = (Returned res, s) ->
  reflow_adjustments res
  = flat_map adjustmentFor (reflowPlan normalizeUserRole s d p role).
Proof.
  intros Hne Hrun.
  rewrite (reflow_run normalizeUserRole s d p role Hne) in Hrun.
  inversion Hrun; subst res. cbn [reflow_adjustments].
  now rewrite fold_reflow_adjustments.
Qed.

(** X4.  A privileged reflow call always returns and leaves the store as
    it is.  The new item lands on the truncated desiredTime plus k window
    widths with k at most the number of conflicts, and at most one
    adjustment per conflict is produced.  With no conflict the result is
    the truncated desiredTime, autoAdjusted = false and no adjustment. *)
Theorem reflow_returns_within_conflict_count
    (s : Store) (desiredDate newAnnouncementPriority : Z) (userRole : UserRole) :
  exists res,
    reflowSchedulesForSuperAdmin normalizeUserRole desiredDate
      newAnnouncementPriority userRole s = (Returned res, s)
    /\ (exists k, (k <= List.length (conflictSet s desiredDate))%nat
          /\ reflow_scheduledAt res
             = windowOf (Js.setSeconds00 desiredDate) k)
    /\ (List.length (reflow_adjustments res)
        <= List.length (conflictSet s desiredDate))%nat
    /\ (conflictSet s desiredDate = [] ->
        res = {| reflow_scheduledAt := Js.setSeconds00 desiredDate;
                 reflow_autoAdjusted := false;
                 reflow_adjustments := [] |}).
Proof.
  destruct (conflictSet s desiredDate) as [|c cs] eqn:Hcs.
  - eexists. split; [apply reflow_no_conflicts; exact Hcs|]. simpl.
    split; [exists 0%nat; split; [lia | now rewrite windowOf_0]|].
    split; [lia | reflexivity].
  - assert (Hne : conflictSet s desiredDate <> []) by (rewrite Hcs; discriminate).
    pose proof (reflow_run normalizeUserRole s desiredDate
                  newAnnouncementPriority userRole Hne) as Hrun.
    cbv zeta in Hrun. eexists. split; [exact Hrun|].
    cbn [reflow_scheduledAt reflow_adjustments].
    pose proof (sorted_length s desiredDate newAnnouncementPriority userRole)
      as Hlen.
    destruct (sorted_split normalizeUserRole s desiredDate
                newAnnouncementPriority userRole) as (l1 & l2 & Heq & Hall).
    rewrite Hcs in Hlen. rewrite Heq in *.
    destruct (fold_reflow_new l1 l2
                (newRecord (Js.setSeconds00 desiredDate)
                   newAnnouncementPriority userRole)
                (initialState (Js.setSeconds00 desiredDate))
                eq_refl Hall) as (Ha & _ & _).
    rewrite length_app in Hlen. simpl in Hlen.
    split; [|split; [|discriminate]].
    + exists (List.length l1). split; [simpl; lia|].
      now rewrite Ha, initialState_cursor.
    + rewrite fold_reflow_adjustments. simpl.
      pose proof (adjustments_length
                    (initialState (Js.setSeconds00 desiredDate))
                    (l1 ++ newRecord (Js.setSeconds00 desiredDate)
                             newAnnouncementPriority userRole :: l2)) as Hadj.
      rewrite filter_app, !length_app in Hadj. simpl in Hadj. lia.
Qed.

(** X5.  When the requested window has conflicts, every existing item
    that is not given the first window is adjusted, and autoAdjusted is
    always true: either the new item is not first, or the item behind it
    is moved. *)
Theorem reflow_with_conflicts_always_adjusts
    (s : Store) (desiredDate newAnnouncementPriority : Z) (userRole : UserRole)
    (res : ReflowResult) :
  conflictSet s desiredDate <> [] ->
  reflowSchedulesForSuperAdmin normalizeUserRole desiredDate
    newAnnouncementPriority userRole s = (Returned res, s) ->
  reflow_autoAdjusted res = true
  /\ forall r w i,
       In (r, w) (reflowPlan normalizeUserRole s desiredDate
                    newAnnouncementPriority userRole) ->
       rec_id r = Some i ->
       w <> Js.setSeconds00 desiredDate ->
       In {| adj_id := i; newTime := w |} (reflow_adjustments res).
Proof.
  intros Hne Hrun.
  pose proof (reflow_adjustments_eq s desiredDate newAnnouncementPriority
                userRole res Hne Hrun) as Hadj.
  assert (Hmoved : forall r w i,
             In (r, w) (reflowPlan normalizeUserRole s desiredDate
                          newAnnouncementPriority userRole) ->
             rec_id r = Some i ->
             w <> Js.setSeconds00 desiredDate ->
             In {| adj_id := i; newTime := w |} (reflow_adjustments res)).
  { intros r w i Hin Hr Hw. rewrite Hadj. apply in_flat_map.
    exists (r, w). split; [exact Hin|].
    unfold adjustmentFor. cbn [fst snd]. rewrite Hr.
    destruct (plan_entry s desiredDate newAnnouncementPriority userRole r w Hin)
      as [(k & Hk) Hcomb].
    rewrite combinedList_eq in Hcomb.
    apply in_app_or in Hcomb as [Hc | [<- | []]]; [|discriminate].
    rewrite (conflict_moved s desiredDate r w Hc); [now left|].
    destruct k as [|k]; [rewrite windowOf_0 in Hk; contradiction|].
    subst w. unfold windowOf, windowWidth. lia. }
  split; [|exact Hmoved].
  rewrite (reflow_run normalizeUserRole s desiredDate
             newAnnouncementPriority userRole Hne) in Hrun.
  inversion Hrun as [Hres]. cbn [reflow_autoAdjusted].
  apply orb_true_iff.
  destruct (Z.eqb_spec
              (assignedNewAnnouncementTime
                 (fold_left reflowStep
                    (Js.sort compareRecords
                       (combinedList normalizeUserRole s desiredDate
                          newAnnouncementPriority userRole))
                    (initialState (Js.setSeconds00 desiredDate))))
              (Js.setSeconds00 desiredDate)) as [Heq | Hneq];
    [right | now left].
  apply Nat.ltb_lt.
  pose proof (sorted_length s desiredDate newAnnouncementPriority userRole)
    as Hlen.
  destruct (sorted_split normalizeUserRole s desiredDate
              newAnnouncementPriority userRole) as (l1 & l2 & Hs & Hall).
  destruct (fold_reflow_new l1 l2
                (newRecord (Js.setSeconds00 desiredDate)
                   newAnnouncementPriority userRole)
                (initialState (Js.setSeconds00 desiredDate))
              eq_refl Hall) as (Ha & _ & _).
  rewrite <- Hs in Ha. rewrite Ha, initialState_cursor in Heq.
  assert (Hl1 : l1 = []).
  { destruct l1; [reflexivity|]. exfalso.
    unfold windowOf, windowWidth in Heq. simpl List.length in Heq. lia. }
  subst l1. simpl in Hs.
  destruct l2 as [|r l2].
  { rewrite Hs in Hlen. simpl in Hlen.
    destruct (conflictSet s desiredDate); [contradiction | discriminate]. }
  inversion Hall as [|? ? Hr _]; subst.
  destruct (rec_id r) as [i|] eqn:Hri; [|contradiction].
  assert (Hin : In (r, windowOf (Js.setSeconds00 desiredDate) 1)
                   (reflowPlan normalizeUserRole s desiredDate
                      newAnnouncementPriority userRole)).
  { unfold reflowPlan. rewrite Hs. cbn [assignedWindows]. right. left.
    rewrite reflowStep_cursor, initialState_cursor.
    unfold windowOf. f_equal; unfold windowWidth; lia. }
  assert (Hw : windowOf (Js.setSeconds00 desiredDate) 1
               <> Js.setSeconds00 desiredDate)
    by (unfold windowOf, windowWidth; lia).
  pose proof (Hmoved r _ i Hin Hri Hw) as Hin'.
  cbn [reflow_adjustments] in Hin'.
  destruct (adjustments _); [contradiction | simpl; lia].
Qed.

(** X6.  A new item whose priority level is strictly smaller than that of
    every conflict (an absent level counting as 3) lands on the truncated
    desiredTime itself; one whose level is strictly larger than every
    conflict's lands behind all of them, one window per conflict later. *)
Theorem reflow_priority_extremes
    (s : Store) (desiredDate newAnnouncementPriority : Z) (userRole : UserRole)
    (res : ReflowResult) :
  reflowSchedulesForSuperAdmin normalizeUserRole desiredDate
    newAnnouncementPriority userRole s = (Returned res, s) ->
  ((forall c, In c (conflictSet s desiredDate) ->
      newAnnouncementPriority < Js.orElse (conflict_priority_level c) 3) ->
   reflow_scheduledAt res = Js.setSeconds00 desiredDate)
  /\ ((forall c, In c (conflictSet s desiredDate) ->
         Js.orElse (conflict_priority_level c) 3 < newAnnouncementPriority) ->
      reflow_scheduledAt res
      = windowOf (Js.setSeconds00 desiredDate)
          (List.length (conflictSet s desiredDate))).
Proof.
  intros Hrun.
  destruct (conflictSet s desiredDate) as [|c0 cs] eqn:Hcs.
  { rewrite (reflow_no_conflicts s desiredDate newAnnouncementPriority
               userRole Hcs) in Hrun.
    inversion Hrun; subst res. simpl.
    split; intros _; [reflexivity | now rewrite windowOf_0]. }
  assert (Hne : conflictSet s desiredDate <> []) by (rewrite Hcs; discriminate).
  rewrite (reflow_run normalizeUserRole s desiredDate
             newAnnouncementPriority userRole Hne) in Hrun.
  inversion Hrun; subst res. cbn [reflow_scheduledAt]. clear Hrun.
  pose proof (sorted_length s desiredDate newAnnouncementPriority userRole)
    as Hlen.
  assert (Hsorted : StronglySorted
                      (fun a b => priorityLevel a <= priorityLevel b)
                      (Js.sort compareRecords
                         (combinedList normalizeUserRole s desiredDate
                            newAnnouncementPriority userRole))).
  { apply sort_sorted_by.
    - intros x y z; lia.
    - intros x y H. apply compareRecords_le in H. lia.
    - intros x y H.
      assert (H' : ~ compareRecords x y <= 0) by lia.
      rewrite compareRecords_le in H'. lia. }
  destruct (sorted_split normalizeUserRole s desiredDate
              newAnnouncementPriority userRole) as (l1 & l2 & Hs & Hall).
  destruct (fold_reflow_new l1 l2
                (newRecord (Js.setSeconds00 desiredDate)
                   newAnnouncementPriority userRole)
                (initialState (Js.setSeconds00 desiredDate))
              eq_refl Hall) as (Ha & _ & _).
  rewrite <- Hs in Ha. rewrite Ha, initialState_cursor.
  assert (Hconf : forall r, In r (l1 ++ l2) ->
            exists c, In c (conflictSet s desiredDate)
                      /\ priorityLevel r
                         = Js.orElse (conflict_priority_level c) 3).
  { intros r Hr.
    assert (Hin : In r (combinedList normalizeUserRole s desiredDate
                          newAnnouncementPriority userRole)).
    { apply (sort_In compareRecords). rewrite Hs.
      apply in_app_or in Hr. apply in_or_app. simpl. tauto. }
    rewrite combinedList_eq in Hin.
    apply in_app_or in Hin as [Hin | [<- | []]].
    - apply in_map_iff in Hin as (c & <- & Hc). now exists c.
    - rewrite Forall_forall in Hall. exfalso. now apply (Hall _ Hr). }
  rewrite Hs in Hsorted, Hlen. rewrite Hcs in Hconf.
  split; intros Hall'.
  - destruct l1 as [|r l1]; [now rewrite windowOf_0|]. exfalso.
    simpl in Hsorted. apply StronglySorted_inv in Hsorted as [_ Hf].
    rewrite Forall_forall in Hf.
    specialize (Hf (newRecord (Js.setSeconds00 desiredDate)
                      newAnnouncementPriority userRole)).
    simpl in Hf.
    destruct (Hconf r (or_introl eq_refl)) as (c & Hc & Hp).
    specialize (Hall' c Hc).
    assert (priorityLevel r <= newAnnouncementPriority)
      by (apply Hf; apply in_or_app; right; now left).
    lia.
  - assert (Hl2 : l2 = []).
    { destruct l2 as [|r l2]; [reflexivity|]. exfalso.
      apply StronglySorted_app_right in Hsorted.
      apply StronglySorted_inv in Hsorted as [_ Hf].
      inversion Hf as [|? ? Hle _]; subst. simpl in Hle.
      destruct (Hconf r) as (c & Hc & Hp).
      - apply in_or_app. right. now left.
      - specialize (Hall' c Hc). lia. }
    subst l2. rewrite length_app, Hcs in Hlen. simpl in Hlen.
    f_equal. simpl. lia.
Qed.

End ReflowMore.

(* ================================================================== *)
(** * Applying the adjustments *)
(* ================================================================== *)

Section ApplyAdjustments.
Import Utils Route ReflowSpec ApplySpec.

Lemma apply_run (now : Z) (adjs : list ScheduleAdjustment) (s : Store) :
  applyScheduleAdjustments now adjs s
  = (Returned tt,
     {| announcements := map (adjustedRow now adjs) (announcements s);
        users := users s |}).
Proof.
  revert s; induction adjs as [|adj adjs IH]; intros s; simpl.
  - unfold ret, adjustedRow. simpl. rewrite map_id. now destruct s.
  - unfold bind, writeAdjustment. rewrite IH. simpl.
    now rewrite map_map.
Qed.

Lemma updateScheduledAt_keeps (now : Z) (adj : ScheduleAdjustment)
    (a : AnnouncementRow) :
  row_id (updateScheduledAt now adj a) = row_id a
  /\ row_title (updateScheduledAt now adj a) = row_title a
  /\ row_priority_level (updateScheduledAt now adj a) = row_priority_level a
  /\ row_author_id (updateScheduledAt now adj a) = row_author_id a
  /\ row_status (updateScheduledAt now adj a) = row_status a.
Proof.
  unfold updateScheduledAt. destruct (row_id a =? adj_id adj); simpl; tauto.
Qed.

Lemma adjustedRow_keeps (now : Z) (adjs : list ScheduleAdjustment)
    (a : AnnouncementRow) :
  row_id (adjustedRow now adjs a) = row_id a
  /\ row_title (adjustedRow now adjs a) = row_title a
  /\ row_priority_level (adjustedRow now adjs a) = row_priority_level a
  /\ row_author_id (adjustedRow now adjs a) = row_author_id a
  /\ row_status (adjustedRow now adjs a) = row_status a.
Proof.
  unfold adjustedRow.
  revert a; induction adjs as [|adj adjs IH]; intros a; simpl; [tauto|].
  destruct (IH (updateScheduledAt now adj a)) as (-> & -> & -> & -> & ->).
  apply updateScheduledAt_keeps.
Qed.

Lemma adjustedRow_untouched (now : Z) (adjs : list ScheduleAdjustment)
    (a : AnnouncementRow) :
  ~ In (row_id a) (map adj_id adjs) -> adjustedRow now adjs a = a.
Proof.
  unfold adjustedRow.
  induction adjs as [|adj adjs IH]; simpl; [reflexivity|].
  intros H. unfold updateScheduledAt at 2.
  destruct (Z.eqb_spec (row_id a) (adj_id adj)) as [E | E].
  - exfalso. apply H. left. now symmetry.
  - apply IH. tauto.
Qed.

Lemma adjustedRow_written (now : Z) (adjs : list ScheduleAdjustment)
    (a : AnnouncementRow) (adj : ScheduleAdjustment) :
  NoDup (map adj_id adjs) ->
  In adj adjs ->
  adj_id adj = row_id a ->
  row_scheduled_at (adjustedRow now adjs a) = Some (newTime adj)
  /\ row_updated_at (adjustedRow now adjs a) = Some now.
Proof.
  unfold adjustedRow.
  revert a; induction adjs as [|adj0 adjs IH]; intros a Hnd Hin Hid;
    [contradiction|].
  simpl in Hnd. inversion Hnd as [|? ? Hnotin Hnd']; subst.
  destruct Hin as [-> | Hin].
  - simpl. fold (adjustedRow now adjs (updateScheduledAt now adj a)).
    rewrite adjustedRow_untouched.
    + unfold updateScheduledAt. rewrite Hid, Z.eqb_refl. simpl. tauto.
    + destruct (updateScheduledAt_keeps now adj a) as (-> & _).
      now rewrite <- Hid.
  - simpl. apply IH; try assumption.
    destruct (updateScheduledAt_keeps now adj0 a) as (-> & _). exact Hid.
Qed.

Lemma adjustedRow_last (now : Z) (adjs1 adjs2 : list ScheduleAdjustment)
    (adj : ScheduleAdjustment) (a : AnnouncementRow) :
  adj_id adj = row_id a ->
  ~ In (adj_id adj) (map adj_id adjs2) ->
  row_scheduled_at (adjustedRow now (adjs1 ++ adj :: adjs2) a)
  = Some (newTime adj)
  /\ row_updated_at (adjustedRow now (adjs1 ++ adj :: adjs2) a) = Some now.
Proof.
  intros Hid Hnot. unfold adjustedRow. rewrite fold_left_app. simpl.
  fold (adjustedRow now adjs1 a).
  fold (adjustedRow now adjs2
          (updateScheduledAt now adj (adjustedRow now adjs1 a))).
  destruct (adjustedRow_keeps now adjs1 a) as (Hk & _).
  rewrite adjustedRow_untouched.
  - unfold updateScheduledAt. rewrite Hk, Hid, Z.eqb_refl. simpl. tauto.
  - destruct (updateScheduledAt_keeps now adj (adjustedRow now adjs1 a))
      as (-> & _).
    now rewrite Hk, <- Hid.
Qed.

(** X7.  Once every update of [applyScheduleAdjustments] has gone
    through, nothing but the scheduled time and the update stamp of rows
    named by an adjustment has changed: the users are the same; the rows
    of the table are the rows it had, each as the adjustments naming it
    left it, with its id, title, priority, author and status; a row
    whose id is in no adjustment is still there unchanged; the last
    adjustment naming a row decides its time, so when no id is adjusted
    twice each named row ends with that adjustment's new time. *)
Theorem apply_adjustments_frame (now : Z)
    (adjs : list ScheduleAdjustment) (s : Store) :
  users (storeAfter now adjs s) = users s
  /\ (forall a',
        In a' (announcements (storeAfter now adjs s))
        <-> exists a, In a (announcements s) /\ a' = adjustedRow now adjs a)
  /\ Permutation (map row_id (announcements (storeAfter now adjs s)))
                 (map row_id (announcements s))
  /\ (forall a,
        row_id (adjustedRow now adjs a) = row_id a
        /\ row_title (adjustedRow now adjs a) = row_title a
        /\ row_priority_level (adjustedRow now adjs a) = row_priority_level a
        /\ row_author_id (adjustedRow now adjs a) = row_author_id a
        /\ row_status (adjustedRow now adjs a) = row_status a)
  /\ (forall a, In a (announcements s) ->
        ~ In (row_id a) (map adj_id adjs) ->
        adjustedRow now adjs a = a
        /\ In a (announcements (storeAfter now adjs s)))
  /\ (forall adjs1 adj adjs2 a,
        adjs = adjs1 ++ adj :: adjs2 ->
        adj_id adj = row_id a ->
        ~ In (adj_id adj) (map adj_id adjs2) ->
        row_scheduled_at (adjustedRow now adjs a) = Some (newTime adj)
        /\ row_updated_at (adjustedRow now adjs a) = Some now)
  /\ (NoDup (map adj_id adjs) ->
      forall a adj, In adj adjs -> adj_id adj = row_id a ->
        row_scheduled_at (adjustedRow now adjs a) = Some (newTime adj)
        /\ row_updated_at (adjustedRow now adjs a) = Some now).
Proof.
  unfold storeAfter. rewrite apply_run. simpl.
  split; [reflexivity|].
  split.
  { intros a'. rewrite in_map_iff. split.
    - intros (a & E & Hin). exists a. split; [exact Hin | now symmetry].
    - intros (a & Hin & E). exists a. split; [now symmetry | exact Hin]. }
  split.
  { rewrite map_map.
    rewrite (map_ext (fun a => row_id (adjustedRow now adjs a)) row_id);
      [reflexivity|].
    intros a. apply adjustedRow_keeps. }
  split; [apply adjustedRow_keeps|].
  split.
  { intros a Hin Hnot.
    pose proof (adjustedRow_untouched now adjs a Hnot) as E.
    split; [exact E|]. apply in_map_iff. exists a. split; assumption. }
  split.
  { intros adjs1 adj adjs2 a -> Hid Hnot. now apply adjustedRow_last. }
  intros Hnd a adj. now apply adjustedRow_written.
Qed.

End ApplyAdjustments.

Section ApplyAdjustmentsWitness.
Import Utils Route ReflowSpec ApplySpec Scenarios ScenariosMore.

Lemma apply_adjustments_frame_witness :
  let first := {| adj_id := 7; newTime := clock 10 5 0 |} in
  let second := {| adj_id := 7; newTime := clock 10 10 0 |} in
  let x := scheduledRow 7 (clock 10 0 0) (Some 3) (Some 1) in
  let y := scheduledRow 8 (clock 10 5 0) (Some 3) (Some 2) in
  In y (announcements storeQueue)
  /\ ~ In (row_id y) (map adj_id [first; second])
  /\ In y (announcements (storeAfter 99 [first; second] storeQueue))
  /\ ~ In (adj_id second) (map adj_id [])
  /\ row_scheduled_at (adjustedRow 99 [first; second] x)
     = Some (clock 10 10 0)
  /\ NoDup (map adj_id [first])
  /\ row_scheduled_at (adjustedRow 99 [first] x) = Some (clock 10 5 0).
Proof.
  intros first second x y.
  assert (Hin : In y (announcements storeQueue))
    by (right; left; reflexivity).
  assert (Hy : ~ In (row_id y) (map adj_id [first; second]))
    by (simpl; intros [H | [H | []]]; discriminate H).
  assert (Hnone : ~ In (adj_id second) (map adj_id [])) by (intros []).
  assert (Hnd : NoDup (map adj_id [first]))
    by (repeat constructor; simpl; tauto).
  destruct (apply_adjustments_frame 99 [first; second] storeQueue)
    as (_ & _ & _ & _ & Hun & Hlast & _).
  destruct (apply_adjustments_frame 99 [first] storeQueue)
    as (_ & _ & _ & _ & _ & _ & Hw).
  split; [exact Hin|]. split; [exact Hy|].
  split; [exact (proj2 (Hun y Hin Hy))|]. split; [exact Hnone|].
  split; [exact (proj1 (Hlast [first] second [] x eq_refl eq_refl Hnone))|].
  split; [exact Hnd|].
  exact (proj1 (Hw Hnd x first (or_introl eq_refl) eq_refl)).
Defined.

End ApplyAdjustmentsWitness.

(* ================================================================== *)
(** * Reflow followed by the adjustment writes *)
(* ================================================================== *)

Section ReflowThenApply.
Import Utils Route ReflowSpec ApplySpec.
Variable normalizeUserRole : option string -> option bool -> UserRole.

Lemma filter_at_most_one {B : Type} (f : B -> Z) (P : B -> bool) (l : list B) :
  NoDup (map f l) ->
  (forall x y, P x = true -> P y = true -> f x = f y) ->
  (List.length (filter P l) <= 1)%nat.
Proof.
  intros Hnd Hsame. induction l as [|x l IH]; simpl; [lia|].
  simpl in Hnd. inversion Hnd as [|? ? Hx Hnd']; subst.
  specialize (IH Hnd').
  destruct (P x) eqn:Px; [|exact IH]. simpl.
  destruct (filter P l) as [|y m] eqn:E; [simpl; lia|]. exfalso.
  assert (Hy : In y (filter P l)) by (rewrite E; now left).
  apply filter_In in Hy as [Hy Py].
  apply Hx. rewrite (Hsame x y Px Py). now apply in_map.
Qed.

Lemma leftJoinUsers_once (us : list UserRow) (a : AnnouncementRow) :
  NoDup (map user_id us) ->
  map conflict_id (leftJoinUsers us a) = [row_id a].
Proof.
  intros Hnd. unfold leftJoinUsers.
  pose proof (filter_at_most_one user_id (authorOf a) us Hnd) as H.
  destruct (filter (authorOf a) us) as [|u [|v m]]; try reflexivity.
  exfalso. simpl in H.
  assert ((S (S (List.length m)) <= 1)%nat); [|lia].
  apply H. intros x y. unfold authorOf.
  destruct (row_author_id a); [|discriminate].
  rewrite !Z.eqb_eq. congruence.
Qed.

Lemma queryConflicts_ids (s : Store) (a b : Z) :
  NoDup (map user_id (users s)) ->
  map conflict_id (queryConflicts s a b)
  = map row_id (filter (conflictsWith a b) (announcements s)).
Proof.
  intros Hnd. unfold queryConflicts.
  induction (filter (conflictsWith a b) (announcements s)) as [|r l IH];
    simpl; [reflexivity|].
  now rewrite map_app, leftJoinUsers_once, IH.
Qed.

Lemma NoDup_map_filter {B : Type} (f : B -> Z) (P : B -> bool) (l : list B) :
  NoDup (map f l) -> NoDup (map f (filter P l)).
Proof.
  induction l as [|x l IH]; simpl; [trivial|].
  intros Hnd. inversion Hnd as [|? ? Hx Hnd']; subst.
  destruct (P x); simpl; [constructor|]; try now apply IH.
  intros Hin. apply Hx. apply in_map_iff in Hin as (y & Hy & Hin).
  apply filter_In in Hin as [Hin _]. rewrite <- Hy. now apply in_map.
Qed.

Lemma NoDup_map_injective {B : Type} (f : B -> Z) (l : list B) (x y : B) :
  NoDup (map f l) -> In x l -> In y l -> f x = f y -> x = y.
Proof.
  induction l as [|z l IH]; simpl; [tauto|].
  intros Hnd Hx Hy E. inversion Hnd as [|? ? Hz Hnd']; subst.
  destruct Hx as [-> | Hx], Hy as [-> | Hy]; try reflexivity.
  - exfalso. apply Hz. rewrite E. now apply in_map.
  - exfalso. apply Hz. rewrite <- E. now apply in_map.
  - now apply IH.
Qed.

Lemma existingIds_combined (s : Store) (d p : Z) (role : UserRole) :
  existingIds (combinedList normalizeUserRole s d p role)
  = map conflict_id (conflictSet s d).
Proof.
  rewrite combinedList_eq. unfold existingIds.
  rewrite flat_map_app. simpl. rewrite app_nil_r.
  induction (conflictSet s d) as [|c cs IH]; simpl; [reflexivity|].
  now rewrite IH.
Qed.

Lemma existingIds_In (l : list ReflowRecord) (i : Z) :
  In i (existingIds l) <-> exists r, In r l /\ rec_id r = Some i.
Proof.
  unfold existingIds. rewrite in_flat_map. split.
  - intros (r & Hr & Hi). exists r. split; [assumption|].
    destruct (rec_id r); [|contradiction]. destruct Hi as [-> | []].
    reflexivity.
  - intros (r & Hr & E). exists r. split; [assumption|]. rewrite E. now left.
Qed.

(** With distinct ids, an id names one entry of the plan. *)
Lemma plan_entry_unique (tr : list (ReflowRecord * Z))
    (r r' : ReflowRecord) (w w' i : Z) :
  NoDup (existingIds (map fst tr)) ->
  In (r, w) tr -> In (r', w') tr ->
  rec_id r = Some i -> rec_id r' = Some i ->
  (r, w) = (r', w').
Proof.
  induction tr as [|[r0 w0] tr IH]; simpl; [tauto|].
  intros Hnd H1 H2 E1 E2.
  assert (Hhead : forall r1 w1, In (r1, w1) tr -> rec_id r1 = Some i ->
                                rec_id r0 = Some i -> False).
  { intros r1 w1 Hin Er1 Er0. unfold existingIds in Hnd. simpl in Hnd.
    rewrite Er0 in Hnd. simpl in Hnd.
    inversion Hnd as [|? ? Hnot _]; subst. apply Hnot.
    apply existingIds_In. exists r1. split; [|exact Er1].
    change r1 with (fst (r1, w1)). now apply in_map. }
  destruct H1 as [H1 | H1], H2 as [H2 | H2].
  - congruence.
  - inversion H1; subst. exfalso. eapply Hhead; eassumption.
  - inversion H2; subst. exfalso. eapply Hhead; eassumption.
  - apply IH; try assumption.
    unfold existingIds in Hnd. simpl in Hnd.
    apply NoDup_app_remove_l in Hnd. exact Hnd.
Qed.

Lemma adjustments_ids_NoDup (tr : list (ReflowRecord * Z)) :
  NoDup (existingIds (map fst tr)) ->
  NoDup (map adj_id (flat_map adjustmentFor tr)).
Proof.
  induction tr as [|[r w] tr IH]; simpl; [constructor|].
  intros Hnd. unfold existingIds in Hnd. simpl in Hnd.
  rewrite map_app. unfold adjustmentFor at 1. cbn [fst snd].
  destruct (rec_id r) as [i|] eqn:Er; simpl in *.
  - inversion Hnd as [|? ? Hnot Hnd']; subst.
    destruct (moved r w); simpl; [constructor|]; try now apply IH.
    intros Hin. apply Hnot.
    apply in_map_iff in Hin as (adj & <- & Hin).
    apply in_flat_map in Hin as ([r' w'] & Hin & Hadj).
    unfold adjustmentFor in Hadj. cbn [fst snd] in Hadj.
    destruct (rec_id r') as [i'|] eqn:Er'; [|contradiction].
    destruct (moved r' w'); [|contradiction].
    destruct Hadj as [<- | []]. simpl.
    apply existingIds_In. exists r'. split; [|exact Er'].
    change r' with (fst (r', w')). now apply in_map.
  - now apply IH.
Qed.

Lemma reflow_adjustments_plan (s : Store) (d p : Z) (role : UserRole) res :
  reflowSchedulesForSuperAdmin normalizeUserRole d p role s
  = (Returned res, s) ->
  reflow_adjustments res
  = flat_map adjustmentFor (reflowPlan normalizeUserRole s d p role).
Proof.
  intros Hrun.
  destruct (conflictSet s d) as [|c cs] eqn:Hcs.
  - rewrite (reflow_no_conflicts normalizeUserRole s d p role Hcs) in Hrun.
    inversion Hrun; subst res. simpl.
    unfold reflowPlan. rewrite combinedList_eq, Hcs. reflexivity.
  - apply reflow_adjustments_eq; [|exact Hrun]. rewrite Hcs. discriminate.
Qed.

Lemma reflow_scheduledAt_plan (s : Store) (d p : Z) (role : UserRole) res :
  reflowSchedulesForSuperAdmin normalizeUserRole d p role s
  = (Returned res, s) ->
  In (newRecord (Js.setSeconds00 d) p role, reflow_scheduledAt res)
     (reflowPlan normalizeUserRole s d p role).
Proof.
  intros Hrun.
  destruct (conflictSet s d) as [|c cs] eqn:Hcs.
  - rewrite (reflow_no_conflicts normalizeUserRole s d p role Hcs) in Hrun.
    inversion Hrun; subst res. simpl.
    unfold reflowPlan. rewrite combinedList_eq, Hcs. simpl. left.
    now rewrite setSeconds00_idem.
  - assert (Hne : conflictSet s d <> []) by (rewrite Hcs; discriminate).
    rewrite (reflow_run normalizeUserRole s d p role Hne) in Hrun.
    inversion Hrun; subst res. cbn [reflow_scheduledAt].
    destruct (sorted_split normalizeUserRole s d p role)
      as (l1 & l2 & Hs & Hall).
    destruct (fold_reflow_new l1 l2 (newRecord (Js.setSeconds00 d) p role)
                (initialState (Js.setSeconds00 d)) eq_refl Hall)
      as (Ha & Hin & _).
    unfold reflowPlan. rewrite Hs, Ha. exact Hin.
Qed.

Lemma reflow_apply_core
    (s : Store) (desiredDate newAnnouncementPriority : Z) (userRole : UserRole)
    (res : ReflowResult) (now : Z) :
  NoDup (map row_id (announcements s)) ->
  NoDup (map user_id (users s)) ->
  reflowSchedulesForSuperAdmin normalizeUserRole desiredDate
    newAnnouncementPriority userRole s = (Returned res, s) ->
  let s' := storeAfter now (reflow_adjustments res) s in
  let plan :=
    reflowPlan normalizeUserRole s desiredDate newAnnouncementPriority userRole in
  let conflictIds := map conflict_id (conflictSet s desiredDate) in
  (forall i, In i conflictIds ->
     exists r w, In (r, w) plan /\ rec_id r = Some i)
  /\ (forall r w i a',
        In (r, w) plan -> rec_id r = Some i ->
        In a' (announcements s') -> row_id a' = i ->
        row_scheduled_at a' = Some w)
  /\ (forall a, In a (announcements s) -> ~ In (row_id a) conflictIds ->
        In a (announcements s'))
  /\ (forall a' b',
        In a' (announcements s') -> In b' (announcements s') ->
        In (row_id a') conflictIds -> In (row_id b') conflictIds ->
        row_id a' <> row_id b' ->
        row_scheduled_at a' <> row_scheduled_at b')
  /\ (forall a',
        In a' (announcements s') -> In (row_id a') conflictIds ->
        row_scheduled_at a' <> Some (reflow_scheduledAt res)).
Proof.
  intros Hrows Husers Hrun s' plan conflictIds. subst conflictIds.
  pose proof (reflow_adjustments_plan s desiredDate newAnnouncementPriority
                userRole res Hrun) as Hadj. fold plan in Hadj.
  pose proof (reflow_scheduledAt_plan s desiredDate newAnnouncementPriority
                userRole res Hrun) as Hnew. fold plan in Hnew.
  pose proof (reflowPlan_NoDup normalizeUserRole s desiredDate
                newAnnouncementPriority userRole) as Hwin. fold plan in Hwin.
  assert (Hfst : map fst plan
                 = Js.sort compareRecords
                     (combinedList normalizeUserRole s desiredDate
                        newAnnouncementPriority userRole))
    by (apply assignedWindows_fst).
  assert (Hcids : NoDup (map conflict_id (conflictSet s desiredDate))).
  { unfold conflictSet.
    rewrite queryConflicts_ids by assumption. now apply NoDup_map_filter. }
  assert (Hids : NoDup (existingIds (map fst plan))).
  { rewrite Hfst.
    eapply Permutation_NoDup;
      [|rewrite <- (existingIds_combined s desiredDate
                      newAnnouncementPriority userRole) in Hcids; exact Hcids].
    unfold existingIds. apply Permutation_flat_map, Permutation_sym, sort_perm. }
  assert (Hentry : forall i,
             In i (map conflict_id (conflictSet s desiredDate)) ->
                     exists r w, In (r, w) plan /\ rec_id r = Some i).
  { intros i Hi.
    rewrite <- (existingIds_combined s desiredDate newAnnouncementPriority
                  userRole) in Hi.
    apply existingIds_In in Hi as (r & Hr & Er).
    apply (sort_In compareRecords) in Hr. rewrite <- Hfst in Hr.
    apply in_map_iff in Hr as ([r' w] & E & Hin). simpl in E. subst r'.
    now exists r, w. }
  assert (Hstored : forall r w i a,
             In (r, w) plan -> rec_id r = Some i ->
             In a (announcements s) -> row_id a = i ->
             rec_scheduledAt r = row_scheduled_at a).
  { intros r w i a Hin Er Ha Hi.
    destruct (plan_entry normalizeUserRole s desiredDate
                newAnnouncementPriority userRole r w Hin) as [_ Hcomb].
    rewrite combinedList_eq in Hcomb.
    apply in_app_or in Hcomb as [Hc | [<- | []]]; [|discriminate].
    apply in_map_iff in Hc as (c & <- & Hc). simpl in *.
    destruct (proj1 (queryConflicts_rows s _ _) c Hc)
      as (row & t & Hrow & Hid & _ & Hct & Hrt & _).
    assert (row = a).
    { apply (NoDup_map_injective row_id (announcements s)); try assumption.
      congruence. }
    subst row. congruence. }
  assert (Hplace : forall r w i a',
             In (r, w) plan -> rec_id r = Some i ->
             In a' (announcements s') -> row_id a' = i ->
             row_scheduled_at a' = Some w).
  { intros r w i a' Hin Er Ha' Hi.
    subst s'. unfold storeAfter in Ha'. rewrite apply_run in Ha'.
    simpl in Ha'. apply in_map_iff in Ha' as (a & <- & Ha).
    destruct (adjustedRow_keeps now (reflow_adjustments res) a) as (Hid & _).
    rewrite Hid in Hi.
    pose proof (Hstored r w i a Hin Er Ha Hi) as Hst.
    destruct (moved r w) eqn:Hm.
    - apply (adjustedRow_written now (reflow_adjustments res) a
               {| adj_id := i; newTime := w |}).
      + rewrite Hadj. now apply adjustments_ids_NoDup.
      + rewrite Hadj. apply in_flat_map. exists (r, w).
        split; [exact Hin|]. unfold adjustmentFor. cbn [fst snd].
        rewrite Er, Hm. now left.
      + simpl. now symmetry.
    - rewrite adjustedRow_untouched.
      + rewrite <- Hst. unfold moved in Hm.
        destruct (rec_scheduledAt r) as [t|]; [|discriminate].
        apply negb_false_iff, Z.eqb_eq in Hm. now subst.
      + rewrite Hadj. intros Hin'.
        apply in_map_iff in Hin' as (adj & Eid & Hin').
        apply in_flat_map in Hin' as ([r' w'] & Hin' & Hadj').
        unfold adjustmentFor in Hadj'. cbn [fst snd] in Hadj'.
        destruct (rec_id r') as [i'|] eqn:Er'; [|contradiction].
        destruct (moved r' w') eqn:Hm'; [|contradiction].
        destruct Hadj' as [<- | []]. simpl in Eid.
        assert (E : (r, w) = (r', w')).
        { apply (plan_entry_unique plan r r' w w' i); try assumption.
          congruence. }
        inversion E; subst. congruence. }
  split; [exact Hentry|]. split; [exact Hplace|]. split; [|split].
  - intros a Ha Hnot. subst s'. unfold storeAfter. rewrite apply_run. simpl.
    apply in_map_iff. exists a. split; [|exact Ha].
    apply adjustedRow_untouched. rewrite Hadj. intros Hin.
    apply Hnot. apply in_map_iff in Hin as (adj & Eid & Hin).
    apply in_flat_map in Hin as ([r w] & Hin & Hadj').
    unfold adjustmentFor in Hadj'. cbn [fst snd] in Hadj'.
    destruct (rec_id r) as [i|] eqn:Er; [|contradiction].
    destruct (moved r w); [|contradiction].
    destruct Hadj' as [<- | []]. simpl in Eid. subst i.
    rewrite <- (existingIds_combined s desiredDate newAnnouncementPriority
                  userRole).
    apply existingIds_In. exists r. split; [|exact Er].
    apply (sort_In compareRecords). rewrite <- Hfst.
    change r with (fst (r, w)). now apply in_map.
  - intros a' b' Ha' Hb' Hia Hib Hne E.
    destruct (Hentry _ Hia) as (ra & wa & Hina & Era).
    destruct (Hentry _ Hib) as (rb & wb & Hinb & Erb).
    rewrite (Hplace ra wa _ a' Hina Era Ha' eq_refl) in E.
    rewrite (Hplace rb wb _ b' Hinb Erb Hb' eq_refl) in E.
    inversion E; subst wb.
    assert (ra = rb) by (eapply NoDup_snd_functional; eassumption).
    subst rb. congruence.
  - intros a' Ha' Hia E.
    destruct (Hentry _ Hia) as (ra & wa & Hina & Era).
    rewrite (Hplace ra wa _ a' Hina Era Ha' eq_refl) in E.
    inversion E; subst wa.
    assert (ra = newRecord (Js.setSeconds00 desiredDate)
                   newAnnouncementPriority userRole)
      by (eapply NoDup_snd_functional; eassumption).
    subst ra. discriminate.
Qed.

(** X8.  With row ids and user ids unique, writing the adjustments a
    reflow returned puts every item of the conflict set on the window the
    reflow planned for it and changes no other row.  Afterwards the items
    of the conflict set sit on pairwise distinct window starts, none of
    them the time returned for the new item. *)
Theorem reflow_then_apply_realises_plan
    (s : Store) (desiredDate newAnnouncementPriority : Z) (userRole : UserRole)
    (res : ReflowResult) (now : Z) :
  NoDup (map row_id (announcements s)) ->
  NoDup (map user_id (users s)) ->
  reflowSchedulesForSuperAdmin normalizeUserRole desiredDate
    newAnnouncementPriority userRole s = (Returned res, s) ->
  let s' := storeAfter now (reflow_adjustments res) s in
  let plan :=
    reflowPlan normalizeUserRole s desiredDate newAnnouncementPriority userRole in
  let conflictIds := map conflict_id (conflictSet s desiredDate) in
  (forall i, In i conflictIds ->
     exists r w, In (r, w) plan /\ rec_id r = Some i)
  /\ (forall r w i a',
        In (r, w) plan -> rec_id r = Some i ->
        In a' (announcements s') -> row_id a' = i ->
        row_scheduled_at a' = Some w)
  /\ (forall a, In a (announcements s) -> ~ In (row_id a) conflictIds ->
        In a (announcements s'))
  /\ (forall a' b',
        In a' (announcements s') -> In b' (announcements s') ->
        In (row_id a') conflictIds -> In (row_id b') conflictIds ->
        row_id a' <> row_id b' ->
        row_scheduled_at a' <> row_scheduled_at b')
  /\ (forall a',
        In a' (announcements s') -> In (row_id a') conflictIds ->
        row_scheduled_at a' <> Some (reflow_scheduledAt res)).
Proof.
  intros Hrows Husers Hrun. now apply reflow_apply_core.
Qed.

(** X9.  The reflow does not look at the windows it moves items to.  If
    an existing item is given a window other than the requested one and
    that window already holds another item with a conflicting status,
    then after the adjustments are written the two items share the
    window. *)
Theorem reflow_moves_onto_occupied_window
    (s : Store) (desiredDate newAnnouncementPriority : Z) (userRole : UserRole)
    (res : ReflowResult) (now : Z)
    (r : ReflowRecord) (w i : Z) (x : AnnouncementRow) (t : Z) :
  NoDup (map row_id (announcements s)) ->
  NoDup (map user_id (users s)) ->
  reflowSchedulesForSuperAdmin normalizeUserRole desiredDate
    newAnnouncementPriority userRole s = (Returned res, s) ->
  In (r, w) (reflowPlan normalizeUserRole s desiredDate
               newAnnouncementPriority userRole) ->
  rec_id r = Some i ->
  w <> Js.setSeconds00 desiredDate ->
  In x (announcements s) ->
  row_scheduled_at x = Some t ->
  w <= t < w + windowWidth ->
  In (row_status x)
     ["scheduled"%string; "under_review"%string; "active"%string] ->
  exists a',
    In a' (announcements (storeAfter now (reflow_adjustments res) s))
    /\ In x (announcements (storeAfter now (reflow_adjustments res) s))
    /\ row_id a' = i
    /\ row_id a' <> row_id x
    /\ row_scheduled_at a' = Some w
    /\ In (row_status a')
          ["scheduled"%string; "under_review"%string; "active"%string].
Proof.
  intros Hrows Husers Hrun Hin Er Hw Hx Ht Hrange Hst.
  destruct (reflow_apply_core s desiredDate newAnnouncementPriority userRole
              res now Hrows Husers Hrun) as (_ & Hplace & Hkeep & _).
  destruct (plan_entry normalizeUserRole s desiredDate
              newAnnouncementPriority userRole r w Hin) as [(k & Hk) Hcomb].
  assert (Hlate : Js.setSeconds00 desiredDate + windowWidth <= w).
  { destruct k as [|k]; [rewrite windowOf_0 in Hk; contradiction|].
    subst w. unfold windowOf, windowWidth. lia. }
  rewrite combinedList_eq in Hcomb.
  apply in_app_or in Hcomb as [Hc | [<- | []]]; [|discriminate].
  apply in_map_iff in Hc as (c & <- & Hc). simpl in Er. inversion Er; subst i.
  destruct (proj1 (queryConflicts_rows s _ _) c Hc)
    as (a & ta & Ha & Hid & _ & _ & Hta & Hra & Hsa).
  assert (Hxout : ~ In (row_id x) (map conflict_id (conflictSet s desiredDate))).
  { intros Hi. apply in_map_iff in Hi as (c' & Hid' & Hc').
    destruct (proj1 (queryConflicts_rows s _ _) c' Hc')
      as (a0 & t0 & Ha0 & Hid0 & _ & _ & Ht0 & Hr0 & _).
    assert (a0 = x).
    { apply (NoDup_map_injective row_id (announcements s)); try assumption.
      congruence. }
    subst a0. rewrite Ht in Ht0. inversion Ht0; subst t0.
    unfold Js.addMinutes, SLOT_INTERVAL_MINUTES, Js.msPerMinute in Hr0.
    unfold windowWidth in Hlate. lia. }
  exists (adjustedRow now (reflow_adjustments res) a).
  destruct (adjustedRow_keeps now (reflow_adjustments res) a)
    as (Hid' & _ & _ & _ & Hst').
  assert (Ha' : In (adjustedRow now (reflow_adjustments res) a)
                   (announcements (storeAfter now (reflow_adjustments res) s))).
  { unfold storeAfter. rewrite apply_run. simpl. now apply in_map. }
  split; [exact Ha'|]. split; [now apply Hkeep|].
  split; [congruence|]. split.
  - rewrite Hid'. intros E. apply Hxout. rewrite <- E, <- Hid.
    now apply in_map.
  - split; [|now rewrite Hst'].
    apply (Hplace _ w (conflict_id c) _ Hin eq_refl Ha'). congruence.
Qed.

End ReflowThenApply.

Section ReflowMoreWitnesses.
Import Utils Route ReflowSpec ApplySpec Scenarios ScenariosMore.

Lemma staff_ids_NoDup : NoDup (map user_id staff).
Proof.
  repeat constructor; simpl; intros H;
    repeat (destruct H as [H | H]; [discriminate H|]); exact H.
Defined.

Lemma storeQueue_ids_NoDup : NoDup (map row_id (announcements storeQueue)).
Proof.
  repeat constructor; simpl; intros H;
    repeat (destruct H as [H | H]; [discriminate H|]); exact H.
Defined.

Lemma storeB_ids_NoDup : NoDup (map row_id (announcements storeB)).
Proof.
  repeat constructor; simpl; intros H;
    repeat (destruct H as [H | H]; [discriminate H|]); exact H.
Defined.

Lemma reflow_storeB :
  reflowSchedulesForSuperAdmin Utils.normalizeUserRole tenOClock 0
    super_admin storeB = (Returned movedSeven, storeB).
Proof. reflexivity. Defined.

Lemma reflow_storeQueue :
  reflowSchedulesForSuperAdmin Utils.normalizeUserRole tenOClock 0
    super_admin storeQueue = (Returned movedSeven, storeQueue).
Proof. reflexivity. Defined.

Lemma reflow_returns_within_conflict_count_witness :
  conflictSet emptyStore tenOClock = []
  /\ exists res,
       reflowSchedulesForSuperAdmin Utils.normalizeUserRole tenOClock 2
         super_admin emptyStore = (Returned res, emptyStore)
       /\ res = {| reflow_scheduledAt := Js.setSeconds00 tenOClock;
                   reflow_autoAdjusted := false;
                   reflow_adjustments := [] |}.
Proof.
  split; [reflexivity|].
  destruct (reflow_returns_within_conflict_count Utils.normalizeUserRole
              emptyStore tenOClock 2 super_admin)
    as (res & Hrun & _ & _ & Hempty).
  exists res. split; [exact Hrun | exact (Hempty eq_refl)].
Defined.

Lemma reflow_with_conflicts_always_adjusts_witness :
  conflictSet storeB tenOClock <> []
  /\ reflowSchedulesForSuperAdmin Utils.normalizeUserRole tenOClock 0
       super_admin storeB = (Returned movedSeven, storeB)
  /\ reflow_autoAdjusted movedSeven = true.
Proof.
  assert (Hne : conflictSet storeB tenOClock <> [])
    by (vm_compute; discriminate).
  split; [exact Hne|]. split; [exact reflow_storeB|].
  exact (proj1 (reflow_with_conflicts_always_adjusts Utils.normalizeUserRole
                  storeB tenOClock 0 super_admin movedSeven Hne
                  reflow_storeB)).
Defined.

Lemma reflow_priority_extremes_witness :
  (forall c, In c (conflictSet storeB tenOClock) ->
     0 < Js.orElse (conflict_priority_level c) 3)
  /\ reflowSchedulesForSuperAdmin Utils.normalizeUserRole tenOClock 0
       super_admin storeB = (Returned movedSeven, storeB)
  /\ reflow_scheduledAt movedSeven = Js.setSeconds00 tenOClock.
Proof.
  assert (Hall : forall c, In c (conflictSet storeB tenOClock) ->
                   0 < Js.orElse (conflict_priority_level c) 3).
  { intros c [<- | []]. reflexivity. }
  split; [exact Hall|]. split; [exact reflow_storeB|].
  exact (proj1 (reflow_priority_extremes Utils.normalizeUserRole
                  storeB tenOClock 0 super_admin movedSeven reflow_storeB)
           Hall).
Defined.

Lemma reflow_then_apply_realises_plan_witness :
  NoDup (map row_id (announcements storeB))
  /\ NoDup (map user_id (users storeB))
  /\ reflowSchedulesForSuperAdmin Utils.normalizeUserRole tenOClock 0
       super_admin storeB = (Returned movedSeven, storeB)
  /\ forall a',
       In a' (announcements
                (storeAfter 99 (reflow_adjustments movedSeven) storeB)) ->
       In (row_id a') (map conflict_id (conflictSet storeB tenOClock)) ->
       row_scheduled_at a' <> Some (reflow_scheduledAt movedSeven).
Proof.
  split; [exact storeB_ids_NoDup|]. split; [exact staff_ids_NoDup|].
  split; [exact reflow_storeB|].
  exact (proj2 (proj2 (proj2 (proj2
           (reflow_then_apply_realises_plan Utils.normalizeUserRole
              storeB tenOClock 0 super_admin movedSeven 99
              storeB_ids_NoDup staff_ids_NoDup reflow_storeB))))).
Defined.

Lemma reflow_moves_onto_occupied_window_witness :
  let x := scheduledRow 8 (clock 10 5 0) (Some 3) (Some 2) in
  let r := {| rec_id := Some 7;
              priorityLevel := 3;
              rolePriority := 4;
              rec_scheduledAt := Some (clock 10 0 0) |} in
  NoDup (map row_id (announcements storeQueue))
  /\ In (r, clock 10 5 0)
        (reflowPlan Utils.normalizeUserRole storeQueue tenOClock 0 super_admin)
  /\ clock 10 5 0 <> Js.setSeconds00 tenOClock
  /\ In x (announcements storeQueue)
  /\ clock 10 5 0 <= clock 10 5 0 < clock 10 5 0 + windowWidth
  /\ exists a',
       In a' (announcements
                (storeAfter 99 (reflow_adjustments movedSeven) storeQueue))
       /\ In x (announcements
                  (storeAfter 99 (reflow_adjustments movedSeven) storeQueue))
       /\ row_id a' = 7
       /\ row_id a' <> row_id x
       /\ row_scheduled_at a' = Some (clock 10 5 0)
       /\ In (row_status a')
             ["scheduled"%string; "under_review"%string; "active"%string].
Proof.
  intros x r.
  assert (Hplan : In (r, clock 10 5 0)
                     (reflowPlan Utils.normalizeUserRole storeQueue tenOClock
                        0 super_admin))
    by (vm_compute; right; left; reflexivity).
  assert (Hw : clock 10 5 0 <> Js.setSeconds00 tenOClock)
    by (vm_compute; discriminate).
  assert (Hx : In x (announcements storeQueue)) by (right; left; reflexivity).
  assert (Hr : clock 10 5 0 <= clock 10 5 0 < clock 10 5 0 + windowWidth)
    by (vm_compute; split; [discriminate | reflexivity]).
  split; [exact storeQueue_ids_NoDup|]. split; [exact Hplan|].
  split; [exact Hw|]. split; [exact Hx|]. split; [exact Hr|].
  exact (reflow_moves_onto_occupied_window Utils.normalizeUserRole
           storeQueue tenOClock 0 super_admin movedSeven 99
           r (clock 10 5 0) 7 x (clock 10 5 0)
           storeQueue_ids_NoDup staff_ids_NoDup reflow_storeQueue
           Hplan eq_refl Hw Hx eq_refl Hr (or_introl eq_refl)).
Defined.

End ReflowMoreWitnesses.

(* ================================================================== *)
(** * normalizeTargetYears *)
(* ================================================================== *)

Section TargetYears.
Import JsMore RouteMore.

(** The entry is, or parses to, the integer [y]. *)
Lemma codes_In (entries : list JsEntry) (y : Z) :
  In y (flat_map intakeYearCode (flat_map notNull (map entryNumber entries)))
  <-> 1 <= y <= 99
      /\ exists e, In e entries /\ entryNumber e = Some (Integer y).
Proof.
  rewrite in_flat_map. split.
  - intros (n & Hn & Hy). apply in_flat_map in Hn as (o & Ho & Hn).
    apply in_map_iff in Ho as (e & <- & He).
    destruct (entryNumber e) as [v|] eqn:Ev; [|contradiction].
    destruct Hn as [<- | []].
    destruct v as [m|]; [|contradiction]. simpl in Hy.
    destruct (Z.leb_spec 1 m); [|contradiction].
    destruct (Z.leb_spec m 99); [|contradiction].
    destruct Hy as [<- | []]. split; [lia|]. now exists e.
  - intros (Hr & e & He & Ev). exists (Integer y). split.
    + apply in_flat_map. exists (Some (Integer y)).
      split; [|now left]. rewrite <- Ev. now apply in_map.
    + simpl. destruct (Z.leb_spec 1 y); [|lia].
      destruct (Z.leb_spec y 99); [|lia]. now left.
Qed.

Lemma ascending_sorted (l : list Z) :
  StronglySorted Z.le (Js.sort ascending l).
Proof.
  apply sort_sorted_by; unfold ascending; intros; lia.
Qed.

Lemma sorted_le_NoDup_lt (l : list Z) :
  StronglySorted Z.le l -> NoDup l -> StronglySorted Z.lt l.
Proof.
  induction 1 as [|x l Hs IH Hf]; intros Hnd; constructor;
    inversion Hnd as [|? ? Hx Hnd']; subst.
  - now apply IH.
  - rewrite Forall_forall in *. intros y Hy.
    specialize (Hf y Hy).
    assert (x <> y) by (intros ->; contradiction). lia.
Qed.

Lemma sorted_lt_length (lo hi : Z) (l : list Z) :
  StronglySorted Z.lt l ->
  Forall (fun y => lo <= y <= hi) l ->
  l <> [] ->
  Z.of_nat (List.length l) <= hi - lo + 1.
Proof.
  intros Hs; revert lo; induction Hs as [|x l Hs IH Hf]; intros lo Hr Hne;
    [contradiction|].
  inversion Hr as [|? ? Hx Hr']; subst.
  destruct l as [|y l]; [simpl; lia|].
  assert (Hr'' : Forall (fun z => x + 1 <= z <= hi) (y :: l)).
  { rewrite Forall_forall in *. intros z Hz.
    specialize (Hf z Hz). specialize (Hr' z Hz). lia. }
  specialize (IH (x + 1) Hr'' ltac:(discriminate)).
  change (List.length (x :: y :: l)) with (S (List.length (y :: l))). lia.
Qed.

Lemma normalize_array (entries : list JsEntry) :
  let codes :=
    Js.sort ascending
      (setFrom Z.eqb
         (flat_map intakeYearCode
            (flat_map notNull (map entryNumber entries)))) in
  normalizeTargetYears (VArray entries)
  = match codes with
    | [] => None
    | _ :: _ => Some codes
    end.
Proof.
  intros codes. unfold normalizeTargetYears. fold codes.
  now destruct codes.
Qed.

Lemma normalized_In (entries : list JsEntry) (y : Z) :
  In y (Js.sort ascending
          (setFrom Z.eqb
             (flat_map intakeYearCode
                (flat_map notNull (map entryNumber entries)))))
  <-> 1 <= y <= 99
      /\ exists e, In e entries /\ entryNumber e = Some (Integer y).
Proof.
  rewrite sort_In, (setFrom_In Z.eqb Z.eqb_eq). apply codes_In.
Qed.

Lemma normalizeTargetYears_shape_core (value : JsValue) (l : list Z) :
  normalizeTargetYears value = Some l ->
  l <> []
  /\ StronglySorted Z.lt l
  /\ Forall (fun y => 1 <= y <= 99) l
  /\ NoDup l.
Proof.
  destruct value as [entries|]; [|discriminate].
  rewrite normalize_array.
  set (codes := Js.sort ascending _).
  assert (Hnd : NoDup codes).
  { eapply Permutation_NoDup; [apply Permutation_sym, sort_perm|].
    apply (setFrom_NoDup Z.eqb Z.eqb_eq). }
  assert (Hr : Forall (fun y => 1 <= y <= 99) codes).
  { rewrite Forall_forall. intros y Hy.
    now apply normalized_In in Hy as [Hy _]. }
  assert (Hs : StronglySorted Z.lt codes)
    by (apply sorted_le_NoDup_lt; [apply ascending_sorted | exact Hnd]).
  destruct codes as [|c cs] eqn:E; [discriminate|].
  intros H; inversion H; subst l.
  split; [discriminate|]. split; [exact Hs|]. split; [exact Hr | exact Hnd].
Qed.

(** X10.  What [normalizeTargetYears] returns is either null or a
    non-empty list of intake codes between 1 and 99 in strictly
    increasing order: no duplicate, never the code 0, at most 99
    entries; it never returns an empty list. *)
Theorem normalizeTargetYears_shape (value : JsValue) (l : list Z) :
  normalizeTargetYears value = Some l ->
  l <> []
  /\ StronglySorted Z.lt l
  /\ Forall (fun y => 1 <= y <= 99) l
  /\ NoDup l
  /\ ~ In 0 l
  /\ (List.length l <= 99)%nat.
Proof.
  intros H.
  destruct (normalizeTargetYears_shape_core value l H) as (Hne & Hs & Hr & Hnd).
  split; [exact Hne|]. split; [exact Hs|]. split; [exact Hr|].
  split; [exact Hnd|]. split.
  - intros H0. rewrite Forall_forall in Hr. specialize (Hr 0 H0). lia.
  - pose proof (sorted_lt_length 1 99 _ Hs Hr Hne). lia.
Qed.

Lemma normalizeTargetYears_shape_witness :
  let value := VArray [EString "25"; EInteger 23; EOther; EInteger 25;
                       EInteger 0; EString " 24x"; ENonInteger] in
  normalizeTargetYears value = Some [23; 24; 25]
  /\ StronglySorted Z.lt [23; 24; 25]
  /\ ~ In 0 [23; 24; 25].
Proof.
  intros value.
  destruct (normalizeTargetYears_shape value [23; 24; 25] eq_refl)
    as (_ & Hs & _ & _ & H0 & _).
  split; [reflexivity|]. split; [exact Hs | exact H0].
Defined.

(** X11.  A code is in the result of [normalizeTargetYears] exactly when
    it lies between 1 and 99 and some entry of the array is that number
    or a string that [parseInt] reads as it.  The result is null exactly
    when the value is not an array or no entry gives such a code. *)
Theorem normalizeTargetYears_membership (value : JsValue) :
  (forall y,
      (exists l, normalizeTargetYears value = Some l /\ In y l)
      <-> 1 <= y <= 99
          /\ exists entries e,
               value = VArray entries /\ In e entries
               /\ (e = EInteger y
                   \/ exists s, e = EString s /\ parseInt10 s = Some y))
  /\ (normalizeTargetYears value = None
      <-> forall entries e y,
            value = VArray entries -> In e entries ->
            entryNumber e = Some (Integer y) -> ~ 1 <= y <= 99).
Proof.
  assert (Hentry : forall e y,
             entryNumber e = Some (Integer y)
             <-> e = EInteger y
                 \/ exists s, e = EString s /\ parseInt10 s = Some y).
  { intros e y. destruct e as [s|n| |]; simpl.
    - destruct (parseInt10 s) as [m|] eqn:E; split.
      + intros H; inversion H; subst. right. now exists s.
      + intros [H | (s' & H & H')]; [discriminate|].
        inversion H; subst. congruence.
      + discriminate.
      + intros [H | (s' & H & H')]; [discriminate|].
        inversion H; subst. congruence.
    - split.
      + intros H; inversion H; now left.
      + intros [H | (s & H & _)]; [now inversion H | discriminate].
    - split; [discriminate | intros [H | (s & H & _)]; discriminate].
    - split; [discriminate | intros [H | (s & H & _)]; discriminate]. }
  destruct value as [entries|].
  - rewrite normalize_array.
    set (codes := Js.sort ascending _).
    pose proof (normalized_In entries) as Hin. fold codes in Hin.
    split.
    + intros y. split.
      * intros (l & Hl & Hy).
        destruct codes as [|c cs]; [discriminate|]. inversion Hl; subst l.
        apply Hin in Hy as (Hr & e & He & Ev).
        split; [exact Hr|]. exists entries, e.
        split; [reflexivity|]. split; [exact He | now apply Hentry].
      * intros (Hr & entries' & e & E & He & Hd). inversion E; subst entries'.
        assert (Hy : In y codes)
          by (apply Hin; split; [exact Hr|]; exists e; split;
              [exact He | now apply Hentry]).
        destruct codes as [|c cs]; [contradiction|].
        exists (c :: cs). now split.
    + split.
      * intros Hnone entries' e y E He Ev Hr. inversion E; subst entries'.
        assert (Hy : In y codes)
          by (apply Hin; split; [exact Hr|]; now exists e).
        destruct codes; [contradiction | discriminate].
      * intros Hno. destruct codes as [|c cs] eqn:E; [reflexivity|]. exfalso.
        assert (Hc : In c (c :: cs)) by now left.
        apply Hin in Hc as (Hr & e & He & Ev).
        exact (Hno entries e c eq_refl He Ev Hr).
  - split.
    + intros y. split.
      * intros (l & Hl & _). discriminate.
      * intros (_ & entries & e & E & _). discriminate.
    + split; [|reflexivity]. intros _ entries e y E. discriminate.
Qed.

Lemma normalizeTargetYears_membership_witness :
  let value := VArray [EString "25"; EInteger 23; EInteger 100] in
  (exists l, normalizeTargetYears value = Some l /\ In 25 l)
  /\ 1 <= 25 <= 99
  /\ normalizeTargetYears (VArray [EInteger 100; EString "x"]) = None.
Proof.
  intros value.
  assert (Hr : 1 <= 25 <= 99) by (split; discriminate).
  split; [|split; [exact Hr | reflexivity]].
  apply (proj1 (normalizeTargetYears_membership value) 25).
  split; [exact Hr|].
  exists [EString "25"; EInteger 23; EInteger 100], (EString "25").
  split; [reflexivity|]. split; [now left|].
  right. exists "25"%string. split; reflexivity.
Defined.

(** X12.  Normalising is idempotent: a stored list of target years, read
    back as an array of numbers, normalises to itself. *)
Theorem normalizeTargetYears_idempotent (value : JsValue) (l : list Z) :
  normalizeTargetYears value = Some l ->
  normalizeTargetYears (VArray (map EInteger l)) = Some l.
Proof.
  intros H.
  destruct (normalizeTargetYears_shape_core value l H)
    as (Hne & Hs & Hr & Hnd).
  rewrite normalize_array.
  assert (Hcodes : flat_map intakeYearCode
                     (flat_map notNull (map entryNumber (map EInteger l)))
                   = l).
  { clear -Hr. induction l as [|x l IH]; simpl; [reflexivity|].
    inversion Hr as [|? ? Hx Hr']; subst.
    destruct (Z.leb_spec 1 x); [|lia]. destruct (Z.leb_spec x 99); [|lia].
    simpl. now rewrite IH. }
  rewrite Hcodes, (setFrom_fixed Z.eqb Z.eqb_eq l Hnd), sort_fixed.
  - destruct l; [contradiction | reflexivity].
  - eapply StronglySorted_impl; [|exact Hs].
    intros x y Hxy. unfold ascending. lia.
Qed.

Lemma normalizeTargetYears_idempotent_witness :
  normalizeTargetYears (VArray [EInteger 25; EString "23"; EInteger 25])
  = Some [23; 25]
  /\ normalizeTargetYears (VArray (map EInteger [23; 25])) = Some [23; 25].
Proof.
  split; [reflexivity|].
  exact (normalizeTargetYears_idempotent
           (VArray [EInteger 25; EString "23"; EInteger 25]) [23; 25] eq_refl).
Defined.

End TargetYears.

(* ================================================================== *)
(** * The display path, further *)
(* ================================================================== *)

Section DisplayMore.
Import Utils OrderSpec StableSort GateSpec DisplaySpec JsMore RouteMore.

Ltac comparator_split :=
  unfold compareAnnouncements, SAME_TIME_THRESHOLD, rankLe, priorityOf;
  repeat match goal with
    | |- context [is_emergency ?a] => destruct (is_emergency a); simpl
    end;
  repeat match goal with
    | |- context [Z.leb ?x ?y] => destruct (Z.leb_spec x y); simpl
    | |- context [Z.eqb ?x ?y] => destruct (Z.eqb_spec x y); simpl
    | |- context [hasPriority ?n ?a] => destruct (hasPriority n a); simpl
    end.

Lemma compare_le_rankLe (now : Z) (a b : Announcement) :
  compareAnnouncements now a b <= 0 -> rankLe a b.
Proof.
  comparator_split; intros; try lia;
    first [left; split; reflexivity | right; split; [reflexivity | lia]].
Qed.

Lemma stable_arrangement_ranked (now : Z) (l l' : list Announcement) :
  StableArrangement (compareAnnouncements now) l l' ->
  StronglySorted rankLe l'.
Proof.
  intros (la & _ & Hs & <-).
  induction Hs as [|x la Hs IH Hf]; simpl; constructor; [exact IH|].
  rewrite Forall_forall in *. intros b Hb.
  apply in_map_iff in Hb as (y & <- & Hy).
  apply (compare_le_rankLe now).
  destruct (Hf y Hy) as [Hlt | [Heq _]]; lia.
Qed.

Lemma ranked_positions (l : list Announcement) :
  StronglySorted rankLe l ->
  forall i j a b,
    (i < j)%nat -> nth_error l i = Some a -> nth_error l j = Some b ->
    (is_emergency b = true -> is_emergency a = true)
    /\ (is_emergency a = is_emergency b -> priorityOf a <= priorityOf b).
Proof.
  intros Hs i j a b Hij Hi Hj.
  assert (Hr : rankLe a b).
  { revert i j Hij Hi Hj.
    induction Hs as [|x s Hs IH Hf]; intros i j Hij Hi Hj.
    - destruct i; discriminate.
    - destruct j as [|j]; [lia|]. simpl in Hj.
      destruct i as [|i].
      + simpl in Hi. inversion Hi; subst x.
        rewrite Forall_forall in Hf. apply Hf.
        eapply nth_error_In; exact Hj.
      + simpl in Hi. apply (IH i j); [lia | assumption | assumption]. }
  unfold rankLe in Hr.
  destruct Hr as [[Ha Hb] | [He Hp]].
  - split; [congruence | intros E; congruence].
  - split; [congruence | intros _; exact Hp].
Qed.

(** X13.  Where the comparator determines the order, emergencies come
    first and then the priority level decides: in every arrangement of a
    list that agrees with the comparator on every pair, every emergency
    item precedes every non-emergency item, and within each of the two
    groups the items are by ascending priority level (3 when absent);
    and whenever the comparator is transitive on the items of the list,
    the presentation ordering returns such an arrangement. *)
Theorem presentation_order_emergency_then_priority
    (now : Z) (l : list Announcement) (role : UserRole) :
  (forall l',
      StableArrangement (compareAnnouncements now) l l' ->
      forall i j a b,
        (i < j)%nat -> nth_error l' i = Some a -> nth_error l' j = Some b ->
        (is_emergency b = true -> is_emergency a = true)
        /\ (is_emergency a = is_emergency b -> priorityOf a <= priorityOf b))
  /\ (TransitiveOn (compareAnnouncements now) l ->
      StronglySorted rankLe (sortAnnouncementsByPriority now l role)
      /\ (forall i j a b,
            (i < j)%nat ->
            nth_error (sortAnnouncementsByPriority now l role) i = Some a ->
            nth_error (sortAnnouncementsByPriority now l role) j = Some b ->
            (is_emergency b = true -> is_emergency a = true)
            /\ (is_emergency a = is_emergency b ->
                priorityOf a <= priorityOf b))).
Proof.
  split.
  - intros l' Hl'. apply ranked_positions.
    exact (stable_arrangement_ranked now l l' Hl').
  - intros Ht.
    assert (Hs : StronglySorted rankLe (sortAnnouncementsByPriority now l role)).
    { apply (stable_arrangement_ranked now l).
      apply sort_is_stable_arrangement; [|exact Ht].
      apply compareAnnouncements_antisymmetric. }
    split; [exact Hs | now apply ranked_positions].
Qed.

Lemma display_three_transitive :
  TransitiveOn (compareAnnouncements 0)
    [ScenariosMore.routine; ScenariosMore.pressing; ScenariosMore.alarm].
Proof.
  intros x y z Hx Hy Hz. simpl in Hx, Hy, Hz.
  destruct Hx as [<- | [<- | [<- | []]]];
    destruct Hy as [<- | [<- | [<- | []]]];
    destruct Hz as [<- | [<- | [<- | []]]];
    vm_compute; intros H1 H2 H3;
    first [discriminate H3 | apply H1; reflexivity | apply H2; reflexivity].
Defined.

Lemma presentation_order_emergency_then_priority_witness :
  let shown :=
    [ScenariosMore.routine; ScenariosMore.pressing; ScenariosMore.alarm] in
  TransitiveOn (compareAnnouncements 0) shown
  /\ StableArrangement (compareAnnouncements 0) shown
       [ScenariosMore.alarm; ScenariosMore.pressing; ScenariosMore.routine]
  /\ sortAnnouncementsByPriority 0 shown student
     = [ScenariosMore.alarm; ScenariosMore.pressing; ScenariosMore.routine]
  /\ (is_emergency ScenariosMore.pressing = true ->
      is_emergency ScenariosMore.alarm = true)
  /\ (is_emergency ScenariosMore.pressing = is_emergency ScenariosMore.routine ->
      priorityOf ScenariosMore.pressing <= priorityOf ScenariosMore.routine).
Proof.
  intros shown.
  assert (Hs : StableArrangement (compareAnnouncements 0) shown
                 [ScenariosMore.alarm; ScenariosMore.pressing;
                  ScenariosMore.routine]).
  { exact (sort_is_stable_arrangement (compareAnnouncements 0) shown
             (compareAnnouncements_antisymmetric 0)
             display_three_transitive). }
  destruct (presentation_order_emergency_then_priority 0 shown student)
    as [Hany Hsort].
  destruct (Hsort display_three_transitive) as [_ H].
  split; [exact display_three_transitive|]. split; [exact Hs|].
  split; [reflexivity|].
  split.
  - exact (proj1 (Hany _ Hs 0%nat 1%nat ScenariosMore.alarm
                    ScenariosMore.pressing (Nat.lt_0_succ 0)
                    eq_refl eq_refl)).
  - exact (proj2 (H 1%nat 2%nat ScenariosMore.pressing ScenariosMore.routine
                    (Nat.lt_succ_diag_r 1) eq_refl eq_refl)).
Defined.

(** X14.  Visibility only grows with time: an item the gate shows to a
    viewer at some instant is shown to the same viewer at every later
    instant. *)
Theorem visibility_grows_with_time (now later : Z) (a : Announcement)
    (role : UserRole) (isAdmin : option bool) (userId : option Z)
    (isSuperAdmin : option bool) (code : Js.OptNumber) :
  now <= later ->
  isVisibleToUser now a role isAdmin userId isSuperAdmin code = true ->
  isVisibleToUser later a role isAdmin userId isSuperAdmin code = true.
Proof.
  unfold isVisibleToUser. intros Hle.
  destruct (negb (hasAdminAccess role) && Js.notFlag isSuperAdmin);
    [|trivial].
  destruct (String.eqb (status a) "scheduled"); [trivial|].
  destruct (Js.truthyString (category a)
            && String.eqb (Js.toLowerCase (category a)) "scheduled");
    [trivial|].
  destruct (scheduled_at a) as [t|]; [|trivial].
  destruct (Z.ltb_spec now t); [discriminate|].
  destruct (Z.ltb_spec later t); [lia | trivial].
Qed.

Lemma visibility_grows_with_time_witness :
  let timed :=
    {| id := Some 4; status := "active"; category := "general";
       scheduled_at := Some 1000; target_years := None;
       is_emergency := false; priority_level := None;
       created_at := Some 0; priority_until := None |} in
  1000 <= 2000
  /\ isVisibleToUser 1000 timed student None None None Js.Undefined = true
  /\ isVisibleToUser 2000 timed student None None None Js.Undefined = true
  /\ isVisibleToUser 999 timed student None None None Js.Undefined = false.
Proof.
  intros timed.
  assert (H : 1000 <= 2000) by discriminate.
  split; [exact H|]. split; [reflexivity|]. split; [|reflexivity].
  exact (visibility_grows_with_time 1000 2000 timed student None None None
           Js.Undefined H eq_refl).
Defined.

Lemma audienceFilter_spec (userIntakeCode : option Z) (a : Announcement) :
  audienceFilter userIntakeCode a = true
  <-> (target_years a = None \/ target_years a = Some []
       \/ exists l c, target_years a = Some l
                      /\ userIntakeCode = Some c
                      /\ c <> 0 /\ In c l).
Proof.
  unfold audienceFilter.
  destruct (target_years a) as [[|y l]|].
  - split; [intros _; right; now left | reflexivity].
  - destruct userIntakeCode as [c|]; cbn [nullable Js.falsy].
    + destruct (Z.eqb_spec c 0) as [-> | Hc].
      * split; [discriminate|].
        intros [H | [H | (l' & c' & _ & E & Hc' & _)]]; try discriminate.
        inversion E. congruence.
      * rewrite includes_In. split.
        -- intros Hin. right; right. exists (y :: l), c. tauto.
        -- intros [H | [H | (l' & c' & E1 & E2 & _ & Hin)]];
             try discriminate.
           inversion E1; inversion E2; subst. exact Hin.
    + split; [discriminate|].
      intros [H | [H | (l' & c' & _ & E & _)]]; discriminate.
  - split; [intros _; now left | reflexivity].
Qed.

(** X15.  The listing of [GET] gives admin-level viewers everything and
    filters the others by audience only.  It never drops what the
    visibility gate would show: every item the gate shows to a viewer who
    is not admin-level, with the same intake code, passes the audience
    filter; and an item passes the audience filter exactly when it has no
    target year or the code is a non-zero member of them. *)
Theorem get_listing_covers_gate (data : list Announcement)
    (userIntakeCode : option Z) :
  filteredData true data userIntakeCode = data
  /\ (forall a,
        In a (filteredData false data userIntakeCode)
        <-> In a data
            /\ (target_years a = None \/ target_years a = Some []
                \/ exists l c, target_years a = Some l
                               /\ userIntakeCode = Some c
                               /\ c <> 0 /\ In c l))
  /\ (forall now a role isAdmin userId isSuperAdmin,
        adminLevel role isSuperAdmin = false ->
        In a data ->
        isVisibleToUser now a role isAdmin userId isSuperAdmin
          (nullable userIntakeCode) = true ->
        In a (filteredData false data userIntakeCode)).
Proof.
  split; [reflexivity|].
  split.
  - intros a. unfold filteredData.
    rewrite filter_In, audienceFilter_spec. reflexivity.
  - intros now a role isAdmin userId isSuperAdmin Hna Hin Hvis.
    unfold filteredData. apply filter_In. split; [exact Hin|].
    destruct (audienceFilter userIntakeCode a) eqn:E; [reflexivity|].
    exfalso.
    assert (Hden : isVisibleToUser now a role isAdmin userId isSuperAdmin
                     (nullable userIntakeCode) = false).
    { apply (gate_non_admin now a role isAdmin userId isSuperAdmin
               (nullable userIntakeCode) Hna).
      right; right; right. unfold audienceFilter in E.
      destruct (target_years a) as [[|y l]|]; try discriminate.
      exists (y :: l). split; [reflexivity|]. split; [discriminate|].
      destruct (Js.falsy (nullable userIntakeCode)); [now left | now right]. }
    congruence.
Qed.

Lemma get_listing_covers_gate_witness :
  adminLevel student None = false
  /\ In Scenarios.targeted [Scenarios.targeted]
  /\ isVisibleToUser 0 Scenarios.targeted student None None None
       (nullable (Some 25)) = true
  /\ In Scenarios.targeted
        (filteredData false [Scenarios.targeted] (Some 25)).
Proof.
  assert (Hin : In Scenarios.targeted [Scenarios.targeted]) by now left.
  split; [reflexivity|]. split; [exact Hin|]. split; [reflexivity|].
  exact (proj2 (proj2 (get_listing_covers_gate [Scenarios.targeted] (Some 25)))
           0 Scenarios.targeted student None None None eq_refl Hin eq_refl).
Defined.

End DisplayMore.

(* ================================================================== *)
(** * Student year helpers *)
(* ================================================================== *)

Section StudentYearFacts.
Import JsMore StudentYear DisplaySpec.

Lemma isDigit_digitValue (c : ascii) :
  isDigit c = true ->
  digitValue c = Some (digitOf c) /\ 0 <= digitOf c <= 9.
Proof.
  unfold isDigit, digitValue, digitOf. intros H. rewrite H.
  apply andb_true_iff in H as [H1 H2].
  apply Nat.leb_le in H1, H2. split; [reflexivity | lia].
Qed.

Lemma parseInt10_digit_first (d : ascii) (rest : string) :
  isDigit d = true ->
  parseInt10 (String d rest) = parseDigits 0 false (String d rest).
Proof.
  destruct d as [[] [] [] [] [] [] [] []]; intros H;
    try discriminate H; reflexivity.
Qed.

Lemma parseInt10_two_digits (d1 d2 : ascii) :
  isDigit d1 = true -> isDigit d2 = true ->
  parseInt10 (String d1 (String d2 EmptyString))
  = Some (10 * digitOf d1 + digitOf d2).
Proof.
  intros H1 H2. rewrite parseInt10_digit_first by assumption.
  destruct (isDigit_digitValue d1 H1) as [E1 _].
  destruct (isDigit_digitValue d2 H2) as [E2 _].
  simpl. rewrite E1, E2. f_equal.
Qed.

Lemma batchAt_Some (s : string) (d1 d2 : ascii) :
  batchAt s = Some (d1, d2) ->
  exists l post,
    s = String "."%char (String d1 (String d2 (String l post)))
    /\ isDigit d1 = true /\ isDigit d2 = true /\ isLetter l = true.
Proof.
  unfold batchAt.
  destruct s as [|c [|e1 [|e2 [|l post]]]]; try discriminate;
    try (destruct (Ascii.eqb_spec c "."%char) as [-> | Hc];
         [discriminate
         | destruct c as [[] [] [] [] [] [] [] []]; try discriminate;
           exfalso; apply Hc; reflexivity]).
  destruct (Ascii.eqb_spec c "."%char) as [-> | Hc].
  - destruct (isDigit e1) eqn:H1; [|discriminate].
    destruct (isDigit e2) eqn:H2; [|discriminate].
    destruct (isLetter l) eqn:H3; [|discriminate].
    simpl. intros E; inversion E; subst. now exists l, post.
  - destruct c as [[] [] [] [] [] [] [] []]; try discriminate.
    exfalso. apply Hc. reflexivity.
Qed.

Lemma matchBatch_Some (s : string) (d1 d2 : ascii) :
  matchBatch s = Some (d1, d2) ->
  exists pre rest,
    s = (pre ++ rest)%string
    /\ batchAt rest = Some (d1, d2)
    /\ forall pre' rest',
         s = (pre' ++ rest')%string ->
         (String.length pre' < String.length pre)%nat ->
         batchAt rest' = None.
Proof.
  induction s as [|c s IH].
  - simpl. discriminate.
  - cbn [matchBatch].
    destruct (batchAt (String c s)) as [g|] eqn:E.
    + intros H; inversion H; subst g.
      exists EmptyString, (String c s). split; [reflexivity|].
      split; [exact E|]. intros pre' rest' _ Hlen. simpl in Hlen. lia.
    + intros H. destruct (IH H) as (pre & rest & -> & Hb & Hleft).
      exists (String c pre), rest. split; [reflexivity|].
      split; [exact Hb|].
      intros pre' rest' Heq Hlen.
      destruct pre' as [|c' pre'].
      * simpl in Heq. subst rest'. exact E.
      * simpl in Heq. inversion Heq; subst c'.
        apply (Hleft pre' rest'); [assumption | simpl in Hlen; lia].
Qed.

Lemma matchBatch_None (s : string) :
  matchBatch s = None
  <-> forall pre rest, s = (pre ++ rest)%string -> batchAt rest = None.
Proof.
  induction s as [|c s IH].
  - split.
    + intros _ pre rest E. destruct pre; [|discriminate].
      simpl in E. now subst.
    + reflexivity.
  - cbn [matchBatch]. destruct (batchAt (String c s)) as [g|] eqn:E.
    + split; [discriminate|]. intros H.
      rewrite (H EmptyString (String c s) eq_refl) in E. discriminate.
    + rewrite IH. split.
      * intros H pre rest Heq. destruct pre as [|c' pre].
        -- simpl in Heq. now subst.
        -- simpl in Heq. inversion Heq; subst. now apply (H pre).
      * intros H pre rest Heq. apply (H (String c pre)). simpl. now f_equal.
Qed.

Lemma extractIntakeCodeFromEmail_match (email : option string) :
  (forall c,
      extractIntakeCodeFromEmail email = Some c ->
      0 <= c <= 99
      /\ exists e pre d1 d2 l post,
           email = Some e
           /\ e = (pre ++ String "."%char
                            (String d1 (String d2 (String l post))))%string
           /\ isDigit d1 = true /\ isDigit d2 = true /\ isLetter l = true
           /\ c = 10 * digitOf d1 + digitOf d2
           /\ forall pre' rest',
                e = (pre' ++ rest')%string ->
                (String.length pre' < String.length pre)%nat ->
                batchAt rest' = None)
  /\ (extractIntakeCodeFromEmail email = None
      <-> email = None
          \/ exists e, email = Some e
               /\ forall pre rest, e = (pre ++ rest)%string ->
                                   batchAt rest = None).
Proof.
  unfold extractIntakeCodeFromEmail.
  destruct email as [e|].
  2:{ split; [discriminate|]. split; [now left | reflexivity]. }
  destruct e as [|c0 e0].
  { simpl. split; [discriminate|]. split; [|reflexivity].
    intros _. right. exists EmptyString. split; [reflexivity|].
    intros pre rest E. destruct pre; [|discriminate].
    simpl in E. now subst. }
  cbn [Js.truthyString negb].
  destruct (matchBatch (String c0 e0)) as [[d1 d2]|] eqn:Em.
  - destruct (matchBatch_Some _ _ _ Em) as (pre & rest & Heq & Hb & Hleft).
    destruct (batchAt_Some _ _ _ Hb) as (l & post & -> & H1 & H2 & H3).
    rewrite (parseInt10_two_digits d1 d2 H1 H2).
    destruct (isDigit_digitValue d1 H1) as [_ B1].
    destruct (isDigit_digitValue d2 H2) as [_ B2].
    split.
    + intros c E.
      assert (Hc : c = 10 * digitOf d1 + digitOf d2) by congruence.
      clear E. subst c. split; [lia|].
      exists (String c0 e0), pre, d1, d2, l, post.
      repeat split; try assumption; try reflexivity.
    + split; [discriminate|].
      intros [H | (e & E & Hno)]; [discriminate|].
      inversion E; subst e.
      rewrite (Hno pre _ Heq) in Hb. discriminate.
  - split; [discriminate|]. split; [|reflexivity].
    intros _. right. exists (String c0 e0). split; [reflexivity|].
    now apply matchBatch_None.
Qed.



Lemma intakeCode_range (email : option string) (c : Z) :
  extractIntakeCodeFromEmail email = Some c -> 0 <= c <= 99.
Proof.
  intros H.
  now destruct (proj1 (extractIntakeCodeFromEmail_match email) c H).
Qed.

(** X17.  The intake year of an email lies between 1950 and 2049 and its
    last two digits are the intake code (codes below 50 are read as 20xx,
    the others as 19xx).  The year metadata of an email is present
    exactly when the email has an intake code; it carries that year and a
    year level between 1 and 6. *)
Theorem intake_year_and_metadata (email : option string) (referenceYear : Z) :
  (forall y,
      getIntakeYearFromEmail email = Some y ->
      1950 <= y <= 2049
      /\ extractIntakeCodeFromEmail email = Some (y mod 100)
      /\ (y < 2000 <-> 50 <= y mod 100))
  /\ (getIntakeYearFromEmail email = None
      <-> extractIntakeCodeFromEmail email = None)
  /\ (getYearMetadataFromEmail email referenceYear = None
      <-> extractIntakeCodeFromEmail email = None)
  /\ (forall m,
        getYearMetadataFromEmail email referenceYear = Some m ->
        getIntakeYearFromEmail email = Some (intakeYear m)
        /\ yearLevel m
           = getYearLevelFromIntakeYear (intakeYear m) referenceYear
        /\ 1 <= yearLevel m <= 6).
Proof.
  unfold getYearMetadataFromEmail, getIntakeYearFromEmail.
  destruct (extractIntakeCodeFromEmail email) as [c|] eqn:Ec.
  - pose proof (intakeCode_range email c Ec) as Hc.
    cbv zeta.
    assert (Hy : 1950 <= (if c <? 50 then 2000 else 1900) + c <= 2049
                 /\ ((if c <? 50 then 2000 else 1900) + c) mod 100 = c)
      by (destruct (Z.ltb_spec c 50);
          [replace (2000 + c) with (c + 20 * 100) by lia
          | replace (1900 + c) with (c + 19 * 100) by lia];
          rewrite Z_mod_plus_full, Z.mod_small; lia).
    destruct Hy as [Hy Hm].
    split; [|split; [|split]].
    + intros y E; inversion E; subst y. rewrite Hm.
      split; [exact Hy|]. split; [reflexivity|].
      destruct (Z.ltb_spec c 50); lia.
    + split; discriminate.
    + destruct (Z.eqb_spec ((if c <? 50 then 2000 else 1900) + c) 0);
        [lia | split; discriminate].
    + intros m. destruct (Z.eqb_spec ((if c <? 50 then 2000 else 1900) + c) 0);
        [lia|].
      intros E; inversion E; subst m. simpl.
      split; [reflexivity|]. split; [reflexivity|].
      unfold getYearLevelFromIntakeYear, clamp, MAX_YEAR_LEVEL. lia.
  - split; [discriminate|]. split; [tauto|]. split; [tauto | discriminate].
Qed.

Lemma intake_year_and_metadata_witness :
  getIntakeYearFromEmail (Some "asha.24bcs10@sst.example"%string) = Some 2024
  /\ 1950 <= 2024 <= 2049
  /\ getYearMetadataFromEmail (Some "asha.24bcs10@sst.example"%string) 2026
     = Some {| intakeYear := 2024; yearLevel := 3 |}.
Proof.
  split; [reflexivity|]. split; [|reflexivity].
  exact (proj1 (proj1 (intake_year_and_metadata
                         (Some "asha.24bcs10@sst.example"%string) 2026)
                  2024 eq_refl)).
Defined.

(** X18.  The year level is the number of calendar years since intake
    plus one, kept between 1 and 6: it is exact while that number is
    between 1 and 6, it is 1 for a reference year at or before the intake
    year and 6 from five years after it, and it never decreases as the
    reference year advances. *)
Theorem year_level_clamped (intakeYear referenceYear : Z) :
  1 <= getYearLevelFromIntakeYear intakeYear referenceYear <= 6
  /\ (0 <= referenceYear - intakeYear <= 5 ->
      getYearLevelFromIntakeYear intakeYear referenceYear
      = referenceYear - intakeYear + 1)
  /\ (referenceYear <= intakeYear ->
      getYearLevelFromIntakeYear intakeYear referenceYear = 1)
  /\ (intakeYear + 5 <= referenceYear ->
      getYearLevelFromIntakeYear intakeYear referenceYear = 6)
  /\ (forall later, referenceYear <= later ->
        getYearLevelFromIntakeYear intakeYear referenceYear
        <= getYearLevelFromIntakeYear intakeYear later).
Proof.
  unfold getYearLevelFromIntakeYear, clamp, MAX_YEAR_LEVEL.
  repeat split; intros; lia.
Qed.

Lemma year_level_clamped_witness :
  (0 <= 2026 - 2024 <= 5 /\ getYearLevelFromIntakeYear 2024 2026 = 3)
  /\ (2020 <= 2024 /\ getYearLevelFromIntakeYear 2024 2020 = 1)
  /\ (2019 + 5 <= 2030 /\ getYearLevelFromIntakeYear 2019 2030 = 6).
Proof.
  split; [|split].
  - assert (H : 0 <= 2026 - 2024 <= 5) by (split; discriminate).
    split; [exact H|].
    exact (proj1 (proj2 (year_level_clamped 2024 2026)) H).
  - assert (H : 2020 <= 2024) by discriminate.
    split; [exact H|].
    exact (proj1 (proj2 (proj2 (year_level_clamped 2024 2020))) H).
  - assert (H : 2019 + 5 <= 2030) by discriminate.
    split; [exact H|].
    exact (proj1 (proj2 (proj2 (proj2 (year_level_clamped 2019 2030)))) H).
Defined.

End StudentYearFacts.

(* ================================================================== *)
(** * Recipients, roles, categories, schema flags and stored status *)
(* ================================================================== *)

Section Recipients.
Import Utils JsMore StudentYear RouteMore.

(** X19.  An address is among the recipients of a mail exactly when it
    is a non-empty email of the [users] rows and either there is no
    target year or its intake code is a non-zero member of them: that is,
    exactly when a viewer with this address would pass the audience
    filter of the listing for the announcement.  Addresses keep the order
    of the rows. *)
Theorem recipients_match_audience (rows : list (option string))
    (targetYears : option (list Z)) (email : string) :
  (In email (resolveRecipientEmails rows targetYears)
   <-> In (Some email) rows /\ email <> EmptyString
       /\ (targetYears = None \/ targetYears = Some []
           \/ exists l c, targetYears = Some l
                /\ extractIntakeCodeFromEmail (Some email) = Some c
                /\ c <> 0 /\ In c l))
  /\ (forall a,
        target_years a = targetYears ->
        (In email (resolveRecipientEmails rows targetYears)
         <-> In (Some email) rows /\ email <> EmptyString
             /\ audienceFilter (extractIntakeCodeFromEmail (Some email)) a
                = true)).
Proof.
  assert (Hrows : forall e,
             In e (filter Js.truthyString
                     (flat_map (fun row => match row with
                                           | Some e => [e]
                                           | None => []
                                           end) rows))
             <-> In (Some e) rows /\ e <> EmptyString).
  { intros e. rewrite filter_In, in_flat_map. split.
    - intros [(row & Hrow & He) Ht]. destruct row as [e'|]; [|contradiction].
      destruct He as [-> | []]. split; [exact Hrow|].
      intros ->. discriminate.
    - intros [Hrow Hne]. split; [exists (Some e); split; [exact Hrow | now left]|].
      destruct e; [contradiction | reflexivity]. }
  assert (Hkeep : forall a,
             target_years a = targetYears ->
             (In email (resolveRecipientEmails rows targetYears)
              <-> In (Some email) rows /\ email <> EmptyString
                  /\ audienceFilter (extractIntakeCodeFromEmail (Some email)) a
                     = true)).
  { intros a Ha. unfold resolveRecipientEmails, audienceFilter.
    rewrite filter_In, Hrows, Ha.
    destruct targetYears as [[|y l]|]; tauto. }
  split; [|exact Hkeep].
  pose (a := {| id := None; status := EmptyString; category := EmptyString;
                scheduled_at := None; target_years := targetYears;
                is_emergency := false; priority_level := None;
                created_at := None; priority_until := None |}).
  rewrite (Hkeep a eq_refl), audienceFilter_spec. simpl. reflexivity.
Qed.

Lemma recipients_match_audience_witness :
  let rows := [ Some "asha.24bcs10@sst.example"%string; None;
                Some "ravi.23bcs07@sst.example"%string;
                Some "dean.office@sst.example"%string ] in
  resolveRecipientEmails rows (Some [24])
  = ["asha.24bcs10@sst.example"%string]
  /\ target_years Scenarios.targeted = Some [23; 25]
  /\ (In "ravi.23bcs07@sst.example"%string
         (resolveRecipientEmails rows (Some [23; 25]))
      <-> In (Some "ravi.23bcs07@sst.example"%string) rows
          /\ "ravi.23bcs07@sst.example"%string <> EmptyString
          /\ audienceFilter
               (extractIntakeCodeFromEmail
                  (Some "ravi.23bcs07@sst.example"%string))
               Scenarios.targeted = true).
Proof.
  intros rows. split; [reflexivity|]. split; [reflexivity|].
  exact (proj2 (recipients_match_audience rows (Some [23; 25])
                  "ravi.23bcs07@sst.example"%string)
           Scenarios.targeted eq_refl).
Defined.

End Recipients.

Section Roles.
Import Utils UtilsMore.

Lemma lookupRole_None (s : string) :
  ~ In s roleMappingNames -> lookupRole roleMapping s = None.
Proof.
  intros Hs. unfold roleMapping. cbn [lookupRole].
  repeat match goal with
    | |- context [String.eqb ?k s] =>
        destruct (String.eqb_spec k s) as [E | _];
        [exfalso; apply Hs; rewrite <- E; cbn; tauto|]
    end.
  reflexivity.
Qed.

Lemma inherited_name (s : string) :
  existsb (String.eqb s) objectPrototypeNames = true
  <-> In s objectPrototypeNames.
Proof.
  rewrite existsb_exists. split.
  - intros (x & Hx & E). apply String.eqb_eq in E. now subst.
  - intros H. exists s. split; [exact H | apply String.eqb_refl].
Qed.

(** X20.  [normalizeUserRole] returns each role for its own name
    whatever the isAdmin flag and reads "user" as student.  It falls
    back on the flag (admin when true, student otherwise) for a missing
    or empty role and for a name that is neither a key of the table nor
    a member of [Object.prototype].  For the name of such a member
    ("constructor", "toString", ...) it returns that member, which is
    no role, whatever the flag.  Off those names it is the function to
    the four roles of [Utils.normalizeUserRole]. *)
Theorem normalizeUserRole_names (role : option string) (isAdmin : option bool) :
  (forall r, normalizeUserRoleValue (Some (roleString r)) isAdmin = RoleName r)
  /\ normalizeUserRoleValue (Some "user"%string) isAdmin = RoleName student
  /\ ((role = None
       \/ role = Some ""%string
       \/ exists s, role = Some s
            /\ ~ In s roleMappingNames
            /\ ~ In s objectPrototypeNames) ->
      normalizeUserRoleValue role isAdmin
      = RoleName (if isTrue isAdmin then admin else student))
  /\ (forall s, role = Some s -> In s objectPrototypeNames ->
        normalizeUserRoleValue role isAdmin = PrototypeMember s
        /\ forall r, normalizeUserRoleValue role isAdmin <> RoleName r)
  /\ (forall s, role = Some s ->
        In s roleMappingNames \/ In s objectPrototypeNames ->
        forall isAdmin',
          normalizeUserRoleValue role isAdmin'
          = normalizeUserRoleValue role isAdmin)
  /\ ((forall s, role = Some s -> ~ In s objectPrototypeNames) ->
      normalizeUserRoleValue role isAdmin
      = RoleName (normalizeUserRole role isAdmin)).
Proof.
  assert (Hproto : forall s, In s objectPrototypeNames ->
            forall a, normalizeUserRoleValue (Some s) a = PrototypeMember s).
  { intros s Hs a. cbn in Hs.
    repeat (destruct Hs as [<- | Hs]; [reflexivity|]). contradiction. }
  split; [intros []; reflexivity|]. split; [reflexivity|]. split; [|split].
  - intros [-> | [-> | (s & -> & Hs & Hp)]]; try reflexivity.
    unfold normalizeUserRoleValue, roleMappingGet.
    destruct (Js.truthyString s); cbn [negb]; [|reflexivity].
    rewrite (lookupRole_None s Hs).
    destruct (existsb (String.eqb s) objectPrototypeNames) eqn:E;
      [|reflexivity].
    exfalso. apply Hp. now apply inherited_name.
  - intros s -> Hs. rewrite (Hproto s Hs). split; [reflexivity|].
    intros r H. discriminate H.
  - split.
    + intros s -> [Hs | Hs] isAdmin'.
      * cbn in Hs.
        repeat (destruct Hs as [<- | Hs]; [reflexivity|]). contradiction.
      * now rewrite !(Hproto s Hs).
    + intros Hp. destruct role as [s|]; [|reflexivity].
      specialize (Hp s eq_refl).
      unfold normalizeUserRoleValue, normalizeUserRole, roleMappingGet.
      destruct (Js.truthyString s); cbn [negb]; [|reflexivity].
      destruct (lookupRole roleMapping s); [reflexivity|].
      destruct (existsb (String.eqb s) objectPrototypeNames) eqn:E;
        [|reflexivity].
      exfalso. apply Hp. now apply inherited_name.
Qed.

Lemma normalizeUserRole_names_witness :
  (exists s, Some "teacher"%string = Some s
     /\ ~ In s roleMappingNames /\ ~ In s objectPrototypeNames)
  /\ normalizeUserRoleValue (Some "teacher"%string) (Some true)
     = RoleName admin
  /\ In "constructor"%string objectPrototypeNames
  /\ normalizeUserRoleValue (Some "constructor"%string) (Some true)
     = PrototypeMember "constructor"
  /\ normalizeUserRoleValue (Some "student"%string) (Some true)
     = RoleName student
  /\ In "student"%string roleMappingNames
  /\ normalizeUserRoleValue (Some "student"%string) None
     = normalizeUserRoleValue (Some "student"%string) (Some true)
  /\ normalizeUserRoleValue (Some "student"%string) (Some true)
     = RoleName (normalizeUserRole (Some "student"%string) (Some true)).
Proof.
  assert (Hk : In "student"%string roleMappingNames)
    by (cbn; tauto).
  assert (H : exists s, Some "teacher"%string = Some s
                /\ ~ In s roleMappingNames /\ ~ In s objectPrototypeNames).
  { exists "teacher"%string. split; [reflexivity|].
    split; cbn; intros Hs;
      repeat (destruct Hs as [Hs | Hs]; [discriminate Hs|]); exact Hs. }
  assert (Hc : In "constructor"%string objectPrototypeNames)
    by (cbn; tauto).
  assert (Hn : forall s, Some "student"%string = Some s ->
                 ~ In s objectPrototypeNames).
  { intros s E. inversion E; subst s. cbn. intros Hs.
    repeat (destruct Hs as [Hs | Hs]; [discriminate Hs|]). exact Hs. }
  destruct (normalizeUserRole_names (Some "teacher"%string) (Some true))
    as (_ & _ & Hfall & _).
  destruct (normalizeUserRole_names (Some "constructor"%string) (Some true))
    as (_ & _ & _ & Hmember & _).
  destruct (normalizeUserRole_names (Some "student"%string) (Some true))
    as (_ & _ & _ & _ & Hflag & Hsame).
  split; [exact H|]. split; [exact (Hfall (or_intror (or_intror H)))|].
  split; [exact Hc|].
  split; [exact (proj1 (Hmember "constructor"%string eq_refl Hc))|].
  split; [reflexivity|]. split; [exact Hk|].
  split; [exact (Hflag "student"%string eq_refl (or_introl Hk) None)|].
  exact (Hsame Hn).
Defined.

(** X21.  The role tables agree with each other: a role has admin access
    exactly when it is not student, when its access level is at least 2
    and when its announcement rank is at least 2; only the super admin
    may manage users, and it has the top access level and the top rank;
    the rank tells the four roles apart. *)
Theorem role_tables_agree (r r' : UserRole) :
  (hasAdminAccess r = true <-> r <> student)
  /\ (hasAdminAccess r = true <-> 2 <= getAccessLevel r)
  /\ (hasAdminAccess r = true <-> 2 <= getAnnouncementPriority r)
  /\ canPerformAdminActions r = hasAdminAccess r
  /\ (canManageUsers r = true <-> r = super_admin)
  /\ (canManageUsers r = true -> hasAdminAccess r = true)
  /\ getAccessLevel r <= getAccessLevel super_admin
  /\ getAnnouncementPriority r <= getAnnouncementPriority super_admin
  /\ 1 <= getAnnouncementPriority r <= 4
  /\ (getAnnouncementPriority r = getAnnouncementPriority r' -> r = r').
Proof.
  destruct r, r'; simpl; repeat split; intros; try lia; try congruence;
    try discriminate; try reflexivity.
Qed.

Lemma role_tables_agree_witness :
  canManageUsers super_admin = true
  /\ hasAdminAccess super_admin = true
  /\ (getAnnouncementPriority admin = getAnnouncementPriority admin ->
      admin = admin).
Proof.
  destruct (role_tables_agree super_admin admin)
    as (_ & _ & _ & _ & _ & Hm & _).
  split; [reflexivity|]. split; [exact (Hm eq_refl)|].
  exact (proj2 (proj2 (proj2 (proj2 (proj2 (proj2 (proj2 (proj2 (proj2
           (role_tables_agree admin admin)))))))))).
Defined.

End Roles.

Section Categories.
Import Utils UtilsMore GateSpec JsMore.

(** X22.  Filtering by category returns the whole list for the literal
    "all" and otherwise the items whose category equals the requested one
    up to case, in their order.  Filtering twice changes nothing, and two
    requests that differ only in case give the same list, unless one of
    them is exactly "all". *)
Theorem filterByCategory_spec (l : list Announcement) (c : string) :
  filterByCategory l "all" = l
  /\ (c <> "all"%string ->
      forall a,
        In a (filterByCategory l c)
        <-> In a l /\ Js.toLowerCase (category a) = Js.toLowerCase c)
  /\ filterByCategory (filterByCategory l c) c = filterByCategory l c
  /\ (forall c',
        c <> "all"%string -> c' <> "all"%string ->
        Js.toLowerCase c = Js.toLowerCase c' ->
        filterByCategory l c = filterByCategory l c').
Proof.
  unfold filterByCategory. split; [reflexivity|]. split; [|split].
  - intros Hc a. destruct (String.eqb_spec c "all"); [contradiction|].
    rewrite filter_In, String.eqb_eq. reflexivity.
  - destruct (String.eqb c "all"); [reflexivity|].
    induction l as [|a l IH]; simpl; [reflexivity|].
    destruct (String.eqb (Js.toLowerCase (category a)) (Js.toLowerCase c))
      eqn:E; simpl; [rewrite E; now f_equal | exact IH].
  - intros c' Hc Hc' E.
    destruct (String.eqb_spec c "all"); [contradiction|].
    destruct (String.eqb_spec c' "all"); [contradiction|].
    now rewrite E.
Qed.

Lemma filterByCategory_spec_witness :
  let exams := {| id := Some 1; status := "active"; category := "Exams";
                  scheduled_at := None; target_years := None;
                  is_emergency := false; priority_level := None;
                  created_at := None; priority_until := None |} in
  "EXAMS"%string <> "all"%string
  /\ "exams"%string <> "all"%string
  /\ Js.toLowerCase "EXAMS" = Js.toLowerCase "exams"
  /\ filterByCategory [exams; Scenarios.targeted] "EXAMS"
     = filterByCategory [exams; Scenarios.targeted] "exams"
  /\ filterByCategory [exams; Scenarios.targeted] "EXAMS" = [exams]
  /\ filterByCategory [exams; Scenarios.targeted] "ALL" = [].
Proof.
  intros exams.
  assert (H1 : "EXAMS"%string <> "all"%string) by discriminate.
  assert (H2 : "exams"%string <> "all"%string) by discriminate.
  split; [exact H1|]. split; [exact H2|]. split; [reflexivity|].
  split; [|split; reflexivity].
  exact (proj2 (proj2 (proj2 (filterByCategory_spec
                                [exams; Scenarios.targeted] "EXAMS")))
           "exams"%string H1 H2 eq_refl).
Defined.

Lemma stringOrder_sorted (l : list string) :
  StronglySorted (fun s t => String.compare s t <> Gt)
                 (Js.sort stringOrder l).
Proof.
  apply sort_sorted_by.
  - apply string_compare_trans.
  - intros x y. apply stringOrder_le.
  - intros x y. apply stringOrder_gt.
Qed.

Lemma strings_sorted_strictly (l : list string) :
  StronglySorted (fun s t => String.compare s t <> Gt) l ->
  NoDup l ->
  StronglySorted (fun s t => String.compare s t = Lt) l.
Proof.
  induction 1 as [|x s Hs IH Hf]; intros Hnd; constructor;
    inversion Hnd as [|? ? Hx Hnd']; subst.
  - now apply IH.
  - rewrite Forall_forall in *. intros y Hy. specialize (Hf y Hy).
    destruct (String.compare x y) eqn:E; try congruence.
    apply String.compare_eq_iff in E. subst. contradiction.
Qed.

(** X23.  The unique categories are the categories of exactly the items
    the visibility gate shows when called with the role alone, each
    listed once, in strictly ascending order of their code units.  For a
    role without admin access an item with target years never
    contributes, since no intake code is passed. *)
Theorem getUniqueCategories_spec (now : Z) (l : list Announcement)
    (role : UserRole) :
  (forall c,
      In c (getUniqueCategories now l role)
      <-> exists a, In a l /\ category a = c
            /\ isVisibleToUser now a role None None None Js.Undefined = true)
  /\ NoDup (getUniqueCategories now l role)
  /\ StronglySorted (fun s t => String.compare s t = Lt)
                    (getUniqueCategories now l role)
  /\ (hasAdminAccess role = false ->
      forall c, In c (getUniqueCategories now l role) ->
        exists a, In a l /\ category a = c
          /\ (target_years a = None \/ target_years a = Some [])).
Proof.
  assert (Hin : forall c,
      In c (getUniqueCategories now l role)
      <-> exists a, In a l /\ category a = c
            /\ isVisibleToUser now a role None None None Js.Undefined = true).
  { intros c. unfold getUniqueCategories.
    rewrite sort_In, (setFrom_In String.eqb String.eqb_eq), in_map_iff.
    split.
    - intros (a & E & Ha). apply filter_In in Ha as [Ha Hv]. now exists a.
    - intros (a & Ha & E & Hv). exists a. split; [exact E|].
      apply filter_In. now split. }
  assert (Hnd : NoDup (getUniqueCategories now l role)).
  { unfold getUniqueCategories.
    eapply Permutation_NoDup; [apply Permutation_sym, sort_perm|].
    apply (setFrom_NoDup String.eqb String.eqb_eq). }
  split; [exact Hin|]. split; [exact Hnd|]. split.
  - apply strings_sorted_strictly; [|exact Hnd].
    apply stringOrder_sorted.
  - intros Hrole c Hc. apply Hin in Hc as (a & Ha & E & Hv).
    exists a. split; [exact Ha|]. split; [exact E|].
    destruct (target_years a) as [[|y t]|] eqn:Et; [now right | | now left].
    exfalso.
    assert (Hden : isVisibleToUser now a role None None None Js.Undefined
                   = false).
    { apply gate_non_admin.
      - unfold adminLevel. now rewrite Hrole.
      - right; right; right. exists (y :: t).
        split; [exact Et|]. split; [discriminate | now left]. }
    congruence.
Qed.

Lemma getUniqueCategories_spec_witness :
  let exams := {| id := Some 1; status := "active"; category := "exams";
                  scheduled_at := None; target_years := None;
                  is_emergency := false; priority_level := None;
                  created_at := None; priority_until := None |} in
  hasAdminAccess student = false
  /\ getUniqueCategories 0 [Scenarios.targeted; exams; Scenarios.item 1 0 1;
                            exams] student
     = ["exams"%string; "general"%string]
  /\ (forall c,
        In c (getUniqueCategories 0
                [Scenarios.targeted; exams; Scenarios.item 1 0 1; exams]
                student) ->
        exists a,
          In a [Scenarios.targeted; exams; Scenarios.item 1 0 1; exams]
          /\ category a = c
          /\ (target_years a = None \/ target_years a = Some [])).
Proof.
  intros exams. split; [reflexivity|]. split; [reflexivity|].
  exact (proj2 (proj2 (proj2 (getUniqueCategories_spec 0
                                [Scenarios.targeted; exams;
                                 Scenarios.item 1 0 1; exams] student)))
           eq_refl).
Defined.

End Categories.

Section SchemaFlags.
Import RouteMore.

Lemma priority_flag_unsupported (writes : list FlagWrite) :
  priorityFlagAfterAll writes unsupported = unsupported.
Proof.
  unfold priorityFlagAfterAll.
  induction writes as [|w writes IH]; [reflexivity|].
  destruct w; simpl; exact IH.
Qed.

Lemma priority_flag_supported (writes : list FlagWrite) :
  priorityFlagAfterAll writes supported = supported
  <-> ~ In InsertMissedColumn writes.
Proof.
  unfold priorityFlagAfterAll.
  induction writes as [|w writes IH]; simpl; [tauto|].
  destruct w as [c a v|]; simpl.
  - rewrite IH. split.
    + intros H [E | Hin]; [discriminate E | now apply H].
    + intros H Hin. apply H. now right.
  - fold (priorityFlagAfterAll writes unsupported).
    rewrite priority_flag_unsupported.
    split; [discriminate | intros H; exfalso; apply H; now left].
Qed.

Lemma priority_flag_missed (writes : list FlagWrite) (state : ColumnState) :
  In InsertMissedColumn writes ->
  priorityFlagAfterAll writes state = unsupported.
Proof.
  unfold priorityFlagAfterAll.
  revert state; induction writes as [|w writes IH]; intros state Hin;
    [contradiction|].
  destruct Hin as [-> | Hin]; simpl.
  - apply priority_flag_unsupported.
  - now apply IH.
Qed.

Lemma ensureColumn_decides (state : ColumnState)
    (check : DbAnswer) (alterFails : bool) (verify : DbAnswer) :
  snd (ensureColumn state check alterFails verify) <> unknown.
Proof.
  unfold ensureColumn.
  destruct state; destruct check as [|[|n]]; destruct alterFails;
    destruct verify as [|[|m]]; simpl; discriminate.
Qed.

Lemma priority_flag_known (writes : list FlagWrite) (state : ColumnState) :
  state <> unknown -> priorityFlagAfterAll writes state <> unknown.
Proof.
  unfold priorityFlagAfterAll.
  revert state; induction writes as [|w writes IH]; intros state Hs;
    [exact Hs|].
  simpl. apply IH. destruct w as [c a v|]; simpl.
  - apply ensureColumn_decides.
  - discriminate.
Qed.

Lemma target_years_flag_stays (calls : list (DbAnswer * bool * DbAnswer))
    (state : ColumnState) :
  state <> unknown -> targetYearsFlagAfterAll calls state = state.
Proof.
  unfold targetYearsFlagAfterAll.
  induction calls as [|[[c a] v] calls IH]; intros Hs; [reflexivity|].
  simpl. destruct state; [contradiction | exact (IH Hs) | exact (IH Hs)].
Qed.

(** X24.  A column check never leaves its flag unknown, answers true
    exactly when it leaves the flag supported, and on a decided flag
    returns that decision whatever the database would say.  From
    unknown, the column is supported exactly when the first check finds
    it, or finds nothing, the ALTER succeeds and the second check finds
    it.  Over any sequence of writes to the flags a flag never returns
    to unknown and an unsupported flag stays unsupported, so that one
    failed check disables the column for good; the target-years flag
    keeps its first decision; the priority flag stays supported exactly
    as long as no insert fails on the missing column, after which it is
    unsupported whatever the checks would find. *)
Theorem column_flags_only_fall (state : ColumnState)
    (check : DbAnswer) (alterFails : bool) (verify : DbAnswer)
    (writes : list FlagWrite) (calls : list (DbAnswer * bool * DbAnswer)) :
  let r := ensurePriorityColumn state check alterFails verify in
  snd r <> unknown
  /\ (fst r = true <-> snd r = supported)
  /\ (state <> unknown ->
      snd r = state
      /\ forall check' alterFails' verify',
           ensurePriorityColumn state check' alterFails' verify' = r)
  /\ (state = unknown ->
      (fst r = true
       <-> hasRows check = true
           \/ (check = DbRows 0 /\ alterFails = false
               /\ hasRows verify = true)))
  /\ ensureTargetYearsColumn state check alterFails verify = r
  /\ priorityFlagAfterAll writes unsupported = unsupported
  /\ (priorityFlagAfterAll writes supported = supported
      <-> ~ In InsertMissedColumn writes)
  /\ (In InsertMissedColumn writes ->
      priorityFlagAfterAll writes state = unsupported)
  /\ (state <> unknown \/ writes <> [] ->
      priorityFlagAfterAll writes state <> unknown)
  /\ (state <> unknown -> targetYearsFlagAfterAll calls state = state).
Proof.
  intros r.
  assert (H5 : snd r <> unknown
               /\ (fst r = true <-> snd r = supported)
               /\ (state <> unknown ->
                   snd r = state
                   /\ forall check' alterFails' verify',
                        ensurePriorityColumn state check' alterFails' verify'
                        = r)
               /\ (state = unknown ->
                   (fst r = true
                    <-> hasRows check = true
                        \/ (check = DbRows 0 /\ alterFails = false
                            /\ hasRows verify = true)))
               /\ ensureTargetYearsColumn state check alterFails verify = r).
  { subst r.
    unfold ensurePriorityColumn, ensureTargetYearsColumn, ensureColumn.
    destruct state; destruct check as [|[|n]]; destruct alterFails;
      destruct verify as [|[|m]]; simpl;
      (split; [discriminate|]);
      (split; [split; congruence|]);
      (split; [intros H; try (exfalso; apply H; reflexivity);
               split; reflexivity|]);
      (split; [|reflexivity]);
      intros H; try discriminate H;
      split; intros H';
      try discriminate H'; try reflexivity;
      try (now left);
      try (right; repeat split; reflexivity);
      try (destruct H' as [H' | (H1 & H2 & H3)]; discriminate). }
  destruct H5 as (H1 & H2 & H3 & H4 & H5).
  split; [exact H1|]. split; [exact H2|]. split; [exact H3|].
  split; [exact H4|]. split; [exact H5|].
  split; [apply priority_flag_unsupported|].
  split; [apply priority_flag_supported|].
  split; [apply priority_flag_missed|].
  split; [|apply target_years_flag_stays].
  intros [Hs | Hw]; [now apply priority_flag_known|].
  destruct writes as [|w writes]; [contradiction|].
  unfold priorityFlagAfterAll. simpl.
  apply priority_flag_known.
  destruct w as [c a v|]; simpl; [apply ensureColumn_decides | discriminate].
Qed.

Lemma column_flags_only_fall_witness :
  let found := EnsureCall (DbRows 1) false (DbRows 1) in
  ensurePriorityColumn unknown DbError false (DbRows 1) = (false, unsupported)
  /\ unsupported <> unknown
  /\ ensurePriorityColumn unsupported (DbRows 1) false (DbRows 1)
     = (false, unsupported)
  /\ (fst (ensurePriorityColumn unknown (DbRows 0) false (DbRows 1)) = true
      <-> hasRows (DbRows 0) = true
          \/ (DbRows 0 = DbRows 0 /\ false = false
              /\ hasRows (DbRows 1) = true))
  /\ In InsertMissedColumn [found; InsertMissedColumn; found]
  /\ priorityFlagAfterAll [found] unknown = supported
  /\ priorityFlagAfterAll [found; InsertMissedColumn; found] unknown
     = unsupported
  /\ (unknown <> unknown \/ [found] <> [])
  /\ priorityFlagAfterAll [found] unknown <> unknown
  /\ supported <> unknown
  /\ targetYearsFlagAfterAll [(DbError, true, DbError)] supported
     = supported.
Proof.
  intros found.
  assert (Hin : In InsertMissedColumn [found; InsertMissedColumn; found])
    by (right; left; reflexivity).
  assert (Hs : supported <> unknown) by discriminate.
  assert (Hu : unsupported <> unknown) by discriminate.
  assert (Hne : unknown <> unknown \/ [found] <> [])
    by (right; discriminate).
  destruct (column_flags_only_fall unknown (DbRows 0) false (DbRows 1)
              [found; InsertMissedColumn; found] [])
    as (_ & _ & _ & Hfirst & _ & _ & _ & Hmissed & _).
  destruct (column_flags_only_fall unknown (DbRows 0) false (DbRows 1)
              [found] [])
    as (_ & _ & _ & _ & _ & _ & _ & _ & Hknown & _).
  destruct (column_flags_only_fall unsupported DbError false (DbRows 1)
              [] [])
    as (_ & _ & Hdecided & _).
  destruct (column_flags_only_fall supported DbError true DbError
              [] [(DbError, true, DbError)])
    as (_ & _ & _ & _ & _ & _ & _ & _ & _ & Hstays).
  split; [reflexivity|]. split; [exact Hu|].
  split; [exact (proj2 (Hdecided Hu) (DbRows 1) false (DbRows 1))|].
  split; [exact (Hfirst eq_refl)|]. split; [exact Hin|].
  split; [reflexivity|]. split; [exact (Hmissed Hin)|].
  split; [exact Hne|]. split; [exact (Hknown Hne)|].
  split; [exact Hs | exact (Hstays Hs)].
Defined.

End SchemaFlags.

Section FinalStatus.
Import Route RouteMore.

(** X25.  The status and the active flag POST hands to the insert: a
    live priority window gives 'urgent' even when the item is scheduled
    in the future, and a row with that status never counts as a schedule
    conflict; an item scheduled in the future is handed over inactive,
    and without a priority window with the status 'scheduled', which does
    count; otherwise the submitted status and active flag are kept. *)
Theorem final_status_and_conflicts (hasPriorityWindow isScheduled : bool)
    (status : string) (is_active : bool) :
  (hasPriorityWindow = true ->
   finalStatus hasPriorityWindow isScheduled status = "urgent"%string
   /\ inConflictStatus (finalStatus hasPriorityWindow isScheduled status)
      = false
   /\ forall start end_ a,
        row_status a = finalStatus hasPriorityWindow isScheduled status ->
        conflictsWith start end_ a = false)
  /\ (isScheduled = true ->
      finalIsActive hasPriorityWindow isScheduled is_active = false)
  /\ (hasPriorityWindow = false -> isScheduled = true ->
      finalStatus hasPriorityWindow isScheduled status = "scheduled"%string
      /\ inConflictStatus (finalStatus hasPriorityWindow isScheduled status)
         = true)
  /\ (hasPriorityWindow = false -> isScheduled = false ->
      finalStatus hasPriorityWindow isScheduled status = status
      /\ finalIsActive hasPriorityWindow isScheduled is_active = is_active)
  /\ (hasPriorityWindow = true -> isScheduled = false ->
      finalIsActive hasPriorityWindow isScheduled is_active = true).
Proof.
  split; [|split; [|split; [|split]]].
  - intros ->. simpl. split; [reflexivity|]. split; [reflexivity|].
    intros start end_ a Ha. unfold conflictsWith. rewrite Ha.
    destruct (row_scheduled_at a); [|reflexivity].
    now rewrite andb_false_r.
  - intros ->. reflexivity.
  - intros -> ->. split; reflexivity.
  - intros -> ->. split; reflexivity.
  - intros -> ->. reflexivity.
Qed.

Lemma final_status_and_conflicts_witness :
  let urgentRow :=
    {| row_id := 20; row_title := None; row_priority_level := Some 0;
       row_scheduled_at := Some (Scenarios.clock 10 0 0);
       row_author_id := Some 1;
       row_status := finalStatus true true "active";
       row_updated_at := None |} in
  finalStatus true true "active" = "urgent"%string
  /\ conflictsWith (Scenarios.clock 10 0 0) (Scenarios.clock 10 5 0) urgentRow
     = false
  /\ finalIsActive true true true = false.
Proof.
  intros urgentRow.
  destruct (final_status_and_conflicts true true "active" true)
    as (H1 & H2 & _).
  destruct (H1 eq_refl) as (Hs & _ & Hc).
  split; [exact Hs|]. split; [exact (Hc _ _ urgentRow eq_refl)|].
  exact (H2 eq_refl).
Defined.

End FinalStatus.

(* ================================================================== *)
(** * The two scheduling paths together *)
(* ================================================================== *)

Section BothPaths.
Import Utils Route Window ReflowSpec.
Variable normalizeUserRole : option string -> option bool -> UserRole.

Lemma findNext_same_minute (d : Z) (s : Store) :
  findNextAvailableScheduleSlot (Js.setSeconds00 d) s
  = findNextAvailableScheduleSlot d s.
Proof.
  unfold findNextAvailableScheduleSlot. now rewrite setSeconds00_idem.
Qed.

Lemma reflow_same_minute (d p : Z) (role : UserRole) (s : Store) :
  reflowSchedulesForSuperAdmin normalizeUserRole (Js.setSeconds00 d) p role s
  = reflowSchedulesForSuperAdmin normalizeUserRole d p role s.
Proof.
  unfold reflowSchedulesForSuperAdmin. now rewrite !setSeconds00_idem.
Qed.

(** X26.  Seconds and milliseconds of the requested time never matter:
    two requests within the same minute are resolved alike, on either
    path and for every role. *)
Theorem requests_in_same_minute_resolve_alike
    (d d' : Z) (p : Z) (role : UserRole) (s : Store) :
  Js.setSeconds00 d = Js.setSeconds00 d' ->
  findNextAvailableScheduleSlot d s = findNextAvailableScheduleSlot d' s
  /\ reflowSchedulesForSuperAdmin normalizeUserRole d p role s
     = reflowSchedulesForSuperAdmin normalizeUserRole d' p role s
  /\ resolveSchedule normalizeUserRole (Some d) p role s
     = resolveSchedule normalizeUserRole (Some d') p role s.
Proof.
  intros E.
  assert (H1 : findNextAvailableScheduleSlot d s
               = findNextAvailableScheduleSlot d' s)
    by (rewrite <- (findNext_same_minute d), <- (findNext_same_minute d');
        now rewrite E).
  assert (H2 : reflowSchedulesForSuperAdmin normalizeUserRole d p role s
               = reflowSchedulesForSuperAdmin normalizeUserRole d' p role s)
    by (rewrite <- (reflow_same_minute d), <- (reflow_same_minute d');
        now rewrite E).
  split; [exact H1|]. split; [exact H2|].
  unfold resolveSchedule, bind.
  destruct (UserRole_eqb role super_admin).
  - assert (H3 : reflowSchedulesForSuperAdmin normalizeUserRole d p role s
                 = reflowSchedulesForSuperAdmin normalizeUserRole d' p role s)
      by exact H2.
    now rewrite H3.
  - now rewrite H1.
Qed.

(** X27.  When the window of the truncated desiredTime holds no
    conflicting item, both paths give the same answer: for every role the
    handler schedules the item at the truncated desiredTime, reports no
    rescheduling, has no adjustment to apply and leaves the store as it
    is. *)
Theorem free_window_resolves_alike_for_all_roles
    (d p : Z) (role : UserRole) (s : Store) :
  occupiedWindow s (Js.setSeconds00 d) = false ->
  resolveSchedule normalizeUserRole (Some d) p role s
  = (Returned {| resolvedScheduledDate := Some (Js.setSeconds00 d);
                 autoRescheduled := false;
                 pendingScheduleAdjustments := [] |}, s).
Proof.
  intros Hfree.
  assert (Hempty : conflictSet s d = []).
  { unfold occupiedWindow in Hfree. unfold conflictSet.
    destruct (queryConflicts s (Js.setSeconds00 d)
                (Js.addMinutes (Js.setSeconds00 d) SLOT_INTERVAL_MINUTES));
      [reflexivity | discriminate]. }
  unfold resolveSchedule, bind.
  destruct (UserRole_eqb role super_admin).
  - now rewrite (reflow_no_conflicts normalizeUserRole s d p role Hempty).
  - destruct (findNext_spec d s)
      as [(res & k & Hrun & Hk & Hocc & _ & Hat & Hadj) | [_ Hall]].
    + rewrite Hrun. destruct k as [|k].
      * rewrite windowOf_0 in Hat, Hadj. rewrite Z.eqb_refl in Hadj.
        simpl in Hadj. unfold ret. now rewrite Hat, Hadj.
      * specialize (Hocc 0%nat (Nat.lt_0_succ k)).
        rewrite windowOf_0 in Hocc. congruence.
    + assert (H0 : (0 < maxIterations)%nat) by (unfold maxIterations; lia).
      specialize (Hall 0%nat H0). rewrite windowOf_0 in Hall. congruence.
Qed.

End BothPaths.

Section BothPathsWitnesses.
Import Utils Route Window ReflowSpec Scenarios.

Lemma requests_in_same_minute_resolve_alike_witness :
  Js.setSeconds00 (clock 10 0 10) = Js.setSeconds00 (clock 10 0 50)
  /\ findNextAvailableScheduleSlot (clock 10 0 10) storeB
     = findNextAvailableScheduleSlot (clock 10 0 50) storeB.
Proof.
  split; [reflexivity|].
  exact (proj1 (requests_in_same_minute_resolve_alike Utils.normalizeUserRole
                  (clock 10 0 10) (clock 10 0 50) 3 admin storeB eq_refl)).
Defined.

Lemma free_window_resolves_alike_for_all_roles_witness :
  occupiedWindow storeB (Js.setSeconds00 (clock 11 30 20)) = false
  /\ resolveSchedule Utils.normalizeUserRole (Some (clock 11 30 20)) 1
       super_admin storeB
     = resolveSchedule Utils.normalizeUserRole (Some (clock 11 30 20)) 1
         student storeB.
Proof.
  split; [reflexivity|].
  rewrite (free_window_resolves_alike_for_all_roles Utils.normalizeUserRole
             (clock 11 30 20) 1 super_admin storeB eq_refl).
  now rewrite (free_window_resolves_alike_for_all_roles
                 Utils.normalizeUserRole (clock 11 30 20) 1 student storeB
                 eq_refl).
Defined.

End BothPathsWitnesses.